(** * Yasin Favorites: the favorites state engine

    A shallow embedding of [out/extension.js] (command handlers, path
    persistence) and of [out/provider/YasinFavoritesProvider.js] (the store,
    the sort policy, the filesystem listing and the drag-and-drop controller),
    together with the properties of the design document that are about them.

    Conventions.
    - A JavaScript string is a [string]; [""] is the only falsy string, and an
      optional field ([undefined] when absent) is an [option].
    - The array [provider.items] is a [list FavoriteEntry].  Every slot of that
      array holds an object of its own (objects are created by [addFavorite]
      and by the spread in [activate], and the handlers only permute slots), so
      an assignment to a field of the object found by [Array.prototype.find]
      is the update of one list position.
    - Node's [fs] module and [vscode.workspace.fs] are an interface
      ([FileSystem]); the handlers are written against it and the theorems
      hold for every implementation.  [SimFS] is a small in-memory
      implementation used to run the handlers on concrete inputs.
    - Node's [path] module is modelled for POSIX ([path.sep = "/"]).
    - [String.prototype.localeCompare] and [String.prototype.toLowerCase] are
      the host's: the sort policy takes them as parameters, and the theorems
      about it hold for every such pair of functions. *)

From Stdlib Require Import ZArith Lia Ascii String Sorted Permutation DecimalString.
From Stdlib Require OrdersEx.
From stdpp Require Import base tactics option list strings sorting.

Local Open Scope string_scope.
Local Open Scope list_scope.

(** ** JavaScript strings *)

Module JsString.

(** [s.startsWith(p)] *)
Definition startsWith (s p : string) : bool := String.prefix p s.

(** Truthiness of a string: only [""] is falsy. *)
Definition truthy (s : string) : bool := negb (String.eqb s "").

(** The decimal form of a length, as a template literal prints it. *)
Definition numberToString (n : nat) : string := NilEmpty.string_of_uint (Nat.to_uint n).

(** The line feed, ['\n']. *)
Definition newline : string := String "010" EmptyString.

(** Truthiness of an optional string field. *)
Definition truthyOpt (o : option string) : bool :=
  match o with
  | Some s => truthy s
  | None => false
  end.

(** [s.split("/")]: the segments between separators, never the empty
    list. *)
Fixpoint splitSlash (s : string) : list string :=
  match s with
  | EmptyString => [EmptyString]
  | String c s' =>
      if Ascii.eqb c "/" then EmptyString :: splitSlash s'
      else match splitSlash s' with
           | seg :: segs => String c seg :: segs
           | [] => [String c EmptyString]
           end
  end.

(** [segs.join("/")] *)
Definition joinSlash (segs : list string) : string := String.concat "/" segs.

(** The string of the characters of [s] in reverse order. *)
Fixpoint revString (s acc : string) : string :=
  match s with
  | EmptyString => acc
  | String c s' => revString s' (String c acc)
  end.

Fixpoint dropSlashes (s : string) : string :=
  match s with
  | String c s' => if Ascii.eqb c "/" then dropSlashes s' else s
  | EmptyString => EmptyString
  end.

Fixpoint dropNonSlashes (s : string) : string :=
  match s with
  | String c s' => if Ascii.eqb c "/" then s else dropNonSlashes s'
  | EmptyString => EmptyString
  end.

Fixpoint takeNonSlashes (s : string) : string :=
  match s with
  | String c s' => if Ascii.eqb c "/" then EmptyString else String c (takeNonSlashes s')
  | EmptyString => EmptyString
  end.

End JsString.

(** ** Node's [path] module (POSIX) *)

Module NodePath.
Import JsString.

Definition sep : string := "/".

(** [path.isAbsolute(p)] *)
Definition isAbsolute (p : string) : bool :=
  match p with
  | String c _ => Ascii.eqb c "/"
  | EmptyString => false
  end.

(** [path.basename(p)]: trailing separators are skipped, then the last
    segment is returned. *)
Definition basename (p : string) : string :=
  revString (takeNonSlashes (dropSlashes (revString p ""))) "".

(** [path.dirname(p)]: the scan runs from the end down to index 1, skips
    trailing separators, skips the last segment and cuts at the separator
    before it. *)
Definition dirname (p : string) : string :=
  match p with
  | EmptyString => "."
  | String c0 rest =>
      let hasRoot := Ascii.eqb c0 "/" in
      match dropNonSlashes (dropSlashes (revString rest "")) with
      | EmptyString => if hasRoot then "/" else "."
      | String _ before =>
          if hasRoot && Nat.eqb (String.length before) 0 then "//"
          else String c0 (revString before "")
      end
  end.

(** One step of [normalizeString]: the segments kept so far are a stack
    (last kept segment first). *)
Definition pushSegment (allowAboveRoot : bool) (stack : list string) (seg : string)
  : list string :=
  if String.eqb seg "" || String.eqb seg "." then stack
  else if String.eqb seg ".." then
    match stack with
    | top :: below =>
        if String.eqb top ".."
        then (if allowAboveRoot then ".." :: stack else stack)
        else below
    | [] => if allowAboveRoot then [".."] else []
    end
  else seg :: stack.

(** The segments of [normalizeString(p, allowAboveRoot)]. *)
Definition normalizeSegs (allowAboveRoot : bool) (p : string) : list string :=
  rev (fold_left (pushSegment allowAboveRoot) (splitSlash p) []).

Definition normalizeString (allowAboveRoot : bool) (p : string) : string :=
  joinSlash (normalizeSegs allowAboveRoot p).

Definition endsWithSlash (p : string) : bool :=
  match revString p "" with
  | String c _ => Ascii.eqb c "/"
  | EmptyString => false
  end.

(** [path.normalize(p)] *)
Definition normalize (p : string) : string :=
  if String.eqb p "" then "."
  else
    let isAbs := isAbsolute p in
    let trailingSeparator := endsWithSlash p in
    let body := normalizeString (negb isAbs) p in
    if String.eqb body "" then
      (if isAbs then "/" else if trailingSeparator then "./" else ".")
    else
      let body' := if trailingSeparator then body +:+ "/" else body in
      if isAbs then "/" +:+ body' else body'.

(** [path.join(a, b)] *)
Definition join (a b : string) : string :=
  if String.eqb a "" then (if String.eqb b "" then "." else normalize b)
  else if String.eqb b "" then normalize a
  else normalize (a +:+ "/" +:+ b).

(** The segments of [path.resolve(p)], which is ["/"] followed by these
    segments joined; [cwd] is [process.cwd()], an absolute path. *)
Definition resolveSegs (cwd p : string) : list string :=
  if isAbsolute p then normalizeSegs false p
  else if String.eqb p "" then normalizeSegs false cwd
  else normalizeSegs false (cwd +:+ "/" +:+ p).

Definition resolve (cwd p : string) : string := "/" +:+ joinSlash (resolveSegs cwd p).

(** What is left of two segment lists after their longest common prefix. *)
Fixpoint dropCommon (from to : list string) : list string * list string :=
  match from, to with
  | f :: from', t :: to' =>
      if String.eqb f t then dropCommon from' to' else (from, to)
  | _, _ => (from, to)
  end.

(** [path.relative(from, to)]: both paths are resolved, the common leading
    segments are dropped, every remaining segment of [from] becomes [".."],
    and the remaining segments of [to] follow. *)
Definition relative (cwd from to : string) : string :=
  if String.eqb from to then ""
  else
    let '(upFrom, downTo) := dropCommon (resolveSegs cwd from) (resolveSegs cwd to) in
    joinSlash (map (fun _ => "..") upFrom ++ downTo).

End NodePath.

(** ** The filesystem interface

    What the handlers use of Node's [fs] and of [vscode.workspace.fs].  A call
    that throws is a [None] for the queries and a [Failed] with the error's
    message for the mutations; both results of a mutation carry the
    filesystem it leaves behind. *)

Record Stats := { isDirectory : bool; mtimeMs : Z }.

Inductive FsResult (FS : Type) :=
| Done (after : FS)
| Failed (after : FS) (message : string).
Arguments Done {FS} after.
Arguments Failed {FS} after message.

Class FileSystem (FS : Type) := {
  (** [fs.existsSync(p)] *)
  existsSync : FS -> string -> bool;
  (** [fs.statSync(p)] *)
  statSync : FS -> string -> option Stats;
  (** [fs.readdirSync(p)] *)
  readdirSync : FS -> string -> option (list string);
  (** [fs.renameSync(src, dst)] *)
  renameSync : FS -> string -> string -> FsResult FS;
  (** [vscode.workspace.fs.copy(src, dst, { overwrite: false })] *)
  copyNoOverwrite : FS -> string -> string -> FsResult FS
}.

(** ** Data model *)

Inductive ItemType := File | Folder.

Inductive SortOrder := ASC | DESC | MODIFIED | MANUAL.

Inductive ClipOp := Cut | Copy.

(** An element of [provider.items]:
    [{ path: string, type: 'file' | 'folder', category?: string }]. *)
Record FavoriteEntry := {
  path : string;
  type : ItemType;
  category : option string
}.

Definition setPath (e : FavoriteEntry) (p : string) : FavoriteEntry :=
  {| path := p; type := type e; category := category e |}.

Definition setCategory (e : FavoriteEntry) (c : option string) : FavoriteEntry :=
  {| path := path e; type := type e; category := c |}.

Inductive Collapsible := CollapsibleNone | Collapsed | Expanded.

(** The three classes of tree items.  A [FavoriteItem] has
    [value = itemPath]; a [Category] has neither [value] nor [itemPath]; a
    [Resource] has [value] only. *)
Inductive TreeNode :=
| FavoriteItem (label : string) (state : Collapsible) (itemPath : string)
    (itemType : ItemType) (itemCategory : option string)
| Category (name : string)
| Resource (label : string) (state : Collapsible) (value : string)
    (contextValue : string).

(** [r?.value || r?.itemPath], with a falsy result as [None]: every use in
    the handlers tests the result for truthiness first. *)
Definition nodePath (r : TreeNode) : option string :=
  match r with
  | FavoriteItem _ _ p _ _ => if JsString.truthy p then Some p else None
  | Category _ => None
  | Resource _ _ v _ => if JsString.truthy v then Some v else None
  end.

Definition resourcePath (resource : option TreeNode) : option string :=
  resource ≫= nodePath.

(** [resource?.category] *)
Definition nodeCategory (resource : option TreeNode) : option string :=
  match resource with
  | Some (FavoriteItem _ _ _ _ c) => c
  | _ => None
  end.

Inductive Message :=
| Information (text : string)
| Warning (text : string)
| ErrorMessage (text : string)
| StatusBar (text : string).

(** The fields of [YasinFavoritesProvider] that the handlers read and write. *)
Record Provider := {
  items : list FavoriteEntry;
  categoryList : list string;
  sortOrder : SortOrder
}.

(** The module-level [clipboardPaths] and [clipboardOperation]. *)
Record Clipboard := {
  clipboardPaths : list string;
  clipboardOperation : option ClipOp
}.

(** Everything a command handler can see: the disk, the provider, the
    clipboard, [treeView.selection], and the messages shown so far (latest
    last).  Change notifications ([refresh]) and [saveConfig] only read the
    store and are left out. *)
Record World (FS : Type) := {
  disk : FS;
  provider : Provider;
  clipboard : Clipboard;
  selection : list TreeNode;
  messages : list Message
}.
Arguments disk {FS} _.
Arguments provider {FS} _.
Arguments clipboard {FS} _.
Arguments selection {FS} _.
Arguments messages {FS} _.

Definition withDisk {FS} (w : World FS) (d : FS) : World FS :=
  {| disk := d; provider := provider w; clipboard := clipboard w;
     selection := selection w; messages := messages w |}.

Definition withProvider {FS} (w : World FS) (p : Provider) : World FS :=
  {| disk := disk w; provider := p; clipboard := clipboard w;
     selection := selection w; messages := messages w |}.

Definition withClipboard {FS} (w : World FS) (c : Clipboard) : World FS :=
  {| disk := disk w; provider := provider w; clipboard := c;
     selection := selection w; messages := messages w |}.

Definition notify {FS} (w : World FS) (m : Message) : World FS :=
  {| disk := disk w; provider := provider w; clipboard := clipboard w;
     selection := selection w; messages := messages w ++ [m] |}.

(** [provider.setItems(items)] *)
Definition setItems (p : Provider) (its : list FavoriteEntry) : Provider :=
  {| items := its; categoryList := categoryList p; sortOrder := sortOrder p |}.

Definition setCategories (p : Provider) (cs : list string) : Provider :=
  {| items := items p; categoryList := cs; sortOrder := sortOrder p |}.

(** ** The store: [YasinFavoritesProvider] *)

Module Store.

(** [items.find(f => f.path === p)] with the index of what it finds. *)
Definition findByPath (p : string) (its : list FavoriteEntry)
  : option (nat * FavoriteEntry) :=
  list_find (fun f => path f = p) its.

(** [addFavorite(itemPath, type)]: the provider, the notice shown for a
    duplicate, and the returned flag. *)
Definition addFavorite (itemPath : string) (ty : ItemType) (p : Provider)
  : Provider * list Message * bool :=
  if existsb (fun item => String.eqb (path item) itemPath) (items p) then
    (p, [Information ("Already in favorites: " +:+ NodePath.basename itemPath)], false)
  else
    (setItems p (items p ++ [{| path := itemPath; type := ty; category := None |}]),
     [], true).

(** [removeFavorite(itemPath)]: [splice(index, 1)] at the first match. *)
Definition removeFavorite (itemPath : string) (p : Provider) : Provider :=
  match findByPath itemPath (items p) with
  | Some (index, _) => setItems p (delete index (items p))
  | None => p
  end.

(** [addCategory(name)] *)
Definition addCategory (name : string) (p : Provider) : Provider :=
  if existsb (String.eqb name) (categoryList p) then p
  else setCategories p (categoryList p ++ [name]).

(** [moveToCategory(itemPath, categoryName)] *)
Definition moveToCategory (itemPath categoryName : string) (p : Provider) : Provider :=
  match findByPath itemPath (items p) with
  | Some (index, item) =>
      let its := <[index := setCategory item (Some categoryName)]> (items p) in
      let cs := if existsb (String.eqb categoryName) (categoryList p)
                then categoryList p else categoryList p ++ [categoryName] in
      {| items := its; categoryList := cs; sortOrder := sortOrder p |}
  | None => p
  end.

(** [moveToRoot(itemPath)] *)
Definition moveToRoot (itemPath : string) (p : Provider) : Provider :=
  match findByPath itemPath (items p) with
  | Some (index, item) => setItems p (<[index := setCategory item None]> (items p))
  | None => p
  end.

(** [categoryList.indexOf(name)] *)
Definition indexOf (name : string) (cs : list string) : option nat :=
  fst <$> list_find (fun c => c = name) cs.

(** [renameCategory(oldName, newName)] *)
Definition renameCategory (oldName newName : string) (p : Provider) : Provider :=
  let its := map (fun item =>
               if decide (category item = Some oldName)
               then setCategory item (Some newName) else item) (items p) in
  let cs := match indexOf oldName (categoryList p) with
            | Some index => <[index := newName]> (categoryList p)
            | None => categoryList p
            end in
  {| items := its; categoryList := cs; sortOrder := sortOrder p |}.

(** [deleteCategory(categoryName)] *)
Definition deleteCategory (categoryName : string) (p : Provider) : Provider :=
  let its := map (fun item =>
               if decide (category item = Some categoryName)
               then setCategory item None else item) (items p) in
  let cs := match indexOf categoryName (categoryList p) with
            | Some index => delete index (categoryList p)
            | None => categoryList p
            end in
  {| items := its; categoryList := cs; sortOrder := sortOrder p |}.

End Store.

(** ** Path persistence ([toRelativePath], [toAbsolutePath])

    [root] is [getWorkspaceRoot()]: [None] when no folder is open.  [cwd] is
    the process's working directory, which [path.relative] consults when it
    resolves its arguments. *)

Module Persist.
Import JsString NodePath.

Definition toRelativePath (root : option string) (cwd absolutePath : string) : string :=
  match root with
  | None => absolutePath
  | Some root =>
      if negb (truthy root) then absolutePath
      else if startsWith absolutePath root then
        let rel := relative cwd root absolutePath in
        if truthy rel then rel else "."
      else absolutePath
  end.

Definition toAbsolutePath (root : option string) (storedPath : string) : string :=
  match root with
  | None => storedPath
  | Some root =>
      if negb (truthy root) then storedPath
      else if isAbsolute storedPath then storedPath
      else join root storedPath
  end.

End Persist.

(** ** Command handlers ([activate] in [out/extension.js]) *)

Section Commands.
Context {FS : Type} `{FileSystem FS}.
Import JsString NodePath.

(** *** Target resolution *)

(** [copyPath], [copyRelativePath]:
    [selectedItems?.length > 0 ? selectedItems
       : (resource ? [resource] : treeView.selection)] *)
Definition copyPathItems (resource : option TreeNode)
    (selectedItems : option (list TreeNode)) (sel : list TreeNode) : list TreeNode :=
  match selectedItems with
  | Some (x :: xs) => x :: xs
  | _ => match resource with
         | Some r => [r]
         | None => sel
         end
  end.

(** [cut], [copy], [delete]: [resource ? [resource] : treeView.selection] *)
Definition clipItems (resource : option TreeNode) (sel : list TreeNode) : list TreeNode :=
  match resource with
  | Some r => [r]
  | None => sel
  end.

(** [yasinFavorites.copyPath]: the world afterwards and the text written to
    the system clipboard, if any. *)
Definition cmd_copyPath (resource : option TreeNode)
    (selectedItems : option (list TreeNode)) (w : World FS)
  : World FS * option string :=
  let its := copyPathItems resource selectedItems (selection w) in
  let paths := omap nodePath its in
  match paths with
  | [] => (w, None)
  | [p] => (notify w (StatusBar "✅ Path copied"), Some p)
  | _ =>
      (notify w (StatusBar ("✅ " +:+ numberToString (length paths) +:+ " paths copied")),
       Some (String.concat newline paths))
  end.

(** *** Cut and copy

    Both handlers are declared with the single parameter [resource]; a
    second argument passed by the host is dropped by the call. *)

Definition clipNames (paths : list string) : string :=
  String.concat ", " (map basename paths).

Definition cmd_cut (resource : option TreeNode)
    (_selectedItems : option (list TreeNode)) (w : World FS) : World FS :=
  let its := clipItems resource (selection w) in
  if (0 <? length its)%nat then
    let paths := omap nodePath its in
    notify
      (withClipboard w {| clipboardPaths := paths; clipboardOperation := Some Cut |})
      (Information ("Cut: " +:+ clipNames paths))
  else w.

Definition cmd_copy (resource : option TreeNode)
    (_selectedItems : option (list TreeNode)) (w : World FS) : World FS :=
  let its := clipItems resource (selection w) in
  if (0 <? length its)%nat then
    let paths := omap nodePath its in
    notify
      (withClipboard w {| clipboardPaths := paths; clipboardOperation := Some Copy |})
      (Information ("Copied: " +:+ clipNames paths))
  else w.

(** *** Paste *)

(** The destination directory of a paste: the resource's path, or else the
    first selected item (itself when a directory or when [statSync] throws,
    its parent when a file). *)
Definition pasteTarget (resource : option TreeNode) (w : World FS) : option string :=
  match resourcePath resource with
  | Some dir => Some dir
  | None =>
      match selection w with
      | selected :: _ =>
          match nodePath selected with
          | Some selectedPath =>
              match statSync (disk w) selectedPath with
              | Some st => if isDirectory st then Some selectedPath
                           else Some (dirname selectedPath)
              | None => Some selectedPath
              end
          | None => None
          end
      | [] => None
      end
  end.

(** What the cut branch does to the store after a successful rename:
    [favItem.path = destPath] on the first entry whose path is
    [sourcePath]. *)
Definition retarget (sourcePath destPath : string) (its : list FavoriteEntry)
  : list FavoriteEntry :=
  match Store.findByPath sourcePath its with
  | Some (index, favItem) => <[index := setPath favItem destPath]> its
  | None => its
  end.

(** The [for (const sourcePath of clipboardPaths)] loop of the handler.
    The result is the disk and the items when the loop stops, and the
    message of the exception that stopped it, if one did: neither
    [renameSync] nor the awaited [copy] is inside a [try]. *)
Fixpoint pasteLoop (op : option ClipOp) (targetDir : string) (paths : list string)
    (d : FS) (its : list FavoriteEntry) : FS * list FavoriteEntry * option string :=
  match paths with
  | [] => (d, its, None)
  | sourcePath :: rest =>
      if negb (existsSync d sourcePath) then pasteLoop op targetDir rest d its
      else
        let destPath := join targetDir (basename sourcePath) in
        match op with
        | Some Cut =>
            match renameSync d sourcePath destPath with
            | Done d' => pasteLoop op targetDir rest d' (retarget sourcePath destPath its)
            | Failed d' msg => (d', its, Some msg)
            end
        | _ =>
            match copyNoOverwrite d sourcePath destPath with
            | Done d' => pasteLoop op targetDir rest d' its
            | Failed d' msg => (d', its, Some msg)
            end
        end
  end.

(** [yasinFavorites.paste]: the world afterwards and the exception the
    handler ended with, if any. *)
Definition cmd_paste (resource : option TreeNode) (w : World FS)
  : World FS * option string :=
  match pasteTarget resource w with
  | Some targetDir =>
      if (0 <? length (clipboardPaths (clipboard w)))%nat then
        let '(d', its', thrown) :=
          pasteLoop (clipboardOperation (clipboard w)) targetDir
            (clipboardPaths (clipboard w)) (disk w) (items (provider w)) in
        let w' := withProvider (withDisk w d') (setItems (provider w) its') in
        match thrown with
        | Some msg => (w', Some msg)
        | None =>
            match clipboardOperation (clipboard w) with
            | Some Cut =>
                (withClipboard w' {| clipboardPaths := []; clipboardOperation := None |},
                 None)
            | _ => (w', None)
            end
        end
      else (w, None)
  | None => (w, None)
  end.

(** *** Rename *)

(** [yasinFavorites.rename]; [input] is what [showInputBox] resolves to. *)
Definition cmd_rename (resource : option TreeNode) (input : option string)
    (w : World FS) : World FS * option string :=
  match resourcePath resource with
  | Some itemPath =>
      let oldName := basename itemPath in
      match input with
      | Some newName =>
          if truthy newName && negb (String.eqb newName oldName) then
            let newPath := join (dirname itemPath) newName in
            match renameSync (disk w) itemPath newPath with
            | Done d' =>
                (withProvider (withDisk w d')
                   (setItems (provider w) (retarget itemPath newPath (items (provider w)))),
                 None)
            | Failed d' msg => (withDisk w d', Some msg)
            end
          else (w, None)
      | None => (w, None)
      end
  | None => (w, None)
  end.

(** *** Manual reordering *)

(** The filter of [moveUp] and [moveDown]:
    [category ? item.category === category : !item.category]. *)
Definition inPartition (cat : option string) (item : FavoriteEntry) : bool :=
  if truthyOpt cat then bool_decide (category item = cat)
  else negb (truthyOpt (category item)).

(** [[items[a], items[b]] = [items[b], items[a]]] *)
Definition swap (a b : nat) (its : list FavoriteEntry) : list FavoriteEntry :=
  match its !! a, its !! b with
  | Some ea, Some eb => <[b := ea]> (<[a := eb]> its)
  | _, _ => its
  end.

(** The body of [moveUp] on the item array.  [None]: the handler returned
    before [setItems].  The two [findIndex] calls on the full array cannot
    miss once the item was found in [sameCategory]; their [None] branches
    are there for totality. *)
Definition moveUpItems (itemPath : string) (cat : option string)
    (its : list FavoriteEntry) : option (list FavoriteEntry) :=
  let sameCategory := filter (fun item => inPartition cat item = true) its in
  match Store.findByPath itemPath sameCategory with
  | None => None
  | Some (O, _) => None
  | Some (S prevIndex, _) =>
      match Store.findByPath itemPath its, sameCategory !! prevIndex with
      | Some (currentFullIndex, _), Some prevItem =>
          match Store.findByPath (path prevItem) its with
          | Some (prevFullIndex, _) => Some (swap currentFullIndex prevFullIndex its)
          | None => None
          end
      | _, _ => None
      end
  end.

Definition moveDownItems (itemPath : string) (cat : option string)
    (its : list FavoriteEntry) : option (list FavoriteEntry) :=
  let sameCategory := filter (fun item => inPartition cat item = true) its in
  match Store.findByPath itemPath sameCategory with
  | None => None
  | Some (currentIndex, _) =>
      if (length sameCategory - 1 <=? currentIndex)%nat then None
      else
        match Store.findByPath itemPath its, sameCategory !! (currentIndex + 1)%nat with
        | Some (currentFullIndex, _), Some nextItem =>
            match Store.findByPath (path nextItem) its with
            | Some (nextFullIndex, _) => Some (swap currentFullIndex nextFullIndex its)
            | None => None
            end
        | _, _ => None
        end
  end.

Definition reorder (step : string -> option string -> list FavoriteEntry ->
                           option (list FavoriteEntry))
    (resource : option TreeNode) (w : World FS) : World FS :=
  match resourcePath resource with
  | Some itemPath =>
      match step itemPath (nodeCategory resource) (items (provider w)) with
      | Some its' => withProvider w (setItems (provider w) its')
      | None => w
      end
  | None => w
  end.

(** [yasinFavorites.moveUp] and [yasinFavorites.moveDown] *)
Definition cmd_moveUp := reorder moveUpItems.
Definition cmd_moveDown := reorder moveDownItems.

End Commands.

(** ** [Array.prototype.sort]

    The sort is stable, and with a consistent comparator its result is the
    one stable arrangement; it is modelled by a stable insertion sort.  The
    comparator returns a number: negative or zero keeps [a] before [b]. *)

Section JsSort.
Context {A : Type} (cmp : A -> A -> Z).

Fixpoint insertSorted (x : A) (l : list A) : list A :=
  match l with
  | [] => [x]
  | y :: l' => if (cmp x y <=? 0)%Z then x :: l else y :: insertSorted x l'
  end.

Fixpoint jsSort (l : list A) : list A :=
  match l with
  | [] => []
  | x :: l' => insertSorted x (jsSort l')
  end.

End JsSort.

(** ** The sort policy, the folder listing and drag-and-drop
    ([YasinFavoritesProvider])

    [localeCompare] is [String.prototype.localeCompare] in the host's locale
    and [toLowerCase] is [String.prototype.toLowerCase]: both belong to the
    host and are parameters of the model. *)

Section ProviderView.
Context {FS : Type} `{FileSystem FS}.
Variable localeCompare : string -> string -> Z.
Variable toLowerCase : string -> string.
Import JsString NodePath.

(** [_getMtime(filePath)] *)
Definition _getMtime (d : FS) (filePath : string) : Z :=
  if existsSync d filePath then
    match statSync d filePath with
    | Some st => mtimeMs st
    | None => 0%Z
    end
  else 0%Z.

(** The name the comparators of [_sortItems] compare:
    [path.basename(a.path || a).toLowerCase()].  Entries carry a non-empty
    [path], so [a.path || a] is [a.path]. *)
Definition sortName (e : FavoriteEntry) : string := toLowerCase (basename (path e)).

Definition ascending (a b : FavoriteEntry) : Z := localeCompare (sortName a) (sortName b).
Definition descending (a b : FavoriteEntry) : Z := localeCompare (sortName b) (sortName a).
Definition newestFirst (d : FS) (a b : FavoriteEntry) : Z :=
  (_getMtime d (path b) - _getMtime d (path a))%Z.

(** [_sortItems(items)] under [this.sortOrder = order]. *)
Definition _sortItems (d : FS) (order : SortOrder) (its : list FavoriteEntry)
  : list FavoriteEntry :=
  match order, its with
  | MANUAL, _ => its
  | _, [] => its
  | MODIFIED, _ => jsSort (newestFirst d) its
  | ASC, _ => jsSort ascending its
  | DESC, _ => jsSort descending its
  end.

(** The entry of [itemStats] for a name of the listing. *)
Definition itemStat (d : FS) (dirPath item : string) : bool * Z * string :=
  let fullPath := join dirPath item in
  match statSync d fullPath with
  | Some st => (isDirectory st, mtimeMs st, fullPath)
  | None => (false, 0%Z, fullPath)
  end.

(** The comparator of [_getFilesystemChildren]. *)
Definition childOrder (d : FS) (order : SortOrder) (dirPath : string) (a b : string) : Z :=
  let '(dirA, mtimeA, _) := itemStat d dirPath a in
  let '(dirB, mtimeB, _) := itemStat d dirPath b in
  if dirA && negb dirB then (-1)%Z
  else if negb dirA && dirB then 1%Z
  else match order with
       | MODIFIED => (mtimeB - mtimeA)%Z
       | DESC => localeCompare (toLowerCase b) (toLowerCase a)
       | _ => localeCompare (toLowerCase a) (toLowerCase b)
       end.

Definition toResource (d : FS) (dirPath item : string) : TreeNode :=
  let '(isDir, _, fullPath) := itemStat d dirPath item in
  Resource item (if isDir then Collapsed else CollapsibleNone) fullPath
    (if isDir then "resource.dir" else "resource").

(** [_getFilesystemChildren(dirPath)] under [this.sortOrder = order]; a
    listing that throws is caught and gives the empty array. *)
Definition _getFilesystemChildren (d : FS) (order : SortOrder) (dirPath : string)
  : list TreeNode :=
  match readdirSync d dirPath with
  | Some names =>
      let filtered := filter (fun item => negb (startsWith item ".") = true) names in
      map (toResource d dirPath) (jsSort (childOrder d order dirPath) filtered)
  | None => []
  end.

(** An element of the drag payload: [{ path, isFavorite: false, type }]. *)
Record DragItem := { dragPath : string; dragType : ItemType }.

(** [handleDrag(source, dataTransfer)]: the payload set, if any. *)
Definition handleDrag (source : list TreeNode) : option (list DragItem) :=
  let data := omap (fun item =>
                match item with
                | Resource _ _ v ctx =>
                    Some {| dragPath := v;
                            dragType := if String.eqb ctx "resource.dir"
                                        then Folder else File |}
                | _ => None
                end) source in
  match data with
  | [] => None
  | _ => Some data
  end.

(** The [for (const item of sourceItems)] loop of [handleDrop]: the disk
    and the messages shown when it ends. *)
Fixpoint dropLoop (targetFolder : string) (sourceItems : list DragItem)
    (d : FS) (shown : list Message) : FS * list Message :=
  match sourceItems with
  | [] => (d, shown)
  | item :: rest =>
      let sourcePath := dragPath item in
      let destPath := join targetFolder (basename sourcePath) in
      if String.eqb sourcePath destPath then dropLoop targetFolder rest d shown
      else if startsWith destPath (sourcePath +:+ sep) then
        dropLoop targetFolder rest d
          (shown ++ [Warning "Cannot move folder into itself"])
      else
        match renameSync d sourcePath destPath with
        | Done d' => dropLoop targetFolder rest d' shown
        | Failed d' msg =>
            dropLoop targetFolder rest d'
              (shown ++ [ErrorMessage ("Failed to move " +:+ basename sourcePath
                                       +:+ ": " +:+ msg)])
        end
  end.

(** The folder a drop on [targetPath] moves into; [None] when [statSync]
    throws. *)
Definition dropFolder (d : FS) (targetPath : string) : option string :=
  match statSync d targetPath with
  | Some st => Some (if isDirectory st then targetPath else dirname targetPath)
  | None => None
  end.

(** [handleDrop(target, dataTransfer)]; [dragged] is the value of the
    transfer item, when there is one. *)
Definition handleDrop (target : option TreeNode) (dragged : option (list DragItem))
    (w : World FS) : World FS :=
  match dragged with
  | None | Some [] => w
  | Some sourceItems =>
      match resourcePath target with
      | None => notify w (Warning "Cannot drop here - select a folder as drop target")
      | Some targetPath =>
          match dropFolder (disk w) targetPath with
          | None => notify w (ErrorMessage "Invalid drop target")
          | Some targetFolder =>
              let '(d', shown) := dropLoop targetFolder sourceItems (disk w) (messages w) in
              {| disk := d'; provider := provider w; clipboard := clipboard w;
                 selection := selection w; messages := shown |}
          end
      end
  end.

End ProviderView.

(** ** An in-memory filesystem

    The nodes of the tree, each with its absolute path.  Enough of POSIX to
    run the handlers: a rename moves a node with everything below it and
    replaces what was at the destination; a copy refuses an existing
    destination. *)

Module SimFS.
Import JsString NodePath.

Abbreviation t := (list (string * Stats)).

Definition lookup (d : t) (p : string) : option Stats :=
  match list_find (fun n : string * Stats => fst n = p) d with
  | Some (_, n) => Some (snd n)
  | None => None
  end.

(** [p] is [top] or lies below it. *)
Definition under (top p : string) : bool :=
  String.eqb p top || startsWith p (top +:+ "/").

(** [p], which is under [src], moved along with [src] to [dst]. *)
Definition rebase (src dst p : string) : string :=
  dst +:+ String.substring (String.length src) (String.length p - String.length src) p.

Definition exists_ (d : t) (p : string) : bool :=
  match lookup d p with
  | Some _ => true
  | None => false
  end.

Definition readdir (d : t) (p : string) : option (list string) :=
  match lookup d p with
  | Some st =>
      if isDirectory st then
        Some (map (fun n => basename (fst n))
                (filter (fun n : string * Stats =>
                           String.eqb (dirname (fst n)) p
                           && negb (String.eqb (fst n) p) = true) d))
      else None
  | None => None
  end.

Definition rename (d : t) (src dst : string) : FsResult t :=
  match lookup d src with
  | None => Failed d "ENOENT: no such file or directory"
  | Some _ =>
      if String.eqb src dst then Done d
      else if under src dst then Failed d "EINVAL: invalid argument"
      else if negb (exists_ d (dirname dst)) then
        Failed d "ENOENT: no such file or directory"
      else
        Done (map (fun n : string * Stats =>
                     if under src (fst n) then (rebase src dst (fst n), snd n) else n)
                (filter (fun n : string * Stats => negb (under dst (fst n)) = true) d))
  end.

Definition copy (d : t) (src dst : string) : FsResult t :=
  match lookup d src with
  | None => Failed d "EntryNotFound (FileSystemError)"
  | Some _ =>
      if exists_ d dst then Failed d "EntryExists (FileSystemError)"
      else
        Done (d ++ map (fun n : string * Stats => (rebase src dst (fst n), snd n))
                     (filter (fun n : string * Stats => under src (fst n) = true) d))
  end.

#[global] Instance fileSystem : FileSystem t := {
  existsSync := exists_;
  statSync := lookup;
  readdirSync := readdir;
  renameSync := rename;
  copyNoOverwrite := copy
}.

Definition dir (p : string) : string * Stats :=
  (p, {| isDirectory := true; mtimeMs := 0 |}).
Definition file (p : string) (mtime : Z) : string * Stats :=
  (p, {| isDirectory := false; mtimeMs := mtime |}).

(** A world with the given disk, items, clipboard and selection. *)
Definition world (d : t) (its : list FavoriteEntry) (c : Clipboard)
    (sel : list TreeNode) : World t :=
  {| disk := d;
     provider := {| items := its; categoryList := []; sortOrder := MANUAL |};
     clipboard := c; selection := sel; messages := [] |}.

End SimFS.

(** ** The provider: construction, categories, the tree *)

(** [new YasinFavoritesProvider()] *)
Definition newProvider : Provider :=
  {| items := []; categoryList := []; sortOrder := MANUAL |}.

(** [setSortOrder(order)] *)
Definition setSortOrder (order : SortOrder) (p : Provider) : Provider :=
  {| items := items p; categoryList := categoryList p; sortOrder := order |}.

(** [setCategoryList(categories)]: [categories || []]. *)
Definition setCategoryList (categories : option (list string)) (p : Provider) : Provider :=
  setCategories p (default [] categories).

(** A JavaScript [Set] of strings, as the array [Array.from] makes of it: the
    elements in the order they were first added. *)
Definition setAdd (seen : list string) (x : string) : list string :=
  if existsb (String.eqb x) seen then seen else seen ++ [x].

(** [new Set(xs)], or a run of [add] calls on a set. *)
Definition setAddAll (seen xs : list string) : list string := fold_left setAdd xs seen.

(** The truthy [item.category] values, in the order of the items. *)
Definition itemCategories (its : list FavoriteEntry) : list string :=
  omap (fun item => if JsString.truthyOpt (category item) then category item else None) its.

(** [getCategories()] *)
Definition getCategories (p : Provider) : list string :=
  setAddAll [] (itemCategories (items p)).

(** [getAllCategories()] *)
Definition getAllCategories (p : Provider) : list string :=
  setAddAll (setAddAll [] (categoryList p)) (itemCategories (items p)).

(** A tree item as [getChildren] hands it to the view: the item, and the
    presentation fields set by its constructor or by [getChildren]
    ([contextValue], [description], the name of the [ThemeIcon]).  The
    tooltip, the resource URI and the open command are functions of the
    item's path and kind and are left out. *)
Record Rendered := {
  shown : TreeNode;
  shownContext : string;
  shownDescription : option string;
  shownIcon : option string
}.

(** The [contextValue] the constructor of [FavoriteItem] sets. *)
Definition favoriteContext (ty : ItemType) (cat : option string) : string :=
  match ty with
  | Folder => if JsString.truthyOpt cat then "favorite.folder.categorized"
              else "favorite.folder"
  | File => if JsString.truthyOpt cat then "favorite.categorized" else "favorite"
  end.

Section Tree.
Context {FS : Type} `{FileSystem FS}.
Variable localeCompare : string -> string -> Z.
Variable toLowerCase : string -> string.
Import JsString NodePath.

(** The [FavoriteItem] built for a stored item, marked when its path is
    missing on disk; [cat] is the category the constructor is given. *)
Definition renderFavorite (d : FS) (cat : option string) (item : FavoriteEntry) : Rendered :=
  let node := FavoriteItem (basename (path item))
                (match type item with Folder => Collapsed | File => CollapsibleNone end)
                (path item) (type item) cat in
  if existsSync d (path item) then
    {| shown := node; shownContext := favoriteContext (type item) cat;
       shownDescription := None; shownIcon := None |}
  else
    {| shown := node; shownContext := "favorite.missing";
       shownDescription := Some "(missing)"; shownIcon := Some "warning" |}.

(** [new Category(name)] *)
Definition renderCategory (name : string) : Rendered :=
  {| shown := Category name; shownContext := "category";
     shownDescription := None; shownIcon := Some "folder" |}.

(** A [Resource] of the folder listing. *)
Definition renderResource (r : TreeNode) : Rendered :=
  {| shown := r;
     shownContext := match r with
                     | Resource _ _ _ ctx => ctx
                     | _ => ""
                     end;
     shownDescription := None; shownIcon := None |}.

(** [getChildren(element)] *)
Definition getChildren (d : FS) (p : Provider) (element : option TreeNode) : list Rendered :=
  match element with
  | None =>
      map (renderFavorite d None)
        (filter (fun item => negb (truthyOpt (category item)) = true) (items p))
      ++ map renderCategory (getAllCategories p)
  | Some (Category name) =>
      map (fun item => renderFavorite d (category item) item)
        (filter (fun item => category item = Some name) (items p))
  | Some (FavoriteItem _ _ itemPath Folder _) =>
      map renderResource (_getFilesystemChildren localeCompare toLowerCase d (sortOrder p) itemPath)
  | Some (Resource _ _ value ctx) =>
      if String.eqb ctx "resource.dir"
      then map renderResource
             (_getFilesystemChildren localeCompare toLowerCase d (sortOrder p) value)
      else []
  | Some (FavoriteItem _ _ _ File _) => []
  end.

End Tree.

(** ** Persistence of the store ([saveConfig], [activate]) *)

(** The workspace configuration of the extension:
    [items], [categories], [sortOrder]; a key that was never written is
    absent. *)
Record Config := {
  cfgItems : option (list FavoriteEntry);
  cfgCategories : option (list string);
  cfgSortOrder : option SortOrder
}.

(** What [saveConfig(provider)] writes under [items]. *)
Definition savedItems (root : option string) (cwd : string) (p : Provider)
  : list FavoriteEntry :=
  map (fun item => setPath item (Persist.toRelativePath root cwd (path item))) (items p).

(** [saveConfig(provider)] *)
Definition saveConfig (root : option string) (cwd : string) (p : Provider) (c : Config)
  : Config :=
  {| cfgItems := Some (savedItems root cwd p); cfgCategories := cfgCategories c;
     cfgSortOrder := cfgSortOrder c |}.

(** [saveCategories(provider)] *)
Definition saveCategories (p : Provider) (c : Config) : Config :=
  {| cfgItems := cfgItems c; cfgCategories := Some (categoryList p);
     cfgSortOrder := cfgSortOrder c |}.

(** The end of [activate]: a new provider restored from the configuration. *)
Definition restore (root : option string) (c : Config) : Provider :=
  let p := setCategoryList (Some (default [] (cfgCategories c)))
             (setSortOrder (default MANUAL (cfgSortOrder c)) newProvider) in
  match default [] (cfgItems c) with
  | [] => p
  | saved =>
      setItems p
        (map (fun item => setPath item (Persist.toAbsolutePath root (path item))) saved)
  end.

(** The label of a sort order in the quick pick of [yasinFavorites.sort]. *)
Definition sortLabel (order : SortOrder) : string :=
  match order with
  | ASC => "A → Z (Ascending)"
  | DESC => "Z → A (Descending)"
  | MODIFIED => "Latest Modified"
  | MANUAL => "Manual (Drag Order)"
  end.

(** [yasinFavorites.sort]; [selected] is the option picked, if any. *)
Definition cmd_sort {FS} (selected : option SortOrder) (c : Config) (w : World FS)
  : Config * World FS :=
  match selected with
  | Some order =>
      ({| cfgItems := cfgItems c; cfgCategories := cfgCategories c;
          cfgSortOrder := Some order |},
       notify (withProvider w (setSortOrder order (provider w)))
         (Information ("Sort: " +:+ sortLabel order)))
  | None => (c, w)
  end.

(** ** More command handlers *)

(** [s.replace(pattern, "")] with a string pattern: the first occurrence of
    the pattern is removed. *)
Fixpoint removeFirst (pattern s : string) : string :=
  if String.prefix pattern s
  then String.substring (String.length pattern) (String.length s - String.length pattern) s
  else match s with
       | EmptyString => EmptyString
       | String c s' => String c (removeFirst pattern s')
       end.

(** The double quote character of a message. *)
Definition doubleQuote : string := String "034" EmptyString.

(** What [addToFavorites] is invoked with: an Explorer URI, or an item of the
    panel. *)
Inductive AddSource :=
| ExplorerUri (fsPath : string)
| PanelItem (r : TreeNode).

Section MoreCommands.
Context {FS : Type} `{FileSystem FS}.
Import JsString NodePath.

(** [vscode.workspace.fs.delete(uri, { useTrash: true, recursive: true })] *)
Variable moveToTrash : FS -> string -> FsResult FS.

(** [uriOrResource?.fsPath], else [uriOrResource?.value], when truthy. *)
Definition addSourcePath (source : option AddSource) : option string :=
  match source with
  | Some (ExplorerUri fsPath) => if truthy fsPath then Some fsPath else None
  | Some (PanelItem (FavoriteItem _ _ p _ _)) => if truthy p then Some p else None
  | Some (PanelItem (Resource _ _ v _)) => if truthy v then Some v else None
  | Some (PanelItem (Category _)) => None
  | None => None
  end.

(** [yasinFavorites.addToFavorites] *)
Definition cmd_addToFavorites (source : option AddSource) (w : World FS) : World FS :=
  match addSourcePath source with
  | Some itemPath =>
      let ty := match statSync (disk w) itemPath with
                | Some st => if isDirectory st then Folder else File
                | None => File
                end in
      let '(p', shownNow, _) := Store.addFavorite itemPath ty (provider w) in
      {| disk := disk w; provider := p'; clipboard := clipboard w;
         selection := selection w; messages := messages w ++ shownNow |}
  | None => w
  end.

(** [yasinFavorites.remove] *)
Definition cmd_remove (resource : option TreeNode) (w : World FS) : World FS :=
  match resourcePath resource with
  | Some itemPath => withProvider w (Store.removeFavorite itemPath (provider w))
  | None => w
  end.

(** [category?.name], when truthy. *)
Definition categoryName (category : option TreeNode) : option string :=
  match category with
  | Some (Category name) => if truthy name then Some name else None
  | _ => None
  end.

(** [yasinFavorites.newCategory]; [input] is what [showInputBox] resolves
    to. *)
Definition cmd_newCategory (input : option string) (w : World FS) : World FS :=
  match input with
  | Some name =>
      if truthy name then
        notify (withProvider w (Store.addCategory name (provider w)))
          (Information ("Favorites folder " +:+ doubleQuote +:+ name +:+ doubleQuote
                        +:+ " created"))
      else w
  | None => w
  end.

(** [yasinFavorites.renameCategory] *)
Definition cmd_renameCategory (category : option TreeNode) (input : option string)
    (w : World FS) : World FS :=
  match categoryName category, input with
  | Some name, Some newName =>
      if truthy newName && negb (String.eqb newName name)
      then withProvider w (Store.renameCategory name newName (provider w))
      else w
  | _, _ => w
  end.

(** [yasinFavorites.deleteCategory]; [confirmed] tells whether the modal
    warning was answered with Delete. *)
Definition cmd_deleteCategory (category : option TreeNode) (confirmed : bool)
    (w : World FS) : World FS :=
  match categoryName category with
  | Some name =>
      if confirmed then withProvider w (Store.deleteCategory name (provider w)) else w
  | None => w
  end.

(** [yasinFavorites.moveToCategory]; [selected] is the label picked in the
    quick pick, [typed] the name given for a new folder. *)
Definition cmd_moveToCategory (resource : option TreeNode) (selected typed : option string)
    (w : World FS) : World FS :=
  match resourcePath resource with
  | Some itemPath =>
      match selected with
      | Some label =>
          if String.eqb label "+ Create New Folder" then
            match typed with
            | Some newName =>
                if truthy newName then
                  withProvider w
                    (Store.moveToCategory itemPath newName
                       (Store.addCategory newName (provider w)))
                else w
            | None => w
            end
          else if truthy label
          then withProvider w (Store.moveToCategory itemPath label (provider w))
          else w
      | None => w
      end
  | None => w
  end.

(** [yasinFavorites.moveToRoot] *)
Definition cmd_moveToRoot (resource : option TreeNode) (w : World FS) : World FS :=
  match resourcePath resource with
  | Some itemPath => withProvider w (Store.moveToRoot itemPath (provider w))
  | None => w
  end.

(** The text [copyRelativePath] makes of a path. *)
Definition relativeText (root : option string) (itemPath : string) : string :=
  match root with
  | Some root =>
      if truthy root && startsWith itemPath root
      then removeFirst (root +:+ "/") itemPath
      else itemPath
  | None => itemPath
  end.

(** [yasinFavorites.copyRelativePath]: the world afterwards and the text
    written to the system clipboard, if any. *)
Definition cmd_copyRelativePath (root : option string) (resource : option TreeNode)
    (selectedItems : option (list TreeNode)) (w : World FS)
  : World FS * option string :=
  let its := copyPathItems resource selectedItems (selection w) in
  let paths := map (relativeText root) (omap nodePath its) in
  match paths with
  | [] => (w, None)
  | [p] => (notify w (StatusBar "✅ Relative path copied"), Some p)
  | _ =>
      (notify w (StatusBar ("✅ " +:+ numberToString (length paths)
                            +:+ " relative paths copied")),
       Some (String.concat newline paths))
  end.

(** The [for (const item of validItems)] loop of the delete handler: the
    disk and the provider when the loop stops, and the message of the
    exception that stopped it, if one did (the awaited [delete] is not inside
    a [try]). *)
Fixpoint deleteLoop (paths : list string) (d : FS) (p : Provider)
  : FS * Provider * option string :=
  match paths with
  | [] => (d, p, None)
  | itemPath :: rest =>
      match moveToTrash d itemPath with
      | Done d' => deleteLoop rest d' (Store.removeFavorite itemPath p)
      | Failed d' msg => (d', p, Some msg)
      end
  end.

(** [yasinFavorites.delete]; [confirmed] tells whether the modal warning was
    answered with Move to Trash. *)
Definition cmd_delete (resource : option TreeNode) (confirmed : bool) (w : World FS)
  : World FS * option string :=
  let paths := omap nodePath (clipItems resource (selection w)) in
  if (0 <? length paths)%nat && confirmed then
    let '(d', p', thrown) := deleteLoop paths (disk w) (provider w) in
    (withProvider (withDisk w d') p', thrown)
  else (w, None).

End MoreCommands.

(** * The vocabulary of the properties *)

(** The label a tree item is shown with. *)
Definition nodeLabel (r : TreeNode) : string :=
  match r with
  | FavoriteItem label _ _ _ _ => label
  | Category name => name
  | Resource label _ _ _ => label
  end.

(** The clipboard before any cut or copy, and after a completed Cut paste. *)
Definition emptyClipboard : Clipboard :=
  {| clipboardPaths := []; clipboardOperation := None |}.

(** The resolution order in the words of the design document: the explicit
    multi-select sequence, else the one-element sequence of the primary
    target, else the host's current selection; the first that is not empty. *)
Definition resolveTargets_spec (primaryTarget : option TreeNode)
    (explicitMultiSelect : option (list TreeNode))
    (currentHostSelection : list TreeNode) : list TreeNode :=
  match explicitMultiSelect with
  | Some (x :: xs) => x :: xs
  | _ =>
      match primaryTarget with
      | Some p => [p]
      | None => currentHostSelection
      end
  end.

(** No two entries share [path]. *)
Definition uniquePaths (its : list FavoriteEntry) : Prop := NoDup (path <$> its).

(** No entry of [l] belongs to the partition of [cat]. *)
Definition outside (cat : option string) (l : list FavoriteEntry) : Prop :=
  Forall (fun x => inPartition cat x = false) l.

(** What the sort policy may rely on of [localeCompare]: it is a consistent
    comparator, a total preorder on strings (its sign flips with its
    arguments, it is transitive).  It may be zero on two different strings:
    the language requires it to be zero on canonically equivalent ones. *)
Record Consistent (localeCompare : string -> string -> Z) : Prop := {
  consistent_flip : forall a b, (localeCompare a b <= 0 <-> 0 <= localeCompare b a)%Z;
  consistent_trans : forall a b c,
    (localeCompare a b <= 0 -> localeCompare b c <= 0 -> localeCompare a c <= 0)%Z
}.

(** The comparator tells any two positions of the list apart: it is zero
    on no pair of elements at different positions. *)
Definition noTies {A : Type} (cmp : A -> A -> Z) (l : list A) : Prop :=
  forall i j a b, l !! i = Some a -> l !! j = Some b -> cmp a b = 0%Z -> i = j.

(** [a] may stand before [b] in the result of a sort under [cmp]. *)
Definition before {A : Type} (cmp : A -> A -> Z) (a b : A) : Prop := (cmp a b <= 0)%Z.

(** The two comparators of the sort policy, on the names [key] gives. *)
Definition byKey {A : Type} (key : A -> string) (localeCompare : string -> string -> Z)
    (a b : A) : Z :=
  localeCompare (key a) (key b).

Definition byKeyReversed {A : Type} (key : A -> string)
    (localeCompare : string -> string -> Z) (a b : A) : Z :=
  localeCompare (key b) (key a).

(** Whether the folder listing takes [item] of [dirPath] for a directory. *)
Definition listedAsDirectory {FS : Type} `{FileSystem FS} (d : FS)
    (dirPath item : string) : bool :=
  fst (fst (itemStat d dirPath item)).

(** A path lies inside the root when it is the root or continues it past a
    separator. *)
Definition insideRoot (root p : string) : bool :=
  String.eqb p root || JsString.startsWith p (root +:+ NodePath.sep).

(** A path segment as [path.normalize] leaves it: not empty, not a dot
    segment, no separator inside. *)
Fixpoint slashFree (s : string) : bool :=
  match s with
  | EmptyString => true
  | String c s' => negb (Ascii.eqb c "/") && slashFree s'
  end.

Definition plain (s : string) : bool :=
  negb (String.eqb s "") && negb (String.eqb s ".") && negb (String.eqb s "..")
  && slashFree s.

(** The absolute path with the given segments. *)
Definition absPath (segs : list string) : string := "/" +:+ JsString.joinSlash segs.

(** The stack [normalizeString] is left with after the segments of [s]. *)
Definition stackOf (s : string) : list string :=
  fold_left (NodePath.pushSegment false) (JsString.splitSlash s) [].

(** The last character, read from the front. *)
Fixpoint lastIsSlash (s : string) : bool :=
  match s with
  | EmptyString => false
  | String c EmptyString => Ascii.eqb c "/"
  | String _ s' => lastIsSlash s'
  end.

(** A lower-casing to run the sort policy with: the letters [A] to [Z] are
    lowered and every other character is kept, which is what [toLowerCase]
    does to a string that holds no cased letter outside ASCII. *)
Definition lowerChar (c : ascii) : ascii :=
  let n := nat_of_ascii c in
  if (65 <=? n)%nat && (n <=? 90)%nat then ascii_of_nat (n + 32) else c.

Fixpoint asciiLowerCase (s : string) : string :=
  match s with
  | EmptyString => EmptyString
  | String c s' => String (lowerChar c) (asciiLowerCase s')
  end.

(** A comparator to run the sort policy with: code-point order. *)
Definition codePointCompare (a b : string) : Z :=
  match OrdersEx.String_as_OT.compare a b with
  | Lt => (-1)%Z
  | Eq => 0%Z
  | Gt => 1%Z
  end.

(** The canonical decomposition of the Latin letters with a grave or an
    acute accent, on UTF-8: the second byte of the letter (the first is
    [195]) gives the base letter and the second byte of the combining mark
    (whose first byte is [204]). *)
Definition decomposedLatin (c : ascii) : option (ascii * ascii) :=
  let n := nat_of_ascii c in
  let base := if (n <? 168)%nat then "a"%char
              else if (n <? 172)%nat then "e"%char
              else if (n <? 178)%nat then "i"%char
              else if (n <? 185)%nat then "o"%char
              else "u"%char in
  if existsb (Nat.eqb n) [160; 168; 172; 178; 185]%nat then Some (base, "128"%char)
  else if existsb (Nat.eqb n) [161; 169; 173; 179; 186]%nat then Some (base, "129"%char)
  else None.

Fixpoint canonicalForm (s : string) : string :=
  match s with
  | String c1 (String c2 rest as tail) =>
      if Ascii.eqb c1 "195" then
        match decomposedLatin c2 with
        | Some (base, mark) => String base (String "204" (String mark (canonicalForm rest)))
        | None => String c1 (canonicalForm tail)
        end
      else String c1 (canonicalForm tail)
  | _ => s
  end.

(** A comparator that, as the language requires of [localeCompare], is zero
    on canonically equivalent strings, for the letters above: code-point
    order on the canonical forms. *)
Definition canonicalCompare (a b : string) : Z :=
  codePointCompare (canonicalForm a) (canonicalForm b).

(** Every category an entry carries is a name of the category list. *)
Definition categoriesListed (p : Provider) : Prop :=
  forall item c, item ∈ items p -> category item = Some c -> c ∈ categoryList p.

(** What [_sortItems] is to establish under each sort order: whether [a]
    may stand before [b]. *)
Definition rankedBefore {FS : Type} `{FileSystem FS} (localeCompare : string -> string -> Z)
    (toLowerCase : string -> string)
    (d : FS) (order : SortOrder) (a b : FavoriteEntry) : Prop :=
  match order with
  | MANUAL => True
  | ASC => (localeCompare (sortName toLowerCase a) (sortName toLowerCase b) <= 0)%Z
  | DESC => (localeCompare (sortName toLowerCase b) (sortName toLowerCase a) <= 0)%Z
  | MODIFIED => (_getMtime d (path b) <= _getMtime d (path a))%Z
  end.

(** Whether the comparator of a sort order has nothing to tell [a] and [b]
    apart by: the same lower-cased base name, or the same modification
    time. *)
Definition sameRank {FS : Type} `{FileSystem FS} (toLowerCase : string -> string)
    (d : FS) (order : SortOrder)
    (a b : FavoriteEntry) : bool :=
  match order with
  | MANUAL => true
  | ASC | DESC => String.eqb (sortName toLowerCase a) (sortName toLowerCase b)
  | MODIFIED => (_getMtime d (path a) =? _getMtime d (path b))%Z
  end.

(** Whether a node of the folder listing stands for a directory. *)
Definition isDirectoryNode (r : TreeNode) : bool :=
  match r with
  | Resource _ Collapsed _ "resource.dir" => true
  | _ => false
  end.

Definition isFileNode (r : TreeNode) : bool :=
  match r with
  | Resource _ CollapsibleNone _ "resource" => true
  | _ => false
  end.

(** The path of a favorite among the items handed to the view. *)
Definition shownPath (r : Rendered) : option string :=
  match shown r with
  | FavoriteItem _ _ itemPath _ _ => Some itemPath
  | _ => None
  end.

(** The two levels of the tree that show the store: the root, and below it
    the children of each category node of the root. *)
Definition topLevels {FS : Type} `{FileSystem FS} (localeCompare : string -> string -> Z)
    (toLowerCase : string -> string)
    (d : FS) (p : Provider) : list Rendered :=
  let root := getChildren localeCompare toLowerCase d p None in
  root ++ flat_map (fun r => match shown r with
                             | Category name =>
                                 getChildren localeCompare toLowerCase d p (Some (Category name))
                             | _ => []
                             end) root.

(** A segment as [path.relative] writes it: not empty, no separator inside;
    a [..] segment is one. *)
Definition solid (s : string) : bool := negb (String.eqb s "") && slashFree s.

(** An absolute path in normal form. *)
Definition normalPath (s : string) : Prop :=
  exists segs, Forall (fun seg => plain seg = true) segs /\ s = absPath segs.

(** [trashed moveToTrash d paths d']: the delete calls for [paths], made in
    order from the disk [d], each on the disk the one before left, all
    returned, and left the disk [d']. *)
Inductive trashed {FS : Type} (moveToTrash : FS -> string -> FsResult FS)
  : FS -> list string -> FS -> Prop :=
| trashed_none (d : FS) : trashed moveToTrash d [] d
| trashed_next (d d' d'' : FS) (itemPath : string) (rest : list string) :
    moveToTrash d itemPath = Done d' ->
    trashed moveToTrash d' rest d'' ->
    trashed moveToTrash d (itemPath :: rest) d''.

(** Whether a tree item is a [Resource], an item of a folder listing. *)
Definition isResource (r : TreeNode) : bool :=
  match r with
  | Resource _ _ _ _ => true
  | _ => false
  end.

(** The shape the store has in a session that started from an empty or a
    well-formed configuration: no path is tracked twice, every category an
    entry carries is listed, and no category has the empty name. *)
Definition wellFormed (p : Provider) : Prop :=
  uniquePaths (items p) /\ categoriesListed p /\ "" ∉ categoryList p.

(** * Sample worlds *)

Module ListingExample.
Import SimFS.

Definition disk0 : SimFS.t :=
  [dir "/"; dir "/w"; dir "/w/.git"; file "/w/.env" 7; file "/w/b.txt" 3;
   dir "/w/src"; file "/w/a.txt" 9].

(** A folder of files only. *)
Definition disk1 : SimFS.t :=
  [dir "/"; dir "/w"; dir "/w/src"; file "/w/src/main.js" 4; file "/w/src/.eslintrc" 1;
   file "/w/src/Util.js" 2; file "/w/src/index.js" 3].

End ListingExample.

Module DropExample.
Import SimFS.

Definition disk0 : SimFS.t :=
  [dir "/"; dir "/w"; dir "/w/sub"; file "/w/sub/f.txt" 1; dir "/w/sub/inner";
   file "/w/other.txt" 2].

Definition f_txt := {| dragPath := "/w/sub/f.txt"; dragType := File |}.
Definition sub := {| dragPath := "/w/sub"; dragType := Folder |}.
Definition other := {| dragPath := "/w/other.txt"; dragType := File |}.

Definition subNode := Resource "sub" Collapsed "/w/sub" "resource.dir".
Definition innerNode := Resource "inner" Collapsed "/w/sub/inner" "resource.dir".

End DropExample.

Module ClipboardExample.
Import SimFS.

Definition disk0 : SimFS.t :=
  [dir "/"; dir "/w"; file "/w/x.txt" 1; file "/w/y.txt" 2; file "/w/z.txt" 3;
   dir "/w/dest"].

Definition X := FavoriteItem "x.txt" CollapsibleNone "/w/x.txt" File None.
Definition Y := FavoriteItem "y.txt" CollapsibleNone "/w/y.txt" File None.
Definition Z := Resource "z.txt" CollapsibleNone "/w/z.txt" "resource".
Definition dest := Resource "dest" Collapsed "/w/dest" "resource.dir".

Definition favorites : list FavoriteEntry :=
  [{| path := "/w/x.txt"; type := File; category := None |};
   {| path := "/w/y.txt"; type := File; category := None |}].

(** Nothing on the clipboard, [X] and [Y] selected. *)
Definition w0 : World SimFS.t := world disk0 favorites emptyClipboard [X; Y].

(** After the cut: [cut] invoked from the keyboard, on the selection. *)
Definition afterCut : World SimFS.t := cmd_cut None None w0.

(** After the cut and then a copy of [Z] from its context menu. *)
Definition afterCopy : World SimFS.t := cmd_copy (Some Z) None afterCut.

End ClipboardExample.

Module ResolutionExample.
Import SimFS.

Definition P := FavoriteItem "p.txt" CollapsibleNone "/w/p.txt" File None.
Definition A := FavoriteItem "a.txt" CollapsibleNone "/w/a.txt" File None.
Definition B := FavoriteItem "b.txt" CollapsibleNone "/w/b.txt" File None.

(** A context-menu invocation on [P] while [A] and [B] are multi-selected:
    the host passes [P] and the sequence [[A; B]]. *)
Definition w0 : World SimFS.t := world [] [] emptyClipboard [A; B].

End ResolutionExample.

Module PasteExample.
Import SimFS.

Definition disk0 : SimFS.t :=
  [dir "/"; dir "/root"; dir "/root/dir1"; file "/root/dir1/a.txt" 5;
   dir "/root/dir2"; file "/root/x.txt" 1; file "/root/y.txt" 1].

Definition favorites : list FavoriteEntry :=
  [{| path := "/root/x.txt"; type := File; category := None |};
   {| path := "/root/dir1"; type := Folder; category := Some "work" |};
   {| path := "/root/y.txt"; type := File; category := Some "work" |}].

Definition dir2 := FavoriteItem "dir2" Collapsed "/root/dir2" Folder None.

(** [/root/gone.txt] and [/root/dir1] were cut; the first has vanished
    since. *)
Definition w0 : World SimFS.t :=
  world disk0 favorites
    {| clipboardPaths := ["/root/gone.txt"; "/root/dir1"]; clipboardOperation := Some Cut |}
    [].

End PasteExample.

Module AbortExample.
Import SimFS.

(** The folder [/w/dest] and the file [/w/x.txt], a favorite, were cut; the
    paste goes into [/w/dest/sub], a folder inside the first of them. *)
Definition disk0 : SimFS.t :=
  [dir "/"; dir "/w"; dir "/w/dest"; dir "/w/dest/sub"; file "/w/x.txt" 1].

Definition x_txt : FavoriteEntry :=
  {| path := "/w/x.txt"; type := File; category := Some "work" |}.

Definition sub := Resource "sub" Collapsed "/w/dest/sub" "resource.dir".

Definition w0 : World SimFS.t :=
  world disk0 [x_txt]
    {| clipboardPaths := ["/w/dest"; "/w/x.txt"]; clipboardOperation := Some Cut |} [].

End AbortExample.

Module UniquenessExample.
Import SimFS.

(** [/w/b.txt] is a favorite that is missing on disk. *)
Definition disk0 : SimFS.t := [dir "/"; dir "/w"; file "/w/a.txt" 1].

Definition favorites : list FavoriteEntry :=
  [{| path := "/w/a.txt"; type := File; category := None |};
   {| path := "/w/b.txt"; type := File; category := None |}].

Definition a_txt := FavoriteItem "a.txt" CollapsibleNone "/w/a.txt" File None.

Definition w0 : World SimFS.t := world disk0 favorites emptyClipboard [].

(** Two favorites with the same base name in two folders; the first is on
    the clipboard, cut. *)
Definition disk1 : SimFS.t :=
  [dir "/"; dir "/w"; dir "/w/x"; file "/w/x/a.txt" 1; dir "/w/y"; file "/w/y/a.txt" 2].

Definition favorites1 : list FavoriteEntry :=
  [{| path := "/w/x/a.txt"; type := File; category := None |};
   {| path := "/w/y/a.txt"; type := File; category := None |}].

Definition y := Resource "y" Collapsed "/w/y" "resource.dir".

Definition w1 : World SimFS.t :=
  world disk1 favorites1
    {| clipboardPaths := ["/w/x/a.txt"]; clipboardOperation := Some Cut |} [].

End UniquenessExample.

Module CopyExample.
Import SimFS.

(** [/w/dest] already holds an [a.txt]. *)
Definition disk0 : SimFS.t :=
  [dir "/"; dir "/w"; file "/w/a.txt" 1; file "/w/b.txt" 2; dir "/w/dest";
   file "/w/dest/a.txt" 3].

Definition dest := Resource "dest" Collapsed "/w/dest" "resource.dir".

Definition copied (paths : list string) : World SimFS.t :=
  world disk0 [] {| clipboardPaths := paths; clipboardOperation := Some Copy |} [].

End CopyExample.

Module ReorderExample.
Import SimFS.

Definition A := {| path := "/w/a.txt"; type := File; category := None |}.
Definition B := {| path := "/w/b.txt"; type := File; category := None |}.
Definition K := {| path := "/w/k.txt"; type := File; category := Some "work" |}.

Definition nodeA := FavoriteItem "a.txt" CollapsibleNone "/w/a.txt" File None.

Definition stored (its : list FavoriteEntry) : World SimFS.t :=
  world [] its emptyClipboard [].

End ReorderExample.

Module SortExample.
Import SimFS.

Definition favorites : list FavoriteEntry :=
  [{| path := "/w/src/Main.js"; type := File; category := None |};
   {| path := "/w/docs"; type := Folder; category := Some "work" |};
   {| path := "/w/README.md"; type := File; category := None |};
   {| path := "/w/lib/alpha.js"; type := File; category := None |}].

End SortExample.

Module CanonExample.

(** The letter e with an acute accent, as one code point (U+00E9) and as the
    letter followed by the combining accent (U+0065 U+0301), in UTF-8. *)
Definition composed : string := String "195" (String "169" EmptyString).
Definition decomposed : string := String "e" (String "204" (String "129" EmptyString)).

(** Two favorites whose base names read the same and are different strings,
    in lower case both. *)
Definition favorites : list FavoriteEntry :=
  [{| path := "/w/a/caf" +:+ composed +:+ ".txt"; type := File; category := None |};
   {| path := "/w/b/caf" +:+ decomposed +:+ ".txt"; type := File; category := None |}].

End CanonExample.

Module StoreExample.

(** Two favorites, one of them in the folder [work]; [docs] is an empty
    folder. *)
Definition p0 : Provider :=
  {| items := [{| path := "/w/a.txt"; type := File; category := None |};
               {| path := "/w/b"; type := Folder; category := Some "work" |}];
     categoryList := ["work"; "docs"];
     sortOrder := MANUAL |}.

End StoreExample.

Module DropMoreExample.

(** A dragged file that is gone from the disk by the time of the drop. *)
Definition missing := {| dragPath := "/w/gone.txt"; dragType := File |}.

End DropMoreExample.

Module RenameExample.

(** The third favorite of [PasteExample], in the category [work]. *)
Definition y_txt := FavoriteItem "y.txt" CollapsibleNone "/root/y.txt" File (Some "work").

Definition w0 : World SimFS.t :=
  SimFS.world PasteExample.disk0 PasteExample.favorites emptyClipboard [].

(** The same world with the category [work] listed. *)
Definition w1 : World SimFS.t :=
  withProvider w0 (setCategories (provider w0) ["work"]).

End RenameExample.

Module TieExample.
Import SimFS.

(** Two favorites with the same lower-cased base name in two folders, and a
    third between them. *)
Definition favorites : list FavoriteEntry :=
  [{| path := "/w/b/notes.txt"; type := File; category := None |};
   {| path := "/w/zeta.txt"; type := File; category := None |};
   {| path := "/w/a/Notes.txt"; type := File; category := None |}].

(** The first and the third were last modified at the same time. *)
Definition disk0 : SimFS.t :=
  [dir "/"; dir "/w"; dir "/w/a"; dir "/w/b"; file "/w/b/notes.txt" 5;
   file "/w/zeta.txt" 9; file "/w/a/Notes.txt" 5].

End TieExample.

Module TreeExample.
Import SimFS.

(** One root favorite, two in the category [work] (the second is missing on
    disk), and an empty category [docs]. *)
Definition disk0 : SimFS.t :=
  [dir "/"; dir "/w"; file "/w/a.txt" 1; dir "/w/b"; file "/w/b/inner.txt" 2].

Definition p0 : Provider :=
  {| items := [{| path := "/w/a.txt"; type := File; category := None |};
               {| path := "/w/b"; type := Folder; category := Some "work" |};
               {| path := "/w/gone.txt"; type := File; category := Some "work" |}];
     categoryList := ["docs"; "work"];
     sortOrder := DESC |}.

End TreeExample.

Module PersistExample.

(** A favorite inside the workspace [/home/u/proj], one in a folder next to
    it whose name continues the name of the workspace, and one elsewhere. *)
Definition p0 : Provider :=
  {| items := [{| path := "/home/u/proj/src/a.txt"; type := File; category := Some "work" |};
               {| path := "/home/u/project2/b"; type := Folder; category := None |};
               {| path := "/etc/hosts"; type := File; category := None |}];
     categoryList := ["work"];
     sortOrder := MANUAL |}.

Definition emptyConfig : Config :=
  {| cfgItems := None; cfgCategories := None; cfgSortOrder := None |}.

End PersistExample.

Module DeleteExample.
Import SimFS.

(** Moving to the trash, on the in-memory filesystem: the node and
    everything below it leave the tree; a path that is not there is an
    error. *)
Definition moveToTrash (d : SimFS.t) (p : string) : FsResult SimFS.t :=
  match lookup d p with
  | None => Failed d "EntryNotFound (FileSystemError)"
  | Some _ => Done (filter (fun n : string * Stats => negb (under p (fst n)) = true) d)
  end.

End DeleteExample.

(** * Properties *)

Module NodePathExamples.
Import NodePath.

Example basename_file : basename "/root/dir1/a.txt" = "a.txt".
Proof. reflexivity. Qed.
Example basename_trailing : basename "/root/dir1/" = "dir1".
Proof. reflexivity. Qed.
Example basename_root : basename "/" = "".
Proof. reflexivity. Qed.
Example dirname_file : dirname "/w/a/b.txt" = "/w/a".
Proof. reflexivity. Qed.
Example dirname_top : dirname "/a" = "/".
Proof. reflexivity. Qed.
Example dirname_bare : dirname "a" = ".".
Proof. reflexivity. Qed.
Example dirname_double : dirname "//a" = "//".
Proof. reflexivity. Qed.
Example join_plain : join "/root/dir2" "dir1" = "/root/dir2/dir1".
Proof. reflexivity. Qed.
Example join_dot : join "/w" "." = "/w".
Proof. reflexivity. Qed.
Example join_up : join "/w" "../work/a.txt" = "/work/a.txt".
Proof. reflexivity. Qed.
Example join_trailing : join "/w" "a/" = "/w/a/".
Proof. reflexivity. Qed.
Example relative_child : relative "/" "/w" "/w/src/a.txt" = "src/a.txt".
Proof. reflexivity. Qed.
Example relative_self : relative "/" "/w" "/w" = "".
Proof. reflexivity. Qed.
Example relative_sibling : relative "/" "/w" "/work/a.txt" = "../work/a.txt".
Proof. reflexivity. Qed.
Example relative_root : relative "/" "/" "/a" = "a".
Proof. reflexivity. Qed.

End NodePathExamples.

(** ** Sorting *)

Section JsSortFacts.
Context {A : Type} (cmp : A -> A -> Z).

Lemma insertSorted_perm (x : A) (l : list A) : insertSorted cmp x l ≡ₚ x :: l.
Proof.
  induction l as [|y l IH]; simpl; [done|].
  destruct (cmp x y <=? 0)%Z; [done|].
  rewrite IH. apply Permutation_swap.
Qed.

Lemma jsSort_perm (l : list A) : jsSort cmp l ≡ₚ l.
Proof.
  induction l as [|x l IH]; simpl; [done|].
  by rewrite insertSorted_perm, IH.
Qed.

End JsSortFacts.

(** ** Strings *)

Lemma prefix_longer (s t : string) : String.prefix (s +:+ "/" +:+ t) s = false.
Proof.
  induction s as [|c s IH]; simpl; [done|].
  destruct (ascii_dec c c); [done | congruence].
Qed.

(** ** Lists *)

Lemma insert_middle {A : Type} (l1 l2 : list A) (x y : A) :
  <[length l1 := y]> (l1 ++ x :: l2) = l1 ++ y :: l2.
Proof.
  replace (length l1) with (length l1 + 0)%nat by lia.
  by rewrite insert_app_r.
Qed.

Lemma regroup {A : Type} (l1 l2 l3 : list A) (x y : A) :
  l1 ++ x :: l2 ++ y :: l3 = (l1 ++ x :: l2) ++ y :: l3.
Proof. by rewrite <- app_assoc. Qed.

(** ** The folder listing *)

Section ListingFacts.
Context {FS : Type} `{FileSystem FS}.
Variable localeCompare : string -> string -> Z.
Variable toLowerCase : string -> string.
Import JsString.

Lemma toResource_label (d : FS) (dirPath item : string) :
  nodeLabel (toResource d dirPath item) = item.
Proof.
  unfold toResource. by destruct (itemStat d dirPath item) as [[isDir ?] ?].
Qed.

Lemma children_labels (d : FS) (order : SortOrder) (dirPath : string) (names : list string) :
  readdirSync d dirPath = Some names ->
  map nodeLabel (_getFilesystemChildren localeCompare toLowerCase d order dirPath)
  ≡ₚ filter (fun item => negb (startsWith item ".") = true) names.
Proof.
  intros Hdir. unfold _getFilesystemChildren. rewrite Hdir.
  rewrite map_map.
  rewrite (map_ext _ id) by (intros; apply toResource_label).
  rewrite map_id. apply jsSort_perm.
Qed.

End ListingFacts.

(** C10: in every sort mode, no child returned for a folder carries a name
    that begins with a dot, and the children returned are, up to order, the
    names of the listing that do not begin with a dot (none when the listing
    throws). *)
Theorem getFilesystemChildren_hides_dot_names :
  forall (FS : Type) (fsys : FileSystem FS) (localeCompare : string -> string -> Z)
         (toLowerCase : string -> string)
         (d : FS) (order : SortOrder) (dirPath name : string),
    JsString.startsWith name "." = true ->
    (name ∉ map nodeLabel (_getFilesystemChildren localeCompare toLowerCase d order dirPath))
    /\ match readdirSync d dirPath with
       | Some names =>
           map nodeLabel
             (_getFilesystemChildren localeCompare toLowerCase d order dirPath)
           ≡ₚ filter (fun item => negb (JsString.startsWith item ".") = true) names
       | None => _getFilesystemChildren localeCompare toLowerCase d order dirPath = []
       end.
Proof.
  intros FS fsys lc lower d order dirPath name Hdot.
  destruct (readdirSync d dirPath) as [names|] eqn:Hdir.
  - pose proof (children_labels lc lower d order dirPath names Hdir) as Hperm.
    split; [|exact Hperm].
    rewrite Hperm. intros Hin. apply list_elem_of_filter in Hin as [Hkeep _].
    rewrite Hdot in Hkeep. discriminate.
  - unfold _getFilesystemChildren. rewrite Hdir. split; [|done].
    simpl. apply not_elem_of_nil.
Qed.

Module ListingChecks.
Import SimFS ListingExample.

Example listing_desc :
  _getFilesystemChildren codePointCompare asciiLowerCase disk0 DESC "/w"
  = [Resource "src" Collapsed "/w/src" "resource.dir";
     Resource "b.txt" CollapsibleNone "/w/b.txt" "resource";
     Resource "a.txt" CollapsibleNone "/w/a.txt" "resource"].
Proof. reflexivity. Qed.

End ListingChecks.

Lemma getFilesystemChildren_hides_dot_names_witness :
  JsString.startsWith ".git" "." = true
  /\ (".git" ∉ map nodeLabel
        (_getFilesystemChildren codePointCompare asciiLowerCase ListingExample.disk0
           MODIFIED "/w")).
Proof.
  split; [reflexivity|].
  apply (getFilesystemChildren_hides_dot_names _ _ codePointCompare asciiLowerCase
           ListingExample.disk0 MODIFIED "/w" ".git").
  reflexivity.
Defined.

(** ** Drag and drop *)

Section DropFacts.
Context {FS : Type} `{FileSystem FS}.
Import JsString NodePath.

Lemma dropLoop_app (targetFolder : string) (before after : list DragItem)
    (d : FS) (shown : list Message) :
  dropLoop targetFolder (before ++ after) d shown
  = let '(d1, shown1) := dropLoop targetFolder before d shown in
    dropLoop targetFolder after d1 shown1.
Proof.
  revert d shown.
  induction before as [|item before IH]; intros d shown; simpl; [done|].
  destruct (String.eqb _ _); [apply IH|].
  destruct (startsWith _ _); [apply IH|].
  destruct (renameSync _ _ _); apply IH.
Qed.

Lemma dropLoop_same_path (targetFolder : string) (item : DragItem)
    (after : list DragItem) (d : FS) (shown : list Message) :
  dragPath item = join targetFolder (basename (dragPath item)) ->
  dropLoop targetFolder (item :: after) d shown = dropLoop targetFolder after d shown.
Proof.
  intros Hsame. simpl. rewrite <- Hsame. by rewrite String.eqb_refl.
Qed.

Lemma dropLoop_own_subtree (targetFolder : string) (item : DragItem)
    (after : list DragItem) (d : FS) (shown : list Message) :
  startsWith (join targetFolder (basename (dragPath item))) (dragPath item +:+ sep) = true ->
  dropLoop targetFolder (item :: after) d shown
  = dropLoop targetFolder after d (shown ++ [Warning "Cannot move folder into itself"]).
Proof.
  intros Hsub. simpl.
  destruct (String.eqb _ _) eqn:Heq.
  - apply String.eqb_eq in Heq. rewrite <- Heq in Hsub.
    unfold startsWith, sep in Hsub.
    pose proof (prefix_longer (dragPath item) "") as Hno.
    simpl in Hno. replace (dragPath item +:+ "/" +:+ "") with (dragPath item +:+ "/") in Hno.
    + congruence.
    + done.
  - by rewrite Hsub.
Qed.

End DropFacts.

(** C8: in the loop of a drop, at whatever position of the batch, an item
    whose destination path is its own path is passed over (the items after it
    start from the disk and the messages the items before it left), and an
    item whose destination path begins with its own path followed by the
    separator is passed over with the warning; in both cases the items after
    it are processed. *)
Theorem drop_rejects_same_path_and_own_subtree :
  forall (FS : Type) (fsys : FileSystem FS) (targetFolder : string)
         (before : list DragItem) (item : DragItem) (after : list DragItem)
         (d : FS) (shown : list Message),
    let sourcePath := dragPath item in
    let destPath := NodePath.join targetFolder (NodePath.basename sourcePath) in
    (sourcePath = destPath ->
     dropLoop targetFolder (before ++ item :: after) d shown
     = let '(d1, shown1) := dropLoop targetFolder before d shown in
       dropLoop targetFolder after d1 shown1)
    /\ (JsString.startsWith destPath (sourcePath +:+ NodePath.sep) = true ->
        dropLoop targetFolder (before ++ item :: after) d shown
        = let '(d1, shown1) := dropLoop targetFolder before d shown in
          dropLoop targetFolder after d1
            (shown1 ++ [Warning "Cannot move folder into itself"])).
Proof.
  intros FS fsys targetFolder before item after d shown sourcePath destPath.
  split; intros Hcase; rewrite dropLoop_app;
    destruct (dropLoop targetFolder before d shown) as [d1 shown1].
  - by apply dropLoop_same_path.
  - by apply dropLoop_own_subtree.
Qed.

Module DropChecks.
Import SimFS DropExample.

(** Dropping [/w/sub/f.txt], [/w/sub] and [/w/other.txt] onto [/w/sub]: the
    first is where it already is, the second would move into itself, the third
    is moved. *)
Example drop_batch :
  handleDrop (Some subNode) (Some [f_txt; sub; other]) (world disk0 [] emptyClipboard [])
  = notify
      (world
         [dir "/"; dir "/w"; dir "/w/sub"; file "/w/sub/f.txt" 1; dir "/w/sub/inner";
          file "/w/sub/other.txt" 2]
         [] emptyClipboard [])
      (Warning "Cannot move folder into itself").
Proof. reflexivity. Qed.

(** Dropping [/w/sub] onto [/w/sub/inner] is refused as well. *)
Example drop_into_child :
  handleDrop (Some innerNode) (Some [sub]) (world disk0 [] emptyClipboard [])
  = notify (world disk0 [] emptyClipboard [])
      (Warning "Cannot move folder into itself").
Proof. reflexivity. Qed.

End DropChecks.

Lemma drop_rejects_same_path_and_own_subtree_witness :
  dropLoop "/w/sub" ([] ++ DropExample.f_txt :: [DropExample.sub; DropExample.other])
    DropExample.disk0 []
  = dropLoop "/w/sub" [DropExample.sub; DropExample.other] DropExample.disk0 []
  /\ dropLoop "/w/sub" ([DropExample.f_txt] ++ DropExample.sub :: [DropExample.other])
       DropExample.disk0 []
     = dropLoop "/w/sub" [DropExample.other] DropExample.disk0
         [Warning "Cannot move folder into itself"].
Proof.
  split.
  - apply (proj1 (drop_rejects_same_path_and_own_subtree _ _ "/w/sub" []
                    DropExample.f_txt [DropExample.sub; DropExample.other]
                    DropExample.disk0 [])).
    reflexivity.
  - apply (proj2 (drop_rejects_same_path_and_own_subtree _ _ "/w/sub" [DropExample.f_txt]
                    DropExample.sub [DropExample.other] DropExample.disk0 [])).
    reflexivity.
Defined.

(** ** The clipboard *)

Section ClipboardFacts.
Context {FS : Type} `{FileSystem FS}.

Lemma length_pos_cons {A : Type} (l : list A) : l <> [] -> (0 <? length l)%nat = true.
Proof. destruct l; [done|]. intros _. reflexivity. Qed.

Lemma cut_sets_clipboard (resource : option TreeNode) (extra : option (list TreeNode))
    (w : World FS) :
  clipItems resource (selection w) <> [] ->
  clipboard (cmd_cut resource extra w)
  = {| clipboardPaths := omap nodePath (clipItems resource (selection w));
       clipboardOperation := Some Cut |}.
Proof. intros Hne. unfold cmd_cut. by rewrite (length_pos_cons _ Hne). Qed.

Lemma copy_sets_clipboard (resource : option TreeNode) (extra : option (list TreeNode))
    (w : World FS) :
  clipItems resource (selection w) <> [] ->
  clipboard (cmd_copy resource extra w)
  = {| clipboardPaths := omap nodePath (clipItems resource (selection w));
       clipboardOperation := Some Copy |}.
Proof. intros Hne. unfold cmd_copy. by rewrite (length_pos_cons _ Hne). Qed.

Lemma cut_keeps_selection (resource : option TreeNode) (extra : option (list TreeNode))
    (w : World FS) :
  selection (cmd_cut resource extra w) = selection w.
Proof. unfold cmd_cut. by destruct (0 <? _)%nat. Qed.

Lemma paste_cut_clears (resource : option TreeNode) (w w' : World FS) (targetDir : string) :
  clipboardOperation (clipboard w) = Some Cut ->
  clipboardPaths (clipboard w) <> [] ->
  pasteTarget resource w = Some targetDir ->
  cmd_paste resource w = (w', None) ->
  clipboard w' = emptyClipboard.
Proof.
  intros Hop Hne Htarget. unfold cmd_paste.
  rewrite Htarget, (length_pos_cons _ Hne), Hop.
  destruct (pasteLoop _ _ _ _ _) as [[d' its'] [msg|]]; intros Hrun;
    inversion Hrun; subst. reflexivity.
Qed.

Lemma paste_keeps_clipboard_unless_cut_completes (resource : option TreeNode) (w : World FS) :
  clipboardOperation (clipboard w) <> Some Cut \/ snd (cmd_paste resource w) <> None ->
  clipboard (fst (cmd_paste resource w)) = clipboard w.
Proof.
  unfold cmd_paste.
  destruct (pasteTarget resource w) as [targetDir|]; [|done].
  destruct (0 <? _)%nat; [|done].
  destruct (pasteLoop _ _ _ _ _) as [[d' its'] [msg|]]; [done|].
  destruct (clipboardOperation (clipboard w)) as [[|]|]; simpl; intros [Hc|Hc]; done.
Qed.

End ClipboardFacts.

(** C3: a cut or a copy of a non-empty item list replaces the clipboard by
    the paths of those items, in order, with its own operation tag, whatever
    the clipboard held; a paste of a non-empty clipboard tagged Cut into a
    resolved directory that runs to its end leaves the clipboard empty and
    untagged; a paste of a clipboard tagged Copy leaves it as it was. *)
Theorem clipboard_lifecycle :
  forall (FS : Type) (fsys : FileSystem FS),
    (forall resource extra (w : World FS),
        clipItems resource (selection w) <> [] ->
        clipboard (cmd_cut resource extra w)
        = {| clipboardPaths := omap nodePath (clipItems resource (selection w));
             clipboardOperation := Some Cut |})
    /\ (forall resource extra (w : World FS),
           clipItems resource (selection w) <> [] ->
           clipboard (cmd_copy resource extra w)
           = {| clipboardPaths := omap nodePath (clipItems resource (selection w));
                clipboardOperation := Some Copy |})
    /\ (forall resource (w w' : World FS) targetDir,
           clipboardOperation (clipboard w) = Some Cut ->
           clipboardPaths (clipboard w) <> [] ->
           pasteTarget resource w = Some targetDir ->
           cmd_paste resource w = (w', None) ->
           clipboard w' = emptyClipboard)
    /\ (forall resource (w : World FS),
           clipboardOperation (clipboard w) = Some Copy ->
           clipboard (fst (cmd_paste resource w)) = clipboard w).
Proof.
  intros FS fsys. repeat split.
  - apply cut_sets_clipboard.
  - apply copy_sets_clipboard.
  - apply paste_cut_clears.
  - intros resource w Hop. apply paste_keeps_clipboard_unless_cut_completes.
    left. rewrite Hop. discriminate.
Qed.

Module ClipboardChecks.
Import SimFS ClipboardExample.

Example cut_then_copy_messages :
  messages afterCopy = [Information "Cut: x.txt, y.txt"; Information "Copied: z.txt"].
Proof. reflexivity. Qed.

Example paste_after_cut_moves_both :
  disk (fst (cmd_paste (Some dest) afterCut))
  = [dir "/"; dir "/w"; file "/w/dest/x.txt" 1; file "/w/dest/y.txt" 2;
     file "/w/z.txt" 3; dir "/w/dest"].
Proof. reflexivity. Qed.

End ClipboardChecks.

Lemma clipboard_lifecycle_witness :
  clipboard ClipboardExample.afterCut
  = {| clipboardPaths := ["/w/x.txt"; "/w/y.txt"]; clipboardOperation := Some Cut |}
  /\ clipboard ClipboardExample.afterCopy
     = {| clipboardPaths := ["/w/z.txt"]; clipboardOperation := Some Copy |}
  /\ clipboard (fst (cmd_paste (Some ClipboardExample.dest) ClipboardExample.afterCut))
     = emptyClipboard
  /\ clipboard (fst (cmd_paste (Some ClipboardExample.dest) ClipboardExample.afterCopy))
     = {| clipboardPaths := ["/w/z.txt"]; clipboardOperation := Some Copy |}.
Proof.
  destruct (clipboard_lifecycle SimFS.t SimFS.fileSystem)
    as (Hcut & Hcopy & Hpaste_cut & Hpaste_copy).
  split; [|split; [|split]].
  - apply (Hcut None None ClipboardExample.w0). discriminate.
  - apply (Hcopy (Some ClipboardExample.Z) None ClipboardExample.afterCut). discriminate.
  - apply (Hpaste_cut (Some ClipboardExample.dest) ClipboardExample.afterCut
             (fst (cmd_paste (Some ClipboardExample.dest) ClipboardExample.afterCut))
             "/w/dest").
    + reflexivity.
    + discriminate.
    + reflexivity.
    + reflexivity.
  - apply (Hpaste_copy (Some ClipboardExample.dest) ClipboardExample.afterCopy).
    reflexivity.
Defined.

(** ** Target resolution *)

(** [copyPath] and [copyRelativePath] resolve their targets in that order. *)
Lemma copyPathItems_three_tiers (primaryTarget : option TreeNode)
    (explicitMultiSelect : option (list TreeNode)) (host : list TreeNode) :
  copyPathItems primaryTarget explicitMultiSelect host
  = resolveTargets_spec primaryTarget explicitMultiSelect host.
Proof. reflexivity. Qed.

(** [cut], [copy] and [delete] agree with it when no explicit multi-select
    sequence is passed, or an empty one. *)
Lemma clipItems_two_tiers (primaryTarget : option TreeNode) (host : list TreeNode) :
  clipItems primaryTarget host = resolveTargets_spec primaryTarget None host
  /\ clipItems primaryTarget host = resolveTargets_spec primaryTarget (Some []) host.
Proof. split; reflexivity. Qed.

(** The scenario of the design document: primary target [P], an empty
    explicit sequence, host selection [[Q; R]]. *)
Lemma single_target_wins_over_host_selection (P Q R : TreeNode) :
  copyPathItems (Some P) (Some []) [Q; R] = [P]
  /\ clipItems (Some P) [Q; R] = [P].
Proof. split; reflexivity. Qed.

(** C4, at the input where [cut] departs from it: invoked with primary
    target [P] and explicit multi-select [[A; B]], [copyPath] copies the paths
    of [A] and [B], as the resolution order requires, while [cut] and [copy]
    put the path of [P] alone on the clipboard. *)
Theorem cut_drops_explicit_multi_select :
  let P := ResolutionExample.P in
  let A := ResolutionExample.A in
  let B := ResolutionExample.B in
  let w := ResolutionExample.w0 in
  resolveTargets_spec (Some P) (Some [A; B]) (selection w) = [A; B]
  /\ snd (cmd_copyPath (Some P) (Some [A; B]) w)
     = Some (String.concat JsString.newline ["/w/a.txt"; "/w/b.txt"])
  /\ clipboardPaths (clipboard (cmd_cut (Some P) (Some [A; B]) w)) = ["/w/p.txt"]
  /\ clipboardPaths (clipboard (cmd_copy (Some P) (Some [A; B]) w)) = ["/w/p.txt"].
Proof. repeat split. Qed.

(** ** Cut and paste: the tracked entry *)

Section PasteFacts.
Context {FS : Type} `{FileSystem FS}.
Import JsString NodePath.

Lemma pasteLoop_app (op : option ClipOp) (targetDir : string) (before after : list string)
    (d : FS) (its : list FavoriteEntry) :
  pasteLoop op targetDir (before ++ after) d its
  = match pasteLoop op targetDir before d its with
    | (d1, its1, None) => pasteLoop op targetDir after d1 its1
    | stopped => stopped
    end.
Proof.
  revert d its.
  induction before as [|sourcePath before IH]; intros d its; simpl; [done|].
  destruct (negb (existsSync d sourcePath)); [apply IH|].
  destruct op as [[|]|].
  - destruct (renameSync _ _ _); [apply IH | done].
  - destruct (copyNoOverwrite _ _ _); [apply IH | done].
  - destruct (copyNoOverwrite _ _ _); [apply IH | done].
Qed.

Lemma pasteLoop_cut_step (targetDir sourcePath : string) (after : list string)
    (d d' : FS) (its : list FavoriteEntry) :
  existsSync d sourcePath = true ->
  renameSync d sourcePath (join targetDir (basename sourcePath)) = Done d' ->
  pasteLoop (Some Cut) targetDir (sourcePath :: after) d its
  = pasteLoop (Some Cut) targetDir after d'
      (retarget sourcePath (join targetDir (basename sourcePath)) its).
Proof. intros Hexists Hrename. simpl. by rewrite Hexists, Hrename. Qed.

Lemma pasteLoop_skips_missing (op : option ClipOp) (targetDir sourcePath : string)
    (after : list string) (d : FS) (its : list FavoriteEntry) :
  existsSync d sourcePath = false ->
  pasteLoop op targetDir (sourcePath :: after) d its = pasteLoop op targetDir after d its.
Proof. intros Hmissing. simpl. by rewrite Hmissing. Qed.

Lemma retarget_tracked (sourcePath destPath : string) (its : list FavoriteEntry)
    (index : nat) (entry : FavoriteEntry) :
  Store.findByPath sourcePath its = Some (index, entry) ->
  retarget sourcePath destPath its = <[index := setPath entry destPath]> its.
Proof. intros Hfind. unfold retarget. by rewrite Hfind. Qed.

Lemma retarget_untracked (sourcePath destPath : string) (its : list FavoriteEntry) :
  Store.findByPath sourcePath its = None ->
  retarget sourcePath destPath its = its.
Proof. intros Hfind. unfold retarget. by rewrite Hfind. Qed.

(** A rename that fails ends the loop: the store is as the paths before
    left it, and the paths after are not looked at. *)
Lemma pasteLoop_cut_failure_stops (targetDir sourcePath : string) (after : list string)
    (d d' : FS) (its : list FavoriteEntry) (msg : string) :
  existsSync d sourcePath = true ->
  renameSync d sourcePath (join targetDir (basename sourcePath)) = Failed d' msg ->
  pasteLoop (Some Cut) targetDir (sourcePath :: after) d its = (d', its, Some msg).
Proof. intros Hexists Hrename. simpl. by rewrite Hexists, Hrename. Qed.

(** The handler, when it has a destination and a clipboard that is not
    empty, in terms of its loop. *)
Lemma cmd_paste_cut (resource : option TreeNode) (w : World FS) (targetDir : string) :
  pasteTarget resource w = Some targetDir ->
  clipboardOperation (clipboard w) = Some Cut ->
  clipboardPaths (clipboard w) <> [] ->
  let run := pasteLoop (Some Cut) targetDir (clipboardPaths (clipboard w)) (disk w)
               (items (provider w)) in
  disk (fst (cmd_paste resource w)) = fst (fst run)
  /\ items (provider (fst (cmd_paste resource w))) = snd (fst run)
  /\ snd (cmd_paste resource w) = snd run
  /\ clipboard (fst (cmd_paste resource w))
     = match snd run with
       | None => {| clipboardPaths := []; clipboardOperation := None |}
       | Some _ => clipboard w
       end.
Proof.
  intros Htarget Hcut Hpaths run. subst run. unfold cmd_paste. rewrite Htarget, Hcut.
  destruct (clipboardPaths (clipboard w)) as [|sourcePath rest] eqn:Hclip; [done|].
  cbn [length Nat.ltb Nat.leb].
  by destruct (pasteLoop _ _ _ _ _) as [[d' its'] [msg|]].
Qed.

End PasteFacts.

(** C1, at an input where the handler departs from it: the folder [/w/dest]
    and the file [/w/x.txt] were cut and are pasted into [/w/dest/sub].
    [/w/x.txt] is on disk and the store tracks it, yet the handler ends with
    the exception of the first rename (a folder cannot be moved into
    itself): the file is not moved and its entry keeps the path it had. *)
Theorem paste_cut_stopped_leaves_tracked_path_behind :
  let w := AbortExample.w0 in
  let after := fst (cmd_paste (Some AbortExample.sub) w) in
  clipboardOperation (clipboard w) = Some Cut
  /\ "/w/x.txt" ∈ clipboardPaths (clipboard w)
  /\ existsSync (disk w) "/w/x.txt" = true
  /\ Store.findByPath "/w/x.txt" (items (provider w)) = Some (0%nat, AbortExample.x_txt)
  /\ cmd_paste (Some AbortExample.sub) w = (w, Some "EINVAL: invalid argument")
  /\ items (provider after) = [AbortExample.x_txt]
  /\ existsSync (disk after) "/w/x.txt" = true
  /\ existsSync (disk after) "/w/dest/sub/x.txt" = false.
Proof.
  intros w after. split_and!; try reflexivity.
  apply list_elem_of_In. simpl. tauto.
Qed.

Module PasteChecks.
Import SimFS PasteExample.

Example paste_cut_dir1_into_dir2 :
  cmd_paste (Some dir2) w0
  = (world
       [dir "/"; dir "/root"; dir "/root/dir2/dir1"; file "/root/dir2/dir1/a.txt" 5;
        dir "/root/dir2"; file "/root/x.txt" 1; file "/root/y.txt" 1]
       [{| path := "/root/x.txt"; type := File; category := None |};
        {| path := "/root/dir2/dir1"; type := Folder; category := Some "work" |};
        {| path := "/root/y.txt"; type := File; category := Some "work" |}]
       emptyClipboard [],
     None).
Proof. reflexivity. Qed.

(** On its own, [/w/x.txt] is moved into [/w/dest/sub] and its entry
    follows. *)
Example paste_cut_x_alone :
  let w := withClipboard AbortExample.w0
             {| clipboardPaths := ["/w/x.txt"]; clipboardOperation := Some Cut |} in
  items (provider (fst (cmd_paste (Some AbortExample.sub) w)))
  = [{| path := "/w/dest/sub/x.txt"; type := File; category := Some "work" |}].
Proof. reflexivity. Qed.

End PasteChecks.

(** ** The uniqueness invariant *)

Section StoreFacts.
Import Store.

(** What [find] finds splits the array at the first entry with that path. *)
Lemma findByPath_split (p : string) (its : list FavoriteEntry) (index : nat)
    (e : FavoriteEntry) :
  findByPath p its = Some (index, e) ->
  exists l1 l2, its = l1 ++ e :: l2 /\ index = length l1 /\ path e = p
                /\ p ∉ path <$> l1.
Proof.
  intros (Hlookup & Hpath & Hfirst)%list_find_Some.
  destruct (list_elem_of_split_length _ _ _ Hlookup) as (l1 & l2 & -> & ->).
  exists l1, l2. split_and!; [done..|].
  intros (x & Hx & Hin)%list_elem_of_fmap.
  apply list_elem_of_lookup in Hin as [j Hj].
  apply (Hfirst j x); [|by eapply lookup_lt_Some|done].
  by apply lookup_app_l_Some.
Qed.

Lemma findByPath_middle (l1 l2 : list FavoriteEntry) (e : FavoriteEntry) :
  path e ∉ path <$> l1 ->
  findByPath (path e) (l1 ++ e :: l2) = Some (length l1, e).
Proof.
  intros Hfresh. apply list_find_Some. split_and!.
  - by apply list_lookup_middle.
  - done.
  - intros j y Hj Hlt Hy. apply Hfresh. rewrite <- Hy.
    apply list_elem_of_fmap_2, list_elem_of_lookup. exists j.
    by rewrite lookup_app_l in Hj.
Qed.

Lemma existsb_path (p : string) (its : list FavoriteEntry) :
  existsb (fun item => String.eqb (path item) p) its = true <-> p ∈ path <$> its.
Proof.
  rewrite existsb_exists, list_elem_of_fmap. split.
  - intros (x & Hin & Heq). exists x. apply String.eqb_eq in Heq.
    split; [done|]. by apply list_elem_of_In.
  - intros (x & -> & Hin). exists x. split; [by apply list_elem_of_In|].
    apply String.eqb_refl.
Qed.

Lemma addFavorite_unique (itemPath : string) (ty : ItemType) (p : Provider) :
  uniquePaths (items p) ->
  uniquePaths (items (fst (fst (addFavorite itemPath ty p)))).
Proof.
  intros Huniq. unfold addFavorite.
  destruct (existsb _ _) eqn:Hdup; [done|].
  simpl. unfold uniquePaths. rewrite fmap_app. apply NoDup_app. split_and!.
  - done.
  - intros x Hx [->|[]%elem_of_nil]%elem_of_cons.
    apply existsb_path in Hx. simpl in Hx. congruence.
  - apply NoDup_singleton.
Qed.

Lemma removeFavorite_unique (itemPath : string) (p : Provider) :
  uniquePaths (items p) -> uniquePaths (items (removeFavorite itemPath p)).
Proof.
  intros Huniq. unfold removeFavorite.
  destruct (findByPath _ _) as [[index e]|]; [|done].
  simpl. unfold uniquePaths. rewrite list_fmap_delete.
  eapply sublist_NoDup; [exact Huniq | apply sublist_delete].
Qed.

Lemma setCategory_paths (index : nat) (e : FavoriteEntry) (c : option string)
    (its : list FavoriteEntry) :
  its !! index = Some e ->
  path <$> <[index := setCategory e c]> its = path <$> its.
Proof.
  intros Hlookup. rewrite list_fmap_insert. apply list_insert_id.
  by rewrite list_lookup_fmap, Hlookup.
Qed.

Lemma moveToCategory_unique (itemPath categoryName : string) (p : Provider) :
  uniquePaths (items p) -> uniquePaths (items (moveToCategory itemPath categoryName p)).
Proof.
  intros Huniq. unfold moveToCategory.
  destruct (findByPath _ _) as [[index e]|] eqn:Hfind; [|done].
  apply list_find_Some in Hfind as (Hlookup & _).
  simpl. unfold uniquePaths. by rewrite setCategory_paths.
Qed.

Lemma moveToRoot_unique (itemPath : string) (p : Provider) :
  uniquePaths (items p) -> uniquePaths (items (moveToRoot itemPath p)).
Proof.
  intros Huniq. unfold moveToRoot.
  destruct (findByPath _ _) as [[index e]|] eqn:Hfind; [|done].
  apply list_find_Some in Hfind as (Hlookup & _).
  simpl. unfold uniquePaths. by rewrite setCategory_paths.
Qed.

Lemma recategorize_paths (f : FavoriteEntry -> FavoriteEntry) (its : list FavoriteEntry) :
  (forall e, path (f e) = path e) -> path <$> map f its = path <$> its.
Proof.
  intros Hf. induction its as [|e its IH]; [done|].
  cbn [map]. rewrite !fmap_cons. by rewrite Hf, IH.
Qed.

Lemma renameCategory_unique (oldName newName : string) (p : Provider) :
  uniquePaths (items p) -> uniquePaths (items (renameCategory oldName newName p)).
Proof.
  intros Huniq. unfold renameCategory, uniquePaths. simpl.
  rewrite recategorize_paths; [done|]. intros e. by destruct (decide _).
Qed.

Lemma deleteCategory_unique (categoryName : string) (p : Provider) :
  uniquePaths (items p) -> uniquePaths (items (deleteCategory categoryName p)).
Proof.
  intros Huniq. unfold deleteCategory, uniquePaths. simpl.
  rewrite recategorize_paths; [done|]. intros e. by destruct (decide _).
Qed.

(** The rewrite of a tracked path, shared by [rename] and by a Cut paste,
    keeps the paths unique when the new path is not tracked already (or is
    the old path). *)
Lemma retarget_unique (sourcePath destPath : string) (its : list FavoriteEntry) :
  uniquePaths its ->
  destPath = sourcePath \/ destPath ∉ path <$> its ->
  uniquePaths (retarget sourcePath destPath its).
Proof.
  intros Huniq Hfresh. unfold retarget.
  destruct (findByPath _ _) as [[index e]|] eqn:Hfind; [|done].
  destruct (findByPath_split _ _ _ _ Hfind) as (l1 & l2 & -> & -> & Hpath & _).
  replace (length l1) with (length l1 + 0)%nat by lia.
  rewrite insert_app_r. simpl.
  destruct Hfresh as [->|Hfresh].
  - replace (setPath e sourcePath) with e; [done|].
    destruct e; simpl in *; by subst.
  - unfold uniquePaths in *. rewrite fmap_app, fmap_cons in *.
    apply NoDup_app in Huniq as (Hl1 & Hdisj & Hl2).
    apply NoDup_cons in Hl2 as [_ Hl2].
    apply NoDup_app. split_and!; [done| |].
    + intros x Hx [->|Hx2]%elem_of_cons.
      * apply Hfresh. apply elem_of_app. by left.
      * apply (Hdisj x Hx). by right.
    + apply NoDup_cons. split; [|done]. simpl.
      intros Hin. apply Hfresh. apply elem_of_app. right. by right.
Qed.

(** And it does not when the new path is the path of another entry:
    nothing in [rename] or in the Cut paste looks for one. *)
Lemma retarget_duplicates (sourcePath destPath : string) (its : list FavoriteEntry)
    (index : nat) (e : FavoriteEntry) :
  findByPath sourcePath its = Some (index, e) ->
  destPath <> sourcePath ->
  destPath ∈ path <$> its ->
  ~ uniquePaths (retarget sourcePath destPath its).
Proof.
  intros Hfind Hne Htracked. unfold retarget. rewrite Hfind.
  destruct (findByPath_split _ _ _ _ Hfind) as (l1 & l2 & -> & -> & Hpath & _).
  rewrite insert_middle. unfold uniquePaths.
  rewrite fmap_app, fmap_cons in *. simpl.
  intros (_ & Hdisj & [Hfresh _]%NoDup_cons)%NoDup_app.
  apply elem_of_app in Htracked as [Hin|[Heq|Hin]%elem_of_cons].
  - apply (Hdisj _ Hin). by left.
  - congruence.
  - by apply Hfresh.
Qed.

End StoreFacts.

(** C2, at the inputs where the store departs from it: renaming the favorite
    [/w/a.txt] to [b.txt] while [/w/b.txt] is a favorite too, and pasting the
    cut favorite [/w/x/a.txt] into [/w/y] while [/w/y/a.txt] is a favorite
    too, both run to their end and leave two entries with the same path. *)
Theorem rename_and_paste_duplicate_a_tracked_path :
  uniquePaths UniquenessExample.favorites
  /\ cmd_rename (Some UniquenessExample.a_txt) (Some "b.txt") UniquenessExample.w0
     = (SimFS.world [SimFS.dir "/"; SimFS.dir "/w"; SimFS.file "/w/b.txt" 1]
          [{| path := "/w/b.txt"; type := File; category := None |};
           {| path := "/w/b.txt"; type := File; category := None |}]
          emptyClipboard [],
        None)
  /\ ~ uniquePaths
         (items (provider (fst (cmd_rename (Some UniquenessExample.a_txt) (Some "b.txt")
                                  UniquenessExample.w0))))
  /\ uniquePaths UniquenessExample.favorites1
  /\ cmd_paste (Some UniquenessExample.y) UniquenessExample.w1
     = (SimFS.world
          [SimFS.dir "/"; SimFS.dir "/w"; SimFS.dir "/w/x"; SimFS.file "/w/y/a.txt" 1;
           SimFS.dir "/w/y"]
          [{| path := "/w/y/a.txt"; type := File; category := None |};
           {| path := "/w/y/a.txt"; type := File; category := None |}]
          emptyClipboard [],
        None)
  /\ ~ uniquePaths
         (items (provider (fst (cmd_paste (Some UniquenessExample.y)
                                  UniquenessExample.w1)))).
Proof.
  assert (Hdup : forall p : string, ~ NoDup [p; p]).
  { intros p [Hin _]%NoDup_cons. apply Hin. by left. }
  split_and!.
  - unfold uniquePaths. simpl. apply NoDup_cons. split; [|apply NoDup_singleton].
    intros [Heq|[]%elem_of_nil]%elem_of_cons. discriminate.
  - reflexivity.
  - apply Hdup.
  - unfold uniquePaths. simpl. apply NoDup_cons. split; [|apply NoDup_singleton].
    intros [Heq|[]%elem_of_nil]%elem_of_cons. discriminate.
  - reflexivity.
  - apply Hdup.
Qed.

(** ** Copy and paste: failures *)

Section CopyFacts.
Context {FS : Type} `{FileSystem FS}.
Import JsString NodePath.

(** A copy that fails ends the loop: the paths after it are not looked at. *)
Lemma pasteLoop_copy_failure_stops (targetDir sourcePath : string) (after : list string)
    (d d' : FS) (its : list FavoriteEntry) (msg : string) :
  existsSync d sourcePath = true ->
  copyNoOverwrite d sourcePath (join targetDir (basename sourcePath)) = Failed d' msg ->
  pasteLoop (Some Copy) targetDir (sourcePath :: after) d its = (d', its, Some msg).
Proof. intros Hexists Hcopy. simpl. by rewrite Hexists, Hcopy. Qed.

(** The handler shows no message of its own, whatever happens. *)
Lemma paste_shows_nothing (resource : option TreeNode) (w : World FS) :
  messages (fst (cmd_paste resource w)) = messages w.
Proof.
  unfold cmd_paste.
  destruct (pasteTarget resource w); [|done].
  destruct (0 <? _)%nat; [|done].
  destruct (pasteLoop _ _ _ _ _) as [[d' its'] [msg|]]; [done|].
  by destruct (clipboardOperation (clipboard w)) as [[|]|].
Qed.

End CopyFacts.

Module CopyChecks.
Import SimFS CopyExample.

(** On its own, [/w/b.txt] is copied into [/w/dest]. *)
Example paste_b_alone :
  cmd_paste (Some dest) (copied ["/w/b.txt"])
  = (withDisk (copied ["/w/b.txt"]) (disk0 ++ [file "/w/dest/b.txt" 2]), None).
Proof. reflexivity. Qed.

(** A path that vanished is passed over and the next one is copied. *)
Example paste_gone_then_b :
  cmd_paste (Some dest) (copied ["/w/gone.txt"; "/w/b.txt"])
  = (withDisk (copied ["/w/gone.txt"; "/w/b.txt"]) (disk0 ++ [file "/w/dest/b.txt" 2]),
     None).
Proof. reflexivity. Qed.

End CopyChecks.

(** C7, at the input where the handler departs from it: pasting the copied
    batch [/w/a.txt], [/w/b.txt] into [/w/dest], which holds an [a.txt]
    already, ends with the exception of the first copy; [/w/b.txt] is not
    copied, the world is as it was and no message was shown. *)
Theorem paste_copy_collision_aborts_batch :
  let w := CopyExample.copied ["/w/a.txt"; "/w/b.txt"] in
  cmd_paste (Some CopyExample.dest) w = (w, Some "EntryExists (FileSystemError)")
  /\ existsSync (disk (fst (cmd_paste (Some CopyExample.dest) w))) "/w/dest/b.txt" = false
  /\ messages (fst (cmd_paste (Some CopyExample.dest) w)) = [].
Proof. split_and!; reflexivity. Qed.

(** ** Manual reordering *)

Section ReorderFacts.
Import Store.

Local Abbreviation sameCategoryAs cat :=
  (fun item : FavoriteEntry => inPartition cat item = true).

Lemma filter_outside (cat : option string) (l : list FavoriteEntry) :
  outside cat l -> filter (fun item => inPartition cat item = true) l = [].
Proof.
  induction 1 as [|x l Hx _ IH]; [done|].
  rewrite filter_cons_False; [done|]. by rewrite Hx.
Qed.

Lemma filter_paths_subset (cat : option string) (l : list FavoriteEntry) (p : string) :
  p ∈ path <$> filter (fun item => inPartition cat item = true) l -> p ∈ path <$> l.
Proof.
  intros (x & -> & Hin)%list_elem_of_fmap.
  apply list_elem_of_fmap_2. by apply list_elem_of_filter in Hin as [_ Hin].
Qed.

Lemma swap_later_earlier (l1 l2 l3 : list FavoriteEntry) (e e' : FavoriteEntry) :
  swap (length (l1 ++ e' :: l2)) (length l1) (l1 ++ e' :: l2 ++ e :: l3)
  = l1 ++ e :: l2 ++ e' :: l3.
Proof.
  unfold swap.
  assert (Hcur : (l1 ++ e' :: l2 ++ e :: l3) !! length (l1 ++ e' :: l2) = Some e).
  { rewrite regroup. by apply list_lookup_middle. }
  assert (Hprev : (l1 ++ e' :: l2 ++ e :: l3) !! length l1 = Some e')
    by (by apply list_lookup_middle).
  rewrite Hcur, Hprev.
  rewrite (regroup l1 l2 l3 e' e), insert_middle, <- regroup.
  by rewrite insert_middle.
Qed.

Lemma swap_earlier_later (l1 l2 l3 : list FavoriteEntry) (e e' : FavoriteEntry) :
  swap (length l1) (length (l1 ++ e :: l2)) (l1 ++ e :: l2 ++ e' :: l3)
  = l1 ++ e' :: l2 ++ e :: l3.
Proof.
  unfold swap.
  assert (Hnext : (l1 ++ e :: l2 ++ e' :: l3) !! length (l1 ++ e :: l2) = Some e').
  { rewrite regroup. by apply list_lookup_middle. }
  assert (Hcur : (l1 ++ e :: l2 ++ e' :: l3) !! length l1 = Some e)
    by (by apply list_lookup_middle).
  rewrite Hcur, Hnext.
  rewrite insert_middle.
  replace (length (l1 ++ e :: l2)) with (length (l1 ++ e' :: l2))
    by (rewrite !length_app; simpl; lia).
  by rewrite (regroup l1 l2 l3 e' e'), insert_middle, <- regroup.
Qed.

Lemma moveUp_first (cat : option string) (e : FavoriteEntry) (l1 l3 : list FavoriteEntry) :
  inPartition cat e = true ->
  outside cat l1 ->
  moveUpItems (path e) cat (l1 ++ e :: l3) = None.
Proof.
  intros He Hl1. unfold moveUpItems.
  rewrite filter_app, (filter_outside _ _ Hl1), filter_cons_True by done.
  simpl. unfold findByPath. simpl. by rewrite decide_True.
Qed.

Lemma moveUp_swaps (cat : option string) (e e' : FavoriteEntry)
    (l1 l2 l3 : list FavoriteEntry) :
  inPartition cat e = true ->
  inPartition cat e' = true ->
  outside cat l2 ->
  uniquePaths (l1 ++ e' :: l2 ++ e :: l3) ->
  moveUpItems (path e) cat (l1 ++ e' :: l2 ++ e :: l3)
  = Some (l1 ++ e :: l2 ++ e' :: l3).
Proof.
  intros He He' Hl2 Huniq. unfold uniquePaths in Huniq.
  rewrite fmap_app, fmap_cons, fmap_app, fmap_cons in Huniq.
  apply NoDup_app in Huniq as (_ & Hl1 & Huniq).
  apply NoDup_cons in Huniq as (He'rest & Huniq).
  apply NoDup_app in Huniq as (_ & Hl2e & _).
  assert (Hne : path e <> path e').
  { intros Heq. apply He'rest. rewrite <- Heq. apply elem_of_app. right. by left. }
  assert (He_l1 : path e ∉ path <$> l1).
  { intros Hin. apply (Hl1 _ Hin). right. apply elem_of_app. right. by left. }
  assert (He'_l1 : path e' ∉ path <$> l1).
  { intros Hin. apply (Hl1 _ Hin). by left. }
  assert (He_l2 : path e ∉ path <$> l2).
  { intros Hin. apply (Hl2e _ Hin). by left. }
  assert (Hsame : filter (sameCategoryAs cat) (l1 ++ e' :: l2 ++ e :: l3)
                  = (filter (sameCategoryAs cat) l1 ++ [e'])
                    ++ e :: filter (sameCategoryAs cat) l3).
  { rewrite filter_app, filter_cons_True, filter_app by done.
    rewrite (filter_outside _ _ Hl2), filter_cons_True by done.
    by rewrite <- app_assoc. }
  unfold moveUpItems. rewrite Hsame.
  rewrite findByPath_middle.
  2:{ rewrite fmap_app. intros [Hin|Hin]%elem_of_app.
      - by apply He_l1, (filter_paths_subset cat).
      - apply list_elem_of_singleton in Hin. done. }
  rewrite length_app. simpl. rewrite Nat.add_1_r.
  replace (l1 ++ e' :: l2 ++ e :: l3) with ((l1 ++ e' :: l2) ++ e :: l3) at 1
    by (by rewrite <- app_assoc).
  rewrite findByPath_middle.
  2:{ rewrite fmap_app, fmap_cons. intros [Hin|[Hin|Hin]%elem_of_cons]%elem_of_app; done. }
  rewrite <- app_assoc. simpl. rewrite list_lookup_middle by done.
  rewrite findByPath_middle by done.
  by rewrite swap_later_earlier.
Qed.

Lemma moveDown_last (cat : option string) (e : FavoriteEntry) (l1 l3 : list FavoriteEntry) :
  inPartition cat e = true ->
  outside cat l3 ->
  uniquePaths (l1 ++ e :: l3) ->
  moveDownItems (path e) cat (l1 ++ e :: l3) = None.
Proof.
  intros He Hl3 Huniq. unfold uniquePaths in Huniq.
  rewrite fmap_app, fmap_cons in Huniq.
  apply NoDup_app in Huniq as (_ & Hl1 & _).
  assert (He_l1 : path e ∉ path <$> l1).
  { intros Hin. apply (Hl1 _ Hin). by left. }
  unfold moveDownItems.
  rewrite filter_app, filter_cons_True, (filter_outside _ _ Hl3) by done.
  rewrite findByPath_middle.
  2:{ intros Hin. by apply He_l1, (filter_paths_subset cat). }
  rewrite length_app. simpl.
  replace (length (filter (sameCategoryAs cat) l1) + 1 - 1
           <=? length (filter (sameCategoryAs cat) l1))%nat with true; [done|].
  symmetry. apply Nat.leb_le. lia.
Qed.

Lemma moveDown_swaps (cat : option string) (e e' : FavoriteEntry)
    (l1 l2 l3 : list FavoriteEntry) :
  inPartition cat e = true ->
  inPartition cat e' = true ->
  outside cat l2 ->
  uniquePaths (l1 ++ e :: l2 ++ e' :: l3) ->
  moveDownItems (path e) cat (l1 ++ e :: l2 ++ e' :: l3)
  = Some (l1 ++ e' :: l2 ++ e :: l3).
Proof.
  intros He He' Hl2 Huniq. unfold uniquePaths in Huniq.
  rewrite fmap_app, fmap_cons, fmap_app, fmap_cons in Huniq.
  apply NoDup_app in Huniq as (_ & Hl1 & Huniq).
  apply NoDup_cons in Huniq as (Herest & Huniq).
  apply NoDup_app in Huniq as (_ & Hl2e & _).
  assert (Hne : path e' <> path e).
  { intros Heq. apply Herest. rewrite <- Heq. apply elem_of_app. right. by left. }
  assert (He_l1 : path e ∉ path <$> l1).
  { intros Hin. apply (Hl1 _ Hin). by left. }
  assert (He'_l1 : path e' ∉ path <$> l1).
  { intros Hin. apply (Hl1 _ Hin). right. apply elem_of_app. right. by left. }
  assert (He'_l2 : path e' ∉ path <$> l2).
  { intros Hin. apply (Hl2e _ Hin). by left. }
  assert (Hsame : filter (sameCategoryAs cat) (l1 ++ e :: l2 ++ e' :: l3)
                  = filter (sameCategoryAs cat) l1 ++ e :: e' :: filter (sameCategoryAs cat) l3).
  { rewrite filter_app, filter_cons_True, filter_app by done.
    by rewrite (filter_outside _ _ Hl2), filter_cons_True by done. }
  unfold moveDownItems. rewrite Hsame.
  rewrite findByPath_middle.
  2:{ intros Hin. by apply He_l1, (filter_paths_subset cat). }
  replace (length (filter (sameCategoryAs cat) l1
                   ++ e :: e' :: filter (sameCategoryAs cat) l3) - 1
           <=? length (filter (sameCategoryAs cat) l1))%nat
    with false.
  2:{ symmetry. apply Nat.leb_gt. rewrite length_app. simpl. lia. }
  rewrite findByPath_middle by done.
  replace (filter (sameCategoryAs cat) l1 ++ e :: e' :: filter (sameCategoryAs cat) l3)
    with ((filter (sameCategoryAs cat) l1 ++ [e])
          ++ e' :: filter (sameCategoryAs cat) l3) by (by rewrite <- app_assoc).
  replace (length (filter (sameCategoryAs cat) l1) + 1)%nat
    with (length (filter (sameCategoryAs cat) l1 ++ [e]))
    by (rewrite length_app; simpl; lia).
  rewrite list_lookup_middle by done.
  replace (l1 ++ e :: l2 ++ e' :: l3) with ((l1 ++ e :: l2) ++ e' :: l3) at 1
    by (by rewrite <- app_assoc).
  rewrite findByPath_middle.
  2:{ rewrite fmap_app, fmap_cons. intros [Hin|[Hin|Hin]%elem_of_cons]%elem_of_app; done. }
  by rewrite swap_earlier_later.
Qed.

End ReorderFacts.

(** C5: for a tree item of the entry [e], carrying [e]'s path and a category
    whose partition [e] belongs to, and a store with unique paths.  When no
    entry of the partition precedes [e], [moveUp] leaves the world as it is;
    when none follows [e], [moveDown] does.  Otherwise [e] and the nearest
    entry of the partition on that side, [e'], trade places in the stored
    sequence, and everything else (the entries [l2] of other categories
    between them included) stays where it was. *)
Theorem manual_reorder_within_partition :
  forall (FS : Type) (fsys : FileSystem FS) (resource : option TreeNode)
         (e : FavoriteEntry),
    let cat := nodeCategory resource in
    resourcePath resource = Some (path e) ->
    inPartition cat e = true ->
    (forall (w : World FS) l1 l3,
        items (provider w) = l1 ++ e :: l3 ->
        uniquePaths (items (provider w)) ->
        outside cat l1 ->
        cmd_moveUp resource w = w)
    /\ (forall (w : World FS) l1 l3,
           items (provider w) = l1 ++ e :: l3 ->
           uniquePaths (items (provider w)) ->
           outside cat l3 ->
           cmd_moveDown resource w = w)
    /\ (forall (w : World FS) l1 e' l2 l3,
           items (provider w) = l1 ++ e' :: l2 ++ e :: l3 ->
           uniquePaths (items (provider w)) ->
           inPartition cat e' = true ->
           outside cat l2 ->
           cmd_moveUp resource w
           = withProvider w (setItems (provider w) (l1 ++ e :: l2 ++ e' :: l3)))
    /\ (forall (w : World FS) l1 l2 e' l3,
           items (provider w) = l1 ++ e :: l2 ++ e' :: l3 ->
           uniquePaths (items (provider w)) ->
           inPartition cat e' = true ->
           outside cat l2 ->
           cmd_moveDown resource w
           = withProvider w (setItems (provider w) (l1 ++ e' :: l2 ++ e :: l3))).
Proof.
  intros FS fsys resource e cat Hpath Hin. subst cat.
  split_and!.
  - intros w l1 l3 Hits _ Hl1.
    unfold cmd_moveUp, reorder. rewrite Hpath, Hits.
    by rewrite (moveUp_first _ _ _ _ Hin Hl1).
  - intros w l1 l3 Hits Huniq Hl3.
    unfold cmd_moveDown, reorder. rewrite Hpath. rewrite Hits in Huniq |- *.
    by rewrite (moveDown_last _ _ _ _ Hin Hl3 Huniq).
  - intros w l1 e' l2 l3 Hits Huniq Hin' Hl2.
    unfold cmd_moveUp, reorder. rewrite Hpath. rewrite Hits in Huniq |- *.
    by rewrite (moveUp_swaps _ _ _ _ _ _ Hin Hin' Hl2 Huniq).
  - intros w l1 l2 e' l3 Hits Huniq Hin' Hl2.
    unfold cmd_moveDown, reorder. rewrite Hpath. rewrite Hits in Huniq |- *.
    by rewrite (moveDown_swaps _ _ _ _ _ _ Hin Hin' Hl2 Huniq).
Qed.

Module ReorderChecks.
Import SimFS ReorderExample.

(** Root entries [A] and [B] in manual order: [moveDown(A)] gives [[B; A]]
    and a [moveUp(A)] after it gives [[A; B]] back. *)
Example down_then_up :
  cmd_moveDown (Some nodeA) (stored [A; B]) = stored [B; A]
  /\ cmd_moveUp (Some nodeA) (cmd_moveDown (Some nodeA) (stored [A; B])) = stored [A; B].
Proof. split; reflexivity. Qed.

End ReorderChecks.

Lemma unique_three (p q r : string) : p <> q -> p <> r -> q <> r -> NoDup [p; q; r].
Proof.
  intros Hpq Hpr Hqr. repeat (apply NoDup_cons; split); try apply NoDup_nil_2.
  - intros [?|[?|[]%elem_of_nil]%elem_of_cons]%elem_of_cons; congruence.
  - intros [?|[]%elem_of_nil]%elem_of_cons; congruence.
  - apply not_elem_of_nil.
Qed.

Lemma manual_reorder_within_partition_witness :
  let A := ReorderExample.A in
  let B := ReorderExample.B in
  let K := ReorderExample.K in
  let nodeA := Some ReorderExample.nodeA in
  let stored := ReorderExample.stored in
  cmd_moveUp nodeA (stored [K; A; B]) = stored [K; A; B]
  /\ cmd_moveDown nodeA (stored [B; A; K]) = stored [B; A; K]
  /\ cmd_moveUp nodeA (stored [B; K; A]) = stored [A; K; B]
  /\ cmd_moveDown nodeA (stored [A; K; B]) = stored [B; K; A].
Proof.
  intros A B K nodeA stored.
  destruct (manual_reorder_within_partition SimFS.t SimFS.fileSystem nodeA A
              eq_refl eq_refl) as (Hfirst & Hlast & Hup & Hdown).
  assert (Houtside : outside None [K]) by (by repeat constructor).
  split_and!.
  - apply (Hfirst (stored [K; A; B]) [K] [B]); [reflexivity| |exact Houtside].
    by apply unique_three.
  - apply (Hlast (stored [B; A; K]) [B] [K]); [reflexivity| |exact Houtside].
    by apply unique_three.
  - apply (Hup (stored [B; K; A]) [] B [K] []); [reflexivity| |reflexivity|exact Houtside].
    by apply unique_three.
  - apply (Hdown (stored [A; K; B]) [] [K] B []); [reflexivity| |reflexivity|exact Houtside].
    by apply unique_three.
Defined.

(** ** The sort policy *)

Section JsSortSorted.
Context {A : Type} (cmp : A -> A -> Z).
Hypothesis cmp_total : forall a b, (cmp a b <= 0)%Z \/ (cmp b a <= 0)%Z.
Hypothesis cmp_trans : forall a b c, (cmp a b <= 0 -> cmp b c <= 0 -> cmp a c <= 0)%Z.

Lemma insertSorted_sorted (x : A) (l : list A) :
  StronglySorted (before cmp) l -> StronglySorted (before cmp) (insertSorted cmp x l).
Proof.
  induction 1 as [|y l Hsorted IH Hy]; simpl.
  - repeat constructor.
  - destruct (cmp x y <=? 0)%Z eqn:Hxy.
    + apply Z.leb_le in Hxy. constructor; [by constructor|].
      constructor; [done|]. eapply Forall_impl; [exact Hy|].
      intros z Hyz. by eapply cmp_trans.
    + apply Z.leb_gt in Hxy. constructor; [done|].
      rewrite insertSorted_perm. constructor; [|done].
      destruct (cmp_total y x) as [?|?]; [done|]. unfold before. lia.
Qed.

Lemma jsSort_sorted (l : list A) : StronglySorted (before cmp) (jsSort cmp l).
Proof.
  induction l as [|x l IH]; simpl; [constructor|]. by apply insertSorted_sorted.
Qed.

End JsSortSorted.

Lemma rev_sorted {A : Type} (R : relation A) (l : list A) :
  StronglySorted R l -> StronglySorted (flip R) (rev l).
Proof.
  induction 1 as [|x l Hsorted IH Hx]; simpl; [constructor|].
  apply StronglySorted_app. split_and!.
  - intros y z Hy ->%list_elem_of_singleton.
    apply list_elem_of_In, in_rev, list_elem_of_In in Hy.
    unfold flip. by eapply Forall_forall in Hx.
  - done.
  - repeat constructor.
Qed.

Section KeySort.
Context {A : Type} (key : A -> string).
Variable localeCompare : string -> string -> Z.
Hypothesis consistent : Consistent localeCompare.

Local Abbreviation byKey := (byKey key localeCompare).
Local Abbreviation byKeyReversed := (byKeyReversed key localeCompare).

Lemma localeCompare_total (a b : string) :
  (localeCompare a b <= 0)%Z \/ (localeCompare b a <= 0)%Z.
Proof.
  destruct (Z_le_gt_dec (localeCompare a b) 0) as [?|Hgt]; [by left|right].
  apply (consistent_flip _ consistent). lia.
Qed.

Lemma byKey_total (a b : A) : (byKey a b <= 0)%Z \/ (byKey b a <= 0)%Z.
Proof. apply localeCompare_total. Qed.

Lemma byKeyReversed_total (a b : A) :
  (byKeyReversed a b <= 0)%Z \/ (byKeyReversed b a <= 0)%Z.
Proof. apply localeCompare_total. Qed.

Lemma byKey_trans (a b c : A) :
  (byKey a b <= 0 -> byKey b c <= 0 -> byKey a c <= 0)%Z.
Proof. apply (consistent_trans _ consistent). Qed.

Lemma byKeyReversed_trans (a b c : A) :
  (byKeyReversed a b <= 0 -> byKeyReversed b c <= 0 -> byKeyReversed a c <= 0)%Z.
Proof. intros Hab Hbc. by eapply (consistent_trans _ consistent). Qed.

(** Among elements that the comparator tells apart, two elements that each
    may stand before the other are the same element. *)
Lemma byKeyReversed_antisym (l : list A) (a b : A) :
  noTies byKey l -> a ∈ l -> b ∈ l ->
  (byKeyReversed a b <= 0)%Z -> (byKeyReversed b a <= 0)%Z ->
  a = b.
Proof.
  intros Hapart Ha Hb Hab Hba. unfold byKeyReversed in *.
  assert (Hzero : localeCompare (key a) (key b) = 0%Z).
  { apply (consistent_flip _ consistent) in Hab. lia. }
  apply list_elem_of_lookup in Ha as [i Hi], Hb as [j Hj].
  assert (i = j) as -> by (by apply (Hapart i j a b)).
  congruence.
Qed.

Lemma sort_reversed_is_reverse (l : list A) :
  noTies byKey l ->
  jsSort byKeyReversed l = rev (jsSort byKey l).
Proof.
  intros Hapart.
  apply (StronglySorted_unique_strong (before byKeyReversed)).
  - intros a b Ha Hb Hab Hba.
    rewrite jsSort_perm in Ha. rewrite <- Permutation_rev, jsSort_perm in Hb.
    by eapply byKeyReversed_antisym.
  - apply jsSort_sorted; [apply byKeyReversed_total | apply byKeyReversed_trans].
  - apply (rev_sorted (before byKey)).
    apply jsSort_sorted; [apply byKey_total | apply byKey_trans].
  - rewrite jsSort_perm, <- Permutation_rev. by rewrite jsSort_perm.
Qed.

End KeySort.

(** A comparator that is zero on equal strings only tells apart the
    elements of a list with distinct names. *)
Lemma distinct_names_noTies {A : Type} (key : A -> string)
    (localeCompare : string -> string -> Z) (l : list A) :
  (forall a b, localeCompare a b = 0%Z -> a = b) ->
  NoDup (map key l) ->
  noTies (byKey key localeCompare) l.
Proof.
  intros Hzero Huniq i j a b Hi Hj Hab. apply Hzero in Hab.
  eapply (NoDup_lookup (key <$> l)); [exact Huniq|..].
  - rewrite list_lookup_fmap, Hi. simpl. by rewrite Hab.
  - by rewrite list_lookup_fmap, Hj.
Qed.

(** The comparator decides a sort only on the elements of the array. *)
Lemma insertSorted_ext {A : Type} (cmp cmp' : A -> A -> Z) (x : A) (l : list A) :
  (forall b, b ∈ l -> cmp x b = cmp' x b) ->
  insertSorted cmp x l = insertSorted cmp' x l.
Proof.
  induction l as [|y l IH]; intros Hsame; simpl; [done|].
  rewrite <- (Hsame y) by (by left).
  destruct (cmp x y <=? 0)%Z; [done|].
  f_equal. apply IH. intros b Hb. apply Hsame. by right.
Qed.

Lemma jsSort_ext {A : Type} (cmp cmp' : A -> A -> Z) (l : list A) :
  (forall a b, a ∈ l -> b ∈ l -> cmp a b = cmp' a b) ->
  jsSort cmp l = jsSort cmp' l.
Proof.
  induction l as [|x l IH]; intros Hsame; simpl; [done|].
  rewrite IH by (intros a b Ha Hb; apply Hsame; by right).
  apply insertSorted_ext. intros b Hb. rewrite jsSort_perm in Hb.
  apply Hsame; [by left | by right].
Qed.

Section SortPolicyFacts.
Context {FS : Type} `{FileSystem FS}.
Variable localeCompare : string -> string -> Z.
Variable toLowerCase : string -> string.
Hypothesis consistent : Consistent localeCompare.
Import JsString.

Lemma sort_descending_reverses_ascending (its : list FavoriteEntry) :
  noTies (ascending localeCompare toLowerCase) its ->
  jsSort (descending localeCompare toLowerCase) its
  = rev (jsSort (ascending localeCompare toLowerCase) its).
Proof. apply (sort_reversed_is_reverse (sortName toLowerCase) localeCompare consistent). Qed.

(** In a listing whose names are all directories, or all files, the
    comparator of [_getFilesystemChildren] is the comparison of the
    lower-cased names, one way round or the other. *)
Lemma childOrder_one_kind (d : FS) (dirPath : string) (names : list string) (isDir : bool) :
  Forall (fun item => listedAsDirectory d dirPath item = isDir) names ->
  jsSort (childOrder localeCompare toLowerCase d ASC dirPath) names
  = jsSort (byKey toLowerCase localeCompare) names
  /\ jsSort (childOrder localeCompare toLowerCase d DESC dirPath) names
     = jsSort (byKeyReversed toLowerCase localeCompare) names.
Proof.
  intros Hkind. rewrite Forall_forall in Hkind.
  split; apply jsSort_ext; intros a b Ha Hb; unfold childOrder;
    specialize (Hkind a Ha) as Hka; specialize (Hkind b Hb) as Hkb;
    unfold listedAsDirectory in Hka, Hkb;
    destruct (itemStat d dirPath a) as [[dirA ?] ?],
             (itemStat d dirPath b) as [[dirB ?] ?];
    simpl in Hka, Hkb; subst; by destruct isDir.
Qed.

Lemma listing_descending_reverses_ascending (d : FS) (dirPath : string)
    (names : list string) (isDir : bool) :
  readdirSync d dirPath = Some names ->
  let shown := filter (fun item => negb (startsWith item ".") = true) names in
  Forall (fun item => listedAsDirectory d dirPath item = isDir) shown ->
  noTies (byKey toLowerCase localeCompare) shown ->
  _getFilesystemChildren localeCompare toLowerCase d DESC dirPath
  = rev (_getFilesystemChildren localeCompare toLowerCase d ASC dirPath).
Proof.
  intros Hdir shown Hkind Hapart. unfold _getFilesystemChildren. rewrite Hdir.
  fold shown.
  destruct (childOrder_one_kind d dirPath shown isDir Hkind) as [-> ->].
  rewrite <- map_rev. f_equal.
  by apply sort_reversed_is_reverse.
Qed.

End SortPolicyFacts.

(** Code-point order is a consistent comparator, and it is zero on equal
    strings only. *)
Lemma codePointCompare_zero (a b : string) : codePointCompare a b = 0%Z -> a = b.
Proof.
  unfold codePointCompare.
  destruct (OrdersEx.String_as_OT.compare_spec a b); [done|discriminate..].
Qed.

Lemma codePointCompare_consistent : Consistent codePointCompare.
Proof.
  pose proof OrdersEx.String_as_OT.lt_strorder as [Hirr Htrans].
  assert (Hasym : forall a b, OrdersEx.String_as_OT.lt a b ->
                              OrdersEx.String_as_OT.lt b a -> False).
  { intros a b Hab Hba. exact (Hirr a (Htrans _ _ _ Hab Hba)). }
  split; unfold codePointCompare.
  - intros a b.
    destruct (OrdersEx.String_as_OT.compare_spec a b) as [Heq|Hab|Hab];
      destruct (OrdersEx.String_as_OT.compare_spec b a) as [Heq'|Hba|Hba];
      try lia; exfalso.
    + rewrite Heq in Hba. by eapply Hirr.
    + by eapply Hasym.
    + rewrite Heq' in Hab. by eapply Hirr.
    + by eapply Hasym.
  - intros a b c.
    destruct (OrdersEx.String_as_OT.compare_spec a b) as [Heq|Hab|Hab]; [| |lia].
    + by rewrite Heq.
    + destruct (OrdersEx.String_as_OT.compare_spec b c) as [Heq|Hbc|Hbc]; [| |lia].
      * intros _ _. rewrite <- Heq.
        destruct (OrdersEx.String_as_OT.compare_spec a b) as [?|?|Hba]; [lia..|].
        exfalso. by eapply Hasym.
      * intros _ _. pose proof (Htrans _ _ _ Hab Hbc) as Hac'.
        destruct (OrdersEx.String_as_OT.compare_spec a c) as [?|?|Hac]; [lia..|].
        exfalso. by eapply Hasym.
Qed.

(** So is the comparison of canonical forms, which is zero on different
    strings too. *)
Lemma canonicalCompare_consistent : Consistent canonicalCompare.
Proof.
  destruct codePointCompare_consistent as [Hflip Htrans].
  split; unfold canonicalCompare; intros; [apply Hflip | by eapply Htrans].
Qed.

(** C9, as the code has it: when [localeCompare] is a consistent comparator
    and is zero on no two entries of the input (on their lower-cased base
    names, [sortName]), [_sortItems] in descending mode returns the reverse
    of what it returns in ascending mode. *)
Theorem descending_is_reverse_of_ascending :
  forall (FS : Type) (fsys : FileSystem FS) (localeCompare : string -> string -> Z)
         (toLowerCase : string -> string)
         (d : FS) (its : list FavoriteEntry),
    Consistent localeCompare ->
    noTies (ascending localeCompare toLowerCase) its ->
    _sortItems localeCompare toLowerCase d DESC its
    = rev (_sortItems localeCompare toLowerCase d ASC its).
Proof.
  intros FS fsys lc lower d its Hconsistent Hapart.
  destruct its as [|e its]; [done|].
  by apply sort_descending_reverses_ascending.
Qed.

Module SortChecks.
Import SimFS SortExample.

Example names :
  map (sortName asciiLowerCase) favorites = ["main.js"; "docs"; "readme.md"; "alpha.js"].
Proof. reflexivity. Qed.

Example sorted_ascending :
  map path (_sortItems codePointCompare asciiLowerCase ([] : SimFS.t) ASC favorites)
  = ["/w/lib/alpha.js"; "/w/docs"; "/w/src/Main.js"; "/w/README.md"].
Proof. reflexivity. Qed.

Example sorted_descending :
  map path (_sortItems codePointCompare asciiLowerCase ([] : SimFS.t) DESC favorites)
  = ["/w/README.md"; "/w/src/Main.js"; "/w/docs"; "/w/lib/alpha.js"].
Proof. reflexivity. Qed.

(** The folder listing puts directories first in both modes: for a folder
    that holds both directories and files, the descending listing is not the
    reverse of the ascending one. *)
Example listing_not_reversed :
  map nodeLabel
    (_getFilesystemChildren codePointCompare asciiLowerCase ListingExample.disk0 ASC "/w")
  = ["src"; "a.txt"; "b.txt"]
  /\ map nodeLabel
       (_getFilesystemChildren codePointCompare asciiLowerCase ListingExample.disk0 DESC
          "/w")
     = ["src"; "b.txt"; "a.txt"].
Proof. split; reflexivity. Qed.

(** The two spellings of one name are different strings that compare
    equal. *)
Example equivalent_names :
  CanonExample.composed <> CanonExample.decomposed
  /\ canonicalCompare CanonExample.composed CanonExample.decomposed = 0%Z.
Proof. split; [discriminate | reflexivity]. Qed.

End SortChecks.

(** Distinct names, by evaluation. *)
Ltac distinct_strings :=
  vm_compute;
  repeat (apply NoDup_cons; split;
          [intros Hin; repeat (apply elem_of_cons in Hin as [Heq|Hin]; [discriminate|]);
           by apply elem_of_nil in Hin|]);
  apply NoDup_nil_2.

Lemma descending_is_reverse_of_ascending_witness :
  _sortItems codePointCompare asciiLowerCase ([] : SimFS.t) DESC SortExample.favorites
  = rev (_sortItems codePointCompare asciiLowerCase ([] : SimFS.t) ASC SortExample.favorites).
Proof.
  apply (descending_is_reverse_of_ascending SimFS.t SimFS.fileSystem codePointCompare
           asciiLowerCase [] SortExample.favorites codePointCompare_consistent).
  apply (distinct_names_noTies (sortName asciiLowerCase) codePointCompare);
    [apply codePointCompare_zero | distinct_strings].
Defined.

(** C9, at an input where the code departs from it: two entries whose base
    names are different strings, lower case both, that are canonically
    equivalent, so that [localeCompare] is zero on them.  The sort is stable:
    both modes leave the two entries in their stored order, and the
    descending result is not the reverse of the ascending one. *)
Lemma descending_is_not_reverse_of_ascending_on_ties :
  let its := CanonExample.favorites in
  NoDup (map (sortName asciiLowerCase) its)
  /\ _sortItems canonicalCompare asciiLowerCase ([] : SimFS.t) ASC its = its
  /\ _sortItems canonicalCompare asciiLowerCase ([] : SimFS.t) DESC its = its
  /\ _sortItems canonicalCompare asciiLowerCase ([] : SimFS.t) DESC its
     <> rev (_sortItems canonicalCompare asciiLowerCase ([] : SimFS.t) ASC its).
Proof.
  intros its. split_and!.
  - distinct_strings.
  - reflexivity.
  - reflexivity.
  - vm_compute. discriminate.
Qed.

(** ** Path persistence *)

Section PersistFacts.
Import JsString NodePath Persist.

(** A path that does not begin with the characters of the root is stored as
    it is, and an absolute one is loaded as it was stored. *)
Lemma outside_prefix_unchanged (root cwd p : string) :
  startsWith p root = false ->
  toRelativePath (Some root) cwd p = p
  /\ (isAbsolute p = true ->
      toAbsolutePath (Some root) (toRelativePath (Some root) cwd p) = p).
Proof.
  intros Hout. unfold toRelativePath, toAbsolutePath. rewrite Hout.
  destruct (negb (truthy root)); [done|].
  split; [done|]. by intros ->.
Qed.

Lemma prefix_refl (s : string) : String.prefix s s = true.
Proof.
  induction s as [|c s IH]; simpl; [done|].
  destruct (ascii_dec c c); [done | congruence].
Qed.

(** The root itself is stored as ["."] and loaded as the root. *)
Lemma root_sentinel (root cwd : string) :
  truthy root = true -> toRelativePath (Some root) cwd root = ".".
Proof.
  intros Htruthy. unfold toRelativePath, startsWith, relative.
  by rewrite Htruthy, prefix_refl, String.eqb_refl.
Qed.

End PersistFacts.

(** C6, at the input where [toRelativePath] departs from it: with the root
    [/w], the path [/work/a.txt] is absolute and is not inside the root, yet
    it begins with the characters of the root and is stored as the relative
    path [../work/a.txt], not as it is.  (Loading it gives the path back.) *)
Theorem sibling_of_root_is_stored_relative :
  let root := "/w" in
  let p := "/work/a.txt" in
  NodePath.isAbsolute p = true
  /\ insideRoot root p = false
  /\ JsString.startsWith p root = true
  /\ Persist.toRelativePath (Some root) "/" p = "../work/a.txt"
  /\ NodePath.isAbsolute (Persist.toRelativePath (Some root) "/" p) = false
  /\ Persist.toAbsolutePath (Some root) (Persist.toRelativePath (Some root) "/" p) = p.
Proof. split_and!; reflexivity. Qed.

(** *** Round trip of normal paths *)

Section RoundTrip.
Import JsString NodePath Persist.
Local Arguments String.append : simpl nomatch.

Lemma splitSlash_nonempty (s : string) : splitSlash s <> [].
Proof.
  induction s as [|c s IH]; simpl; [done|].
  destruct (Ascii.eqb c "/"); [done|]. by destruct (splitSlash s).
Qed.

Lemma splitSlash_app_slash (a b : string) :
  splitSlash (a +:+ String "/" b) = splitSlash a ++ splitSlash b.
Proof.
  induction a as [|c a IH]; simpl; [done|].
  destruct (Ascii.eqb c "/"); [by rewrite IH|].
  rewrite IH. pose proof (splitSlash_nonempty a). by destruct (splitSlash a).
Qed.

Lemma splitSlash_slashFree (s : string) : slashFree s = true -> splitSlash s = [s].
Proof.
  induction s as [|c s IH]; simpl; [done|].
  intros [Hc Hs]%andb_true_iff. apply negb_true_iff in Hc. rewrite Hc.
  by rewrite (IH Hs).
Qed.

Lemma plain_slashFree (s : string) : plain s = true -> slashFree s = true.
Proof. unfold plain. by intros [_ ?]%andb_true_iff. Qed.

Lemma splitSlash_joinSlash (seg : string) (segs : list string) :
  Forall (fun s => plain s = true) (seg :: segs) ->
  splitSlash (joinSlash (seg :: segs)) = seg :: segs.
Proof.
  revert seg. induction segs as [|seg' segs IH]; intros seg Hplain.
  - apply splitSlash_slashFree, plain_slashFree. by inversion Hplain.
  - inversion Hplain as [|? ? Hseg Hrest]; subst.
    change (joinSlash (seg :: seg' :: segs))
      with (seg +:+ String "/" (joinSlash (seg' :: segs))).
    rewrite splitSlash_app_slash, (IH _ Hrest).
    by rewrite (splitSlash_slashFree _ (plain_slashFree _ Hseg)).
Qed.

Lemma pushSegment_plain (allow : bool) (stack : list string) (seg : string) :
  plain seg = true -> pushSegment allow stack seg = seg :: stack.
Proof.
  unfold plain, pushSegment.
  intros [[[H1 H2]%andb_true_iff H3]%andb_true_iff _]%andb_true_iff.
  apply negb_true_iff in H1, H2, H3. by rewrite H1, H2, H3.
Qed.

Lemma push_plain_segments (allow : bool) (segs stack : list string) :
  Forall (fun s => plain s = true) segs ->
  fold_left (pushSegment allow) segs stack = rev segs ++ stack.
Proof.
  intros Hplain. revert stack.
  induction Hplain as [|seg segs Hseg _ IH]; intros stack; simpl; [done|].
  by rewrite (pushSegment_plain _ _ _ Hseg), IH, <- app_assoc.
Qed.

Lemma stackOf_absPath (segs : list string) :
  Forall (fun s => plain s = true) segs -> stackOf (absPath segs) = rev segs.
Proof.
  intros Hplain. unfold stackOf, absPath.
  change ("/" +:+ joinSlash segs) with ("" +:+ String "/" (joinSlash segs)).
  rewrite splitSlash_app_slash, fold_left_app. simpl.
  destruct segs as [|seg segs]; [done|].
  rewrite splitSlash_joinSlash by done.
  by rewrite push_plain_segments, app_nil_r.
Qed.

Lemma normalizeSegs_absPath (segs : list string) :
  Forall (fun s => plain s = true) segs -> normalizeSegs false (absPath segs) = segs.
Proof.
  intros Hplain. unfold normalizeSegs.
  change (fold_left _ _ _) with (stackOf (absPath segs)).
  by rewrite stackOf_absPath, rev_involutive.
Qed.

Lemma prefix_app (a b : string) : String.prefix a (a +:+ b) = true.
Proof.
  induction a as [|c a IH]; simpl; [by destruct b|].
  destruct (ascii_dec c c); [done | congruence].
Qed.

Lemma append_assoc (a b c : string) : (a +:+ b) +:+ c = a +:+ (b +:+ c).
Proof. induction a as [|x a IH]; simpl; [done|]. by rewrite IH. Qed.

Lemma joinSlash_app (rs : list string) (seg : string) (ps : list string) :
  rs <> [] ->
  joinSlash (rs ++ seg :: ps) = joinSlash rs +:+ String "/" (joinSlash (seg :: ps)).
Proof.
  induction rs as [|r rs IH]; [done|]. intros _.
  destruct rs as [|r' rs]; [done|].
  change (joinSlash ((r :: r' :: rs) ++ seg :: ps))
    with (r +:+ String "/" (joinSlash ((r' :: rs) ++ seg :: ps))).
  rewrite IH by done.
  change (joinSlash (r :: r' :: rs)) with (r +:+ String "/" (joinSlash (r' :: rs))).
  by rewrite append_assoc.
Qed.

(** The path below the root is the root, a separator, and the rest. *)
Lemma absPath_app (rs : list string) (seg : string) (ps : list string) :
  absPath (rs ++ seg :: ps)
  = match rs with
    | [] => "/" +:+ joinSlash (seg :: ps)
    | _ => absPath rs +:+ String "/" (joinSlash (seg :: ps))
    end.
Proof.
  destruct rs as [|r rs]; [done|].
  unfold absPath. by rewrite joinSlash_app.
Qed.

Lemma startsWith_root (rs ps : list string) :
  startsWith (absPath (rs ++ ps)) (absPath rs) = true.
Proof.
  unfold startsWith. destruct ps as [|seg ps].
  - rewrite app_nil_r. apply prefix_refl.
  - rewrite absPath_app. destruct rs as [|r rs]; [|apply prefix_app].
    unfold absPath. simpl. apply (prefix_app "/").
Qed.

Lemma dropCommon_prefix (rs ps : list string) : dropCommon rs (rs ++ ps) = ([], ps).
Proof.
  induction rs as [|r rs IH]; simpl; [by destruct ps|].
  by rewrite String.eqb_refl.
Qed.

Lemma joinSlash_truthy (seg : string) (segs : list string) :
  plain seg = true -> truthy (joinSlash (seg :: segs)) = true.
Proof.
  unfold plain. intros [[[Hne _]%andb_true_iff _]%andb_true_iff _]%andb_true_iff.
  destruct seg as [|c seg]; [done|]. by destruct segs.
Qed.

Lemma joinSlash_relative (seg : string) (segs : list string) :
  plain seg = true -> isAbsolute (joinSlash (seg :: segs)) = false.
Proof.
  unfold plain. intros [[[Hne _]%andb_true_iff _]%andb_true_iff Hfree]%andb_true_iff.
  destruct seg as [|c seg]; [done|]. simpl in Hfree.
  apply andb_true_iff in Hfree as [Hc _]. apply negb_true_iff in Hc.
  by destruct segs.
Qed.

Lemma revString_head (s acc : string) :
  match revString s acc with
  | String c _ => Ascii.eqb c "/"
  | EmptyString => false
  end
  = match s with
    | EmptyString => match acc with
                     | String c _ => Ascii.eqb c "/"
                     | EmptyString => false
                     end
    | _ => lastIsSlash s
    end.
Proof.
  revert acc. induction s as [|c s IH]; intros acc; [done|].
  simpl. rewrite IH. by destruct s.
Qed.

Lemma endsWithSlash_last (s : string) : endsWithSlash s = lastIsSlash s.
Proof. unfold endsWithSlash. rewrite revString_head. by destruct s. Qed.

Lemma lastIsSlash_app (a : string) (c : ascii) (b : string) :
  lastIsSlash (a +:+ String c b) = lastIsSlash (String c b).
Proof.
  induction a as [|x a IH]; [done|].
  change (String x a +:+ String c b) with (String x (a +:+ String c b)).
  cbn [lastIsSlash]. rewrite IH.
  by destruct a.
Qed.

Lemma lastIsSlash_slashFree (s : string) : slashFree s = true -> lastIsSlash s = false.
Proof.
  induction s as [|c s IH]; [done|]. simpl.
  intros [Hc Hs]%andb_true_iff. apply negb_true_iff in Hc.
  destruct s; [done|]. by apply IH.
Qed.

Lemma lastIsSlash_joinSlash (seg : string) (segs : list string) :
  Forall (fun s => plain s = true) (seg :: segs) ->
  lastIsSlash (joinSlash (seg :: segs)) = false.
Proof.
  revert seg. induction segs as [|seg' segs IH]; intros seg Hplain.
  - apply lastIsSlash_slashFree, plain_slashFree. by inversion Hplain.
  - inversion Hplain as [|? ? _ Hrest]; subst.
    change (joinSlash (seg :: seg' :: segs))
      with (seg +:+ String "/" (joinSlash (seg' :: segs))).
    rewrite lastIsSlash_app.
    specialize (IH _ Hrest).
    destruct (joinSlash (seg' :: segs)) eqn:Hjoin; [|done].
    inversion Hrest as [|? ? Hseg' _]; subst.
    pose proof (joinSlash_truthy seg' segs Hseg') as Htruthy.
    by rewrite Hjoin in Htruthy.
Qed.

Lemma stackOf_below (root rel : string) :
  fold_left (pushSegment false) (splitSlash (root +:+ String "/" rel)) []
  = fold_left (pushSegment false) (splitSlash rel) (stackOf root).
Proof. by rewrite splitSlash_app_slash, fold_left_app. Qed.

(** [path.normalize] of an absolute path with no trailing separator whose
    segments normalize to the plain segments [segs]. *)
Lemma normalize_absolute (t : string) (segs : list string) :
  lastIsSlash (String "/" t) = false ->
  normalizeSegs false (String "/" t) = segs ->
  Forall (fun s => plain s = true) segs ->
  normalize (String "/" t) = absPath segs.
Proof.
  intros Hlast Hsegs Hplain. unfold normalize, normalizeString.
  rewrite endsWithSlash_last, Hlast. simpl. rewrite Hsegs.
  destruct segs as [|seg segs]; [done|].
  inversion Hplain as [|? ? Hseg _]; subst.
  pose proof (joinSlash_truthy seg segs Hseg) as Htruthy.
  unfold truthy in Htruthy. apply negb_true_iff in Htruthy. by rewrite Htruthy.
Qed.

Lemma absPath_differs (rs : list string) (seg : string) (ps : list string) :
  Forall (fun s => plain s = true) rs ->
  Forall (fun s => plain s = true) (seg :: ps) ->
  String.eqb (absPath rs) (absPath (rs ++ seg :: ps)) = false.
Proof.
  intros Hrs Hps. apply String.eqb_neq. intros Heq.
  assert (Hall : Forall (fun s => plain s = true) (rs ++ seg :: ps))
    by (by apply Forall_app).
  apply (f_equal (normalizeSegs false)) in Heq.
  rewrite !normalizeSegs_absPath in Heq by done.
  apply (f_equal length) in Heq. rewrite length_app in Heq. simpl in Heq. lia.
Qed.

Lemma relative_below_root (cwd : string) (rs : list string) (seg : string)
    (ps : list string) :
  Forall (fun s => plain s = true) rs ->
  Forall (fun s => plain s = true) (seg :: ps) ->
  relative cwd (absPath rs) (absPath (rs ++ seg :: ps)) = joinSlash (seg :: ps).
Proof.
  intros Hrs Hps. unfold relative, resolveSegs.
  rewrite absPath_differs by done.
  change (isAbsolute (absPath rs)) with true.
  change (isAbsolute (absPath (rs ++ seg :: ps))) with true.
  rewrite !normalizeSegs_absPath by (done || by apply Forall_app).
  by rewrite dropCommon_prefix.
Qed.

(** Loading what was stored for the root, and for a path below it. *)
Lemma join_root_dot (rs : list string) :
  Forall (fun s => plain s = true) rs -> join (absPath rs) "." = absPath rs.
Proof.
  intros Hrs. unfold join.
  change (String.eqb (absPath rs) "") with false.
  change (String.eqb "." "") with false. cbn iota.
  change (absPath rs +:+ "/" +:+ ".") with (String "/" (joinSlash rs +:+ String "/" ".")).
  apply normalize_absolute; [| |done].
  - change (String "/" (joinSlash rs +:+ String "/" "."))
      with (String "/" (joinSlash rs) +:+ String "/" ".").
    by rewrite lastIsSlash_app.
  - unfold normalizeSegs.
    change (String "/" (joinSlash rs +:+ String "/" "."))
      with (absPath rs +:+ String "/" ".").
    rewrite stackOf_below, stackOf_absPath by done.
    simpl. change (pushSegment false (rev rs) ".") with (rev rs).
    by rewrite rev_involutive.
Qed.

Lemma join_root_below (rs : list string) (seg : string) (ps : list string) :
  Forall (fun s => plain s = true) rs ->
  Forall (fun s => plain s = true) (seg :: ps) ->
  join (absPath rs) (joinSlash (seg :: ps)) = absPath (rs ++ seg :: ps).
Proof.
  intros Hrs Hps.
  inversion Hps as [|? ? Hseg _]; subst.
  pose proof (joinSlash_truthy seg ps Hseg) as Htruthy.
  unfold truthy in Htruthy. apply negb_true_iff in Htruthy.
  unfold join. rewrite Htruthy.
  change (String.eqb (absPath rs) "") with false. cbn iota.
  change (absPath rs +:+ "/" +:+ joinSlash (seg :: ps))
    with (String "/" (joinSlash rs +:+ String "/" (joinSlash (seg :: ps)))).
  apply normalize_absolute; [| |by apply Forall_app].
  - change (String "/" (joinSlash rs +:+ String "/" (joinSlash (seg :: ps))))
      with (String "/" (joinSlash rs) +:+ String "/" (joinSlash (seg :: ps))).
    rewrite lastIsSlash_app.
    pose proof (lastIsSlash_joinSlash seg ps Hps) as Hlast.
    apply String.eqb_neq in Htruthy.
    by destruct (joinSlash (seg :: ps)).
  - unfold normalizeSegs.
    change (String "/" (joinSlash rs +:+ String "/" (joinSlash (seg :: ps))))
      with (absPath rs +:+ String "/" (joinSlash (seg :: ps))).
    rewrite stackOf_below, stackOf_absPath, splitSlash_joinSlash by done.
    rewrite push_plain_segments by done.
    by rewrite rev_app_distr, !rev_involutive.
Qed.

(** The round trip of the design document, for a root and a path in normal
    form: storing the path [/r1/.../rn/p1/.../pm] against the root
    [/r1/.../rn] and loading it again gives the path back; the root itself
    ([m = 0]) is stored as ["."]. *)
Lemma round_trip_under_root (cwd : string) (rs ps : list string) :
  Forall (fun s => plain s = true) rs ->
  Forall (fun s => plain s = true) ps ->
  toAbsolutePath (Some (absPath rs))
    (toRelativePath (Some (absPath rs)) cwd (absPath (rs ++ ps)))
  = absPath (rs ++ ps)
  /\ toRelativePath (Some (absPath rs)) cwd (absPath (rs ++ ps))
     = match ps with
       | [] => "."
       | _ => joinSlash ps
       end.
Proof.
  intros Hrs Hps. destruct ps as [|seg ps].
  - rewrite app_nil_r. rewrite root_sentinel by done.
    split; [|done]. unfold toAbsolutePath.
    change (negb (truthy (absPath rs))) with false.
    change (isAbsolute ".") with false. cbn iota.
    by apply join_root_dot.
  - assert (Hstored : toRelativePath (Some (absPath rs)) cwd (absPath (rs ++ seg :: ps))
                      = joinSlash (seg :: ps)).
    { unfold toRelativePath.
      change (negb (truthy (absPath rs))) with false. cbn iota.
      rewrite startsWith_root, relative_below_root by done.
      inversion Hps as [|? ? Hseg _]; subst.
      by rewrite (joinSlash_truthy seg ps Hseg). }
    rewrite Hstored. split; [|done]. unfold toAbsolutePath.
    change (negb (truthy (absPath rs))) with false. cbn iota.
    inversion Hps as [|? ? Hseg _]; subst.
    rewrite (joinSlash_relative seg ps Hseg).
    by apply join_root_below.
Qed.

End RoundTrip.

Example round_trip_src_file :
  Persist.toRelativePath (Some "/home/u/proj") "/" "/home/u/proj/src/a.txt" = "src/a.txt"
  /\ Persist.toAbsolutePath (Some "/home/u/proj") "src/a.txt" = "/home/u/proj/src/a.txt".
Proof. split; reflexivity. Qed.

(** A trailing separator is not restored: the round trip is about paths in
    normal form. *)
Example round_trip_trailing_separator :
  Persist.toAbsolutePath (Some "/w") (Persist.toRelativePath (Some "/w") "/" "/w/a/")
  = "/w/a".
Proof. reflexivity. Qed.

(** * Further properties of the code *)

(** X1: a clipboard path that no longer exists on disk is passed over, at
    whatever position of the batch and whatever the operation: the paths
    after it are processed from the disk and the store the paths before it
    left. *)
Theorem paste_skips_vanished_path :
  forall (FS : Type) (fsys : FileSystem FS) (op : option ClipOp) (targetDir : string)
         (before : list string) (sourcePath : string) (after : list string)
         (d0 d : FS) (its0 its : list FavoriteEntry),
    pasteLoop op targetDir before d0 its0 = (d, its, None) ->
    existsSync d sourcePath = false ->
    pasteLoop op targetDir (before ++ sourcePath :: after) d0 its0
    = pasteLoop op targetDir after d its.
Proof.
  intros FS fsys op targetDir before sourcePath after d0 d its0 its Hbefore Hgone.
  rewrite pasteLoop_app, Hbefore. by apply pasteLoop_skips_missing.
Qed.

Lemma paste_skips_vanished_path_witness :
  pasteLoop (Some Copy) "/w/dest" ([] ++ "/w/gone.txt" :: ["/w/b.txt"])
    CopyExample.disk0 []
  = pasteLoop (Some Copy) "/w/dest" ["/w/b.txt"] CopyExample.disk0 [].
Proof.
  apply (paste_skips_vanished_path SimFS.t SimFS.fileSystem (Some Copy) "/w/dest" []
           "/w/gone.txt" ["/w/b.txt"] CopyExample.disk0 CopyExample.disk0 [] []);
    reflexivity.
Defined.

(** X2: the mutators of the store that do not rewrite a path keep the paths
    of the entries unique: [addFavorite], [removeFavorite], [moveToCategory],
    [moveToRoot], [renameCategory] and [deleteCategory]. *)
Theorem store_mutators_keep_paths_unique :
  forall (p : Provider),
    uniquePaths (items p) ->
    (forall itemPath ty, uniquePaths (items (fst (fst (Store.addFavorite itemPath ty p)))))
    /\ (forall itemPath, uniquePaths (items (Store.removeFavorite itemPath p)))
    /\ (forall itemPath name, uniquePaths (items (Store.moveToCategory itemPath name p)))
    /\ (forall itemPath, uniquePaths (items (Store.moveToRoot itemPath p)))
    /\ (forall oldName newName, uniquePaths (items (Store.renameCategory oldName newName p)))
    /\ (forall name, uniquePaths (items (Store.deleteCategory name p))).
Proof.
  intros p Huniq. split_and!; intros.
  - by apply addFavorite_unique.
  - by apply removeFavorite_unique.
  - by apply moveToCategory_unique.
  - by apply moveToRoot_unique.
  - by apply renameCategory_unique.
  - by apply deleteCategory_unique.
Qed.

Lemma store_mutators_keep_paths_unique_witness :
  let p := {| items := UniquenessExample.favorites; categoryList := ["work"];
              sortOrder := MANUAL |} in
  uniquePaths (items (fst (fst (Store.addFavorite "/w/c.txt" File p))))
  /\ uniquePaths (items (fst (fst (Store.addFavorite "/w/a.txt" File p))))
  /\ uniquePaths (items (Store.removeFavorite "/w/a.txt" p))
  /\ uniquePaths (items (Store.moveToCategory "/w/b.txt" "work" p)).
Proof.
  intros p.
  assert (Huniq : uniquePaths (items p)).
  { unfold uniquePaths. simpl. apply NoDup_cons. split; [|apply NoDup_singleton].
    intros [Heq|[]%elem_of_nil]%elem_of_cons. discriminate. }
  destruct (store_mutators_keep_paths_unique p Huniq) as (Hadd & Hremove & Hmove & _).
  split_and!; [apply Hadd | apply Hadd | apply Hremove | apply Hmove].
Defined.

(** X3: the round trip of path persistence, for a root and a path in normal
    form: storing [/r1/.../rn/p1/.../pm] against the root [/r1/.../rn] and
    loading it again gives the path back.  What is stored is [p1/.../pm], and
    ["."] for the root itself. *)
Theorem persisted_path_round_trip :
  forall (cwd : string) (rs ps : list string),
    Forall (fun s => plain s = true) rs ->
    Forall (fun s => plain s = true) ps ->
    Persist.toAbsolutePath (Some (absPath rs))
      (Persist.toRelativePath (Some (absPath rs)) cwd (absPath (rs ++ ps)))
    = absPath (rs ++ ps)
    /\ Persist.toRelativePath (Some (absPath rs)) cwd (absPath (rs ++ ps))
       = match ps with
         | [] => "."
         | _ => JsString.joinSlash ps
         end.
Proof. intros cwd rs ps Hrs Hps. by apply round_trip_under_root. Qed.

Lemma persisted_path_round_trip_witness :
  Persist.toAbsolutePath (Some "/home/u/proj")
    (Persist.toRelativePath (Some "/home/u/proj") "/tmp" "/home/u/proj/src/a.txt")
  = "/home/u/proj/src/a.txt"
  /\ Persist.toRelativePath (Some "/home/u/proj") "/tmp" "/home/u/proj/src/a.txt"
     = "src/a.txt".
Proof.
  apply (persisted_path_round_trip "/tmp" ["home"; "u"; "proj"] ["src"; "a.txt"]);
    repeat constructor.
Defined.

(** X4: the folder listing within one group.  When [localeCompare] is a
    consistent comparator, the names a folder listing shows are all
    directories, or all files, and [localeCompare] is zero on no two of
    their lower-cased forms, the listing in descending mode is the reverse
    of the listing in ascending mode. *)
Theorem listing_descending_is_reverse_within_a_group :
  forall (FS : Type) (fsys : FileSystem FS) (localeCompare : string -> string -> Z)
         (toLowerCase : string -> string)
         (d : FS) (dirPath : string) (names : list string) (isDir : bool),
    Consistent localeCompare ->
    readdirSync d dirPath = Some names ->
    let shown := filter (fun item => negb (JsString.startsWith item ".") = true) names in
    Forall (fun item => listedAsDirectory d dirPath item = isDir) shown ->
    noTies (byKey toLowerCase localeCompare) shown ->
    _getFilesystemChildren localeCompare toLowerCase d DESC dirPath
    = rev (_getFilesystemChildren localeCompare toLowerCase d ASC dirPath).
Proof.
  intros FS fsys lc lower d dirPath names isDir Hconsistent Hdir shown Hkind Hapart.
  by eapply listing_descending_reverses_ascending.
Qed.

Lemma listing_descending_is_reverse_within_a_group_witness :
  _getFilesystemChildren codePointCompare asciiLowerCase ListingExample.disk1 DESC "/w/src"
  = rev (_getFilesystemChildren codePointCompare asciiLowerCase ListingExample.disk1 ASC
           "/w/src").
Proof.
  apply (listing_descending_is_reverse_within_a_group SimFS.t SimFS.fileSystem
           codePointCompare asciiLowerCase ListingExample.disk1 "/w/src"
           ["main.js"; ".eslintrc"; "Util.js"; "index.js"] false
           codePointCompare_consistent).
  - reflexivity.
  - by repeat constructor.
  - apply (distinct_names_noTies asciiLowerCase codePointCompare);
      [apply codePointCompare_zero | distinct_strings].
Defined.



(** ** The store *)

Section StoreMoreFacts.
Import Store.

Lemma provider_eta (p : Provider) :
  {| items := items p; categoryList := categoryList p; sortOrder := sortOrder p |} = p.
Proof. by destruct p. Qed.

Lemma existsb_name (name : string) (cs : list string) :
  existsb (String.eqb name) cs = true <-> name ∈ cs.
Proof.
  rewrite existsb_exists. split.
  - intros (x & Hin & ->%String.eqb_eq). by apply list_elem_of_In.
  - intros Hin. exists name. split; [by apply list_elem_of_In | apply String.eqb_refl].
Qed.

Lemma filter_all {A : Type} (P : A -> Prop) `{forall x, Decision (P x)} (l : list A) :
  Forall P l -> filter P l = l.
Proof.
  induction 1 as [|x l Hx _ IH]; [done|].
  rewrite filter_cons_True by done. by rewrite IH.
Qed.

(** Under unique paths, [removeFavorite] drops exactly the entry with that
    path. *)
Lemma removeFavorite_filter (itemPath : string) (p : Provider) :
  uniquePaths (items p) ->
  items (removeFavorite itemPath p) = filter (fun e => path e <> itemPath) (items p).
Proof.
  intros Huniq. unfold removeFavorite.
  destruct (findByPath itemPath (items p)) as [[index e]|] eqn:Hfind.
  - destruct (findByPath_split _ _ _ _ Hfind) as (l1 & l2 & Hits & -> & Hpath & Hl1).
    simpl. rewrite Hits in Huniq |- *. rewrite delete_middle.
    unfold uniquePaths in Huniq. rewrite fmap_app, fmap_cons in Huniq.
    apply NoDup_app in Huniq as (_ & Hdisj & [Hl2 _]%NoDup_cons).
    rewrite filter_app, filter_cons_False by (intros Hne; by apply Hne).
    rewrite !filter_all; [done|..].
    + apply Forall_forall. intros x Hx Heq. apply Hl2. rewrite Hpath, <- Heq.
      by apply list_elem_of_fmap_2.
    + apply Forall_forall. intros x Hx Heq. apply Hl1. rewrite <- Heq.
      by apply list_elem_of_fmap_2.
  - symmetry. apply filter_all. by apply list_find_None in Hfind.
Qed.

Lemma addFavorite_untracked (itemPath : string) (ty : ItemType) (p : Provider) :
  itemPath ∉ path <$> items p ->
  addFavorite itemPath ty p
  = (setItems p (items p ++ [{| path := itemPath; type := ty; category := None |}]),
     [], true).
Proof.
  intros Hfresh. unfold addFavorite.
  destruct (existsb _ _) eqn:Hdup; [|done].
  by apply existsb_path in Hdup.
Qed.

Lemma addFavorite_tracked (itemPath : string) (ty : ItemType) (p : Provider) :
  itemPath ∈ path <$> items p ->
  addFavorite itemPath ty p
  = (p, [Information ("Already in favorites: " +:+ NodePath.basename itemPath)], false).
Proof.
  intros Htracked. unfold addFavorite.
  apply existsb_path in Htracked. by rewrite Htracked.
Qed.

Lemma remove_after_add (itemPath : string) (ty : ItemType) (p : Provider) :
  itemPath ∉ path <$> items p ->
  removeFavorite itemPath (fst (fst (addFavorite itemPath ty p))) = p.
Proof.
  intros Hfresh. rewrite addFavorite_untracked by done. simpl.
  unfold removeFavorite. simpl.
  set (e := {| path := itemPath; type := ty; category := None |}).
  change itemPath with (path e) at 1.
  rewrite findByPath_middle by done.
  unfold setItems. simpl. rewrite delete_middle, app_nil_r. apply provider_eta.
Qed.

Lemma elem_of_insert_other {A : Type} (l : list A) (i : nat) (old new c : A) :
  l !! i = Some old -> c <> old -> c ∈ l -> c ∈ <[i := new]> l.
Proof.
  intros Hi Hne (j & Hj)%list_elem_of_lookup.
  apply list_elem_of_lookup. exists j.
  rewrite list_lookup_insert_ne; [done|]. intros ->. congruence.
Qed.

Lemma elem_of_delete_other {A : Type} (l : list A) (i : nat) (old c : A) :
  l !! i = Some old -> c <> old -> c ∈ l -> c ∈ delete i l.
Proof.
  intros Hi Hne (j & Hj)%list_elem_of_lookup.
  apply list_elem_of_lookup.
  destruct (decide (j < i)) as [Hlt|Hge].
  - exists j. by rewrite list_lookup_delete_lt.
  - assert (j <> i) by (intros ->; congruence).
    exists (j - 1)%nat. rewrite list_lookup_delete_ge by lia.
    by replace (S (j - 1)) with j by lia.
Qed.

Lemma indexOf_Some (name : string) (cs : list string) :
  name ∈ cs -> exists index, indexOf name cs = Some index /\ cs !! index = Some name.
Proof.
  intros Hin. unfold indexOf.
  destruct (list_find_elem_of (fun c => c = name) cs name Hin eq_refl) as [[i c] Hfind].
  rewrite Hfind. exists i. split; [done|].
  by apply list_find_Some in Hfind as (? & -> & _).
Qed.

Lemma indexOf_lookup (name : string) (cs : list string) (index : nat) :
  indexOf name cs = Some index -> cs !! index = Some name.
Proof.
  unfold indexOf. destruct (list_find _ cs) as [[i c]|] eqn:Hfind; [|done].
  intros [= <-]. by apply list_find_Some in Hfind as (? & -> & _).
Qed.

Lemma addFavorite_listed (itemPath : string) (ty : ItemType) (p : Provider) :
  categoriesListed p -> categoriesListed (fst (fst (addFavorite itemPath ty p))).
Proof.
  intros Hlisted. unfold addFavorite. destruct (existsb _ _); [done|].
  intros item c [Hin|Hin]%elem_of_app Hc; simpl in *.
  - by eapply Hlisted.
  - apply list_elem_of_singleton in Hin. by subst.
Qed.

Lemma removeFavorite_listed (itemPath : string) (p : Provider) :
  categoriesListed p -> categoriesListed (removeFavorite itemPath p).
Proof.
  intros Hlisted. unfold removeFavorite.
  destruct (findByPath _ _) as [[index e]|]; [|done].
  intros item c Hin Hc. simpl in *. eapply Hlisted; [|done].
  eapply elem_of_sublist; [exact Hin | apply sublist_delete].
Qed.

Lemma addCategory_listed (name : string) (p : Provider) :
  categoriesListed p -> categoriesListed (addCategory name p).
Proof.
  intros Hlisted. unfold addCategory. destruct (existsb _ _); [done|].
  intros item c Hin Hc. simpl in *. apply elem_of_app. left. by eapply Hlisted.
Qed.

Lemma elem_of_insert_cases {A : Type} (l : list A) (i : nat) (x y : A) :
  y ∈ <[i := x]> l -> y = x \/ y ∈ l.
Proof.
  intros (j & Hj)%list_elem_of_lookup.
  destruct (decide (i = j)) as [->|Hne].
  - destruct (decide (j < length l)) as [Hlt|Hge].
    + rewrite list_lookup_insert_eq in Hj by done. left. congruence.
    + rewrite list_insert_ge in Hj by lia. right. by eapply list_elem_of_lookup_2.
  - rewrite list_lookup_insert_ne in Hj by done. right. by eapply list_elem_of_lookup_2.
Qed.

Lemma moveToCategory_listed (itemPath name : string) (p : Provider) :
  categoriesListed p -> categoriesListed (moveToCategory itemPath name p).
Proof.
  intros Hlisted. unfold moveToCategory.
  destruct (findByPath _ _) as [[index e]|]; [|done].
  assert (Hname : forall c, c ∈ categoryList p ->
            c ∈ (if existsb (String.eqb name) (categoryList p)
                 then categoryList p else categoryList p ++ [name])).
  { intros c Hc. destruct (existsb _ _); [done|]. apply elem_of_app. by left. }
  intros item c Hin Hc. simpl in *.
  apply elem_of_insert_cases in Hin as [->|Hin].
  - simpl in Hc. injection Hc as <-.
    destruct (existsb _ _) eqn:Hex; [by apply existsb_name|].
    apply elem_of_app. right. by left.
  - apply Hname. by eapply Hlisted.
Qed.

Lemma moveToRoot_listed (itemPath : string) (p : Provider) :
  categoriesListed p -> categoriesListed (moveToRoot itemPath p).
Proof.
  intros Hlisted. unfold moveToRoot.
  destruct (findByPath _ _) as [[index e]|]; [|done].
  intros item c Hin Hc. simpl in *.
  apply elem_of_insert_cases in Hin as [->|Hin]; [done|]. by eapply Hlisted.
Qed.

Lemma renameCategory_listed (oldName newName : string) (p : Provider) :
  categoriesListed p -> categoriesListed (renameCategory oldName newName p).
Proof.
  intros Hlisted item' c Hin Hc. unfold renameCategory in *. simpl in *.
  apply list_elem_of_In, in_map_iff in Hin as (item & <- & Hin%list_elem_of_In).
  destruct (decide (category item = Some oldName)) as [Hold|Hother].
  - simpl in Hc. injection Hc as <-.
    destruct (indexOf_Some oldName (categoryList p)) as (index & -> & Hindex);
      [by eapply Hlisted|].
    apply list_elem_of_insert. by eapply lookup_lt_Some.
  - pose proof (Hlisted item c Hin Hc) as Hlist.
    destruct (indexOf oldName (categoryList p)) as [index|] eqn:Hindex; [|done].
    eapply elem_of_insert_other; [by apply indexOf_lookup| |done].
    intros ->. congruence.
Qed.

Lemma deleteCategory_listed (name : string) (p : Provider) :
  categoriesListed p -> categoriesListed (deleteCategory name p).
Proof.
  intros Hlisted item' c Hin Hc. unfold deleteCategory in *. simpl in *.
  apply list_elem_of_In, in_map_iff in Hin as (item & <- & Hin%list_elem_of_In).
  destruct (decide (category item = Some name)) as [Hold|Hother]; [done|].
  pose proof (Hlisted item c Hin Hc) as Hlist.
  destruct (indexOf name (categoryList p)) as [index|] eqn:Hindex; [|done].
  eapply elem_of_delete_other; [by apply indexOf_lookup| |done].
  intros ->. congruence.
Qed.

Lemma retarget_categories (sourcePath destPath : string) (its : list FavoriteEntry) :
  category <$> retarget sourcePath destPath its = category <$> its
  /\ type <$> retarget sourcePath destPath its = type <$> its
  /\ length (retarget sourcePath destPath its) = length its.
Proof.
  unfold retarget. destruct (findByPath _ _) as [[index e]|] eqn:Hfind; [|done].
  apply list_find_Some in Hfind as (Hlookup & _).
  rewrite !list_fmap_insert, length_insert. simpl.
  split_and!; [| |done]; apply list_insert_id; by rewrite list_lookup_fmap, Hlookup.
Qed.

Lemma NoDup_snoc {A : Type} (l : list A) (x : A) : NoDup l -> x ∉ l -> NoDup (l ++ [x]).
Proof.
  intros Hl Hx. apply NoDup_app. split_and!; [done| |apply NoDup_singleton].
  intros y Hy ->%list_elem_of_singleton. done.
Qed.

Lemma NoDup_insert_fresh {A : Type} (l : list A) (i : nat) (x : A) :
  NoDup l -> x ∉ l -> NoDup (<[i := x]> l).
Proof.
  intros Hl Hx. destruct (l !! i) as [old|] eqn:Hi.
  - destruct (list_elem_of_split_length _ _ _ Hi) as (l1 & l2 & -> & ->).
    rewrite insert_middle.
    apply NoDup_app in Hl as (Hl1 & Hdisj & [_ Hl2]%NoDup_cons).
    apply NoDup_app. split_and!; [done| |].
    + intros y Hy [->|Hy2]%elem_of_cons.
      * apply Hx. apply elem_of_app. by left.
      * apply (Hdisj y Hy). by right.
    + apply NoDup_cons. split; [|done].
      intros Hin. apply Hx. apply elem_of_app. right. by right.
  - rewrite list_insert_ge; [done|]. by apply lookup_ge_None.
Qed.

Lemma addCategory_names_unique (name : string) (p : Provider) :
  NoDup (categoryList p) -> NoDup (categoryList (addCategory name p)).
Proof.
  intros Huniq. unfold addCategory. destruct (existsb _ _) eqn:Hex; [done|].
  simpl. apply NoDup_snoc; [done|]. intros Hin%existsb_name. congruence.
Qed.

Lemma moveToCategory_names_unique (itemPath name : string) (p : Provider) :
  NoDup (categoryList p) -> NoDup (categoryList (moveToCategory itemPath name p)).
Proof.
  intros Huniq. unfold moveToCategory.
  destruct (findByPath _ _) as [[index e]|]; [|done].
  simpl. destruct (existsb _ _) eqn:Hex; [done|].
  apply NoDup_snoc; [done|]. intros Hin%existsb_name. congruence.
Qed.

Lemma deleteCategory_names_unique (name : string) (p : Provider) :
  NoDup (categoryList p) ->
  NoDup (categoryList (deleteCategory name p))
  /\ (name ∉ categoryList (deleteCategory name p)).
Proof.
  intros Huniq. unfold deleteCategory. simpl.
  destruct (indexOf name (categoryList p)) as [index|] eqn:Hindex.
  - apply indexOf_lookup in Hindex.
    destruct (list_elem_of_split_length _ _ _ Hindex) as (l1 & l2 & Hl & ->).
    rewrite Hl in Huniq |- *. rewrite delete_middle.
    apply NoDup_app in Huniq as (Hl1 & Hdisj & [Hl2 Hl2']%NoDup_cons).
    split.
    + apply NoDup_app. split_and!; [done| |done].
      intros y Hy Hy2. apply (Hdisj y Hy). by right.
    + intros [Hin|Hin]%elem_of_app; [|done]. apply (Hdisj name Hin). by left.
  - split; [done|]. intros Hin.
    destruct (indexOf_Some name _ Hin) as (index & Hsome & _). congruence.
Qed.

Lemma renameCategory_names_unique (oldName newName : string) (p : Provider) :
  NoDup (categoryList p) ->
  newName ∉ categoryList p ->
  NoDup (categoryList (renameCategory oldName newName p)).
Proof.
  intros Huniq Hfresh. unfold renameCategory. simpl.
  destruct (indexOf _ _); [|done]. by apply NoDup_insert_fresh.
Qed.

End StoreMoreFacts.

(** X5: adding a path that is not tracked appends one root entry and
    returns [true], and removing that path again gives the provider back;
    adding a path that is tracked returns [false] and leaves the provider as
    it was. *)
Theorem add_remove_favorite_round_trip :
  forall (p : Provider) (itemPath : string) (ty : ItemType),
    (itemPath ∉ path <$> items p ->
     Store.addFavorite itemPath ty p
     = (setItems p (items p ++ [{| path := itemPath; type := ty; category := None |}]),
        [], true)
     /\ Store.removeFavorite itemPath (fst (fst (Store.addFavorite itemPath ty p))) = p)
    /\ (itemPath ∈ path <$> items p ->
        fst (fst (Store.addFavorite itemPath ty p)) = p
        /\ snd (Store.addFavorite itemPath ty p) = false).
Proof.
  intros p itemPath ty. split.
  - intros Hfresh. split; [by apply addFavorite_untracked | by apply remove_after_add].
  - intros Htracked. by rewrite addFavorite_tracked.
Qed.

Lemma add_remove_favorite_round_trip_witness :
  Store.removeFavorite "/w/c.txt"
    (fst (fst (Store.addFavorite "/w/c.txt" File StoreExample.p0)))
  = StoreExample.p0
  /\ snd (Store.addFavorite "/w/a.txt" File StoreExample.p0) = false.
Proof.
  destruct (add_remove_favorite_round_trip StoreExample.p0 "/w/c.txt" File) as [Hnew _].
  destruct (add_remove_favorite_round_trip StoreExample.p0 "/w/a.txt" File) as [_ Hold].
  split.
  - apply Hnew. vm_compute.
    intros Hin. repeat (apply elem_of_cons in Hin as [Heq|Hin]; [discriminate|]).
    by apply elem_of_nil in Hin.
  - apply Hold. vm_compute. by left.
Defined.

(** X6: in a store with unique paths, [removeFavorite] drops the entry with
    that path and nothing else: what is left are the entries with another
    path, in their order (all of them when the path is not tracked). *)
Theorem removeFavorite_drops_exactly_its_entry :
  forall (p : Provider) (itemPath : string),
    uniquePaths (items p) ->
    items (Store.removeFavorite itemPath p)
    = filter (fun e => path e <> itemPath) (items p)
    /\ categoryList (Store.removeFavorite itemPath p) = categoryList p.
Proof.
  intros p itemPath Huniq. split; [by apply removeFavorite_filter|].
  unfold Store.removeFavorite. by destruct (Store.findByPath _ _) as [[? ?]|].
Qed.

Lemma removeFavorite_drops_exactly_its_entry_witness :
  items (Store.removeFavorite "/w/a.txt" StoreExample.p0)
  = [{| path := "/w/b"; type := Folder; category := Some "work" |}]
  /\ categoryList (Store.removeFavorite "/w/a.txt" StoreExample.p0) = ["work"; "docs"].
Proof.
  apply (removeFavorite_drops_exactly_its_entry StoreExample.p0 "/w/a.txt").
  unfold uniquePaths. simpl. apply NoDup_cons. split; [|apply NoDup_singleton].
  intros [Heq|[]%elem_of_nil]%elem_of_cons. discriminate.
Defined.

(** X7: every mutator of the store keeps the categories of the entries
    among the names of the category list: [addFavorite], [removeFavorite],
    [addCategory], [moveToCategory], [moveToRoot], [renameCategory] and
    [deleteCategory]. *)
Theorem store_mutators_keep_categories_listed :
  forall (p : Provider),
    categoriesListed p ->
    (forall itemPath ty, categoriesListed (fst (fst (Store.addFavorite itemPath ty p))))
    /\ (forall itemPath, categoriesListed (Store.removeFavorite itemPath p))
    /\ (forall name, categoriesListed (Store.addCategory name p))
    /\ (forall itemPath name, categoriesListed (Store.moveToCategory itemPath name p))
    /\ (forall itemPath, categoriesListed (Store.moveToRoot itemPath p))
    /\ (forall oldName newName, categoriesListed (Store.renameCategory oldName newName p))
    /\ (forall name, categoriesListed (Store.deleteCategory name p)).
Proof.
  intros p Hlisted. split_and!; intros.
  - by apply addFavorite_listed.
  - by apply removeFavorite_listed.
  - by apply addCategory_listed.
  - by apply moveToCategory_listed.
  - by apply moveToRoot_listed.
  - by apply renameCategory_listed.
  - by apply deleteCategory_listed.
Qed.

Lemma p0_categories_listed : categoriesListed StoreExample.p0.
Proof.
  intros item c Hin Hc. simpl in Hin.
  apply elem_of_cons in Hin as [->|Hin]; [done|].
  apply list_elem_of_singleton in Hin as ->. injection Hc as <-. by left.
Qed.

Lemma store_mutators_keep_categories_listed_witness :
  categoriesListed (Store.moveToCategory "/w/a.txt" "new" StoreExample.p0)
  /\ categoriesListed (Store.renameCategory "work" "job" StoreExample.p0)
  /\ categoriesListed (Store.deleteCategory "work" StoreExample.p0).
Proof.
  destruct (store_mutators_keep_categories_listed StoreExample.p0 p0_categories_listed)
    as (_ & _ & _ & Hmove & _ & Hrename & Hdelete).
  split_and!; [apply Hmove | apply Hrename | apply Hdelete].
Defined.

(** X8: the names of the category list stay pairwise distinct under
    [addCategory], [moveToCategory] and [deleteCategory], and under
    [renameCategory] when the new name is not a name of the list; after
    [deleteCategory] the name is gone from the list. *)
Theorem category_names_stay_unique :
  forall (p : Provider),
    NoDup (categoryList p) ->
    (forall name, NoDup (categoryList (Store.addCategory name p)))
    /\ (forall itemPath name, NoDup (categoryList (Store.moveToCategory itemPath name p)))
    /\ (forall name, NoDup (categoryList (Store.deleteCategory name p))
                    /\ (name ∉ categoryList (Store.deleteCategory name p)))
    /\ (forall oldName newName,
           newName ∉ categoryList p ->
           NoDup (categoryList (Store.renameCategory oldName newName p))).
Proof.
  intros p Huniq. split_and!; intros.
  - by apply addCategory_names_unique.
  - by apply moveToCategory_names_unique.
  - by apply deleteCategory_names_unique.
  - by apply renameCategory_names_unique.
Qed.

Lemma category_names_stay_unique_witness :
  NoDup (categoryList (Store.addCategory "docs" StoreExample.p0))
  /\ NoDup (categoryList (Store.moveToCategory "/w/a.txt" "new" StoreExample.p0))
  /\ ("work" ∉ categoryList (Store.deleteCategory "work" StoreExample.p0))
  /\ NoDup (categoryList (Store.renameCategory "work" "job" StoreExample.p0)).
Proof.
  assert (Huniq : NoDup (categoryList StoreExample.p0)).
  { simpl. apply NoDup_cons. split; [|apply NoDup_singleton].
    intros [Heq|[]%elem_of_nil]%elem_of_cons. discriminate. }
  destruct (category_names_stay_unique StoreExample.p0 Huniq)
    as (Hadd & Hmove & Hdelete & Hrename).
  split_and!; [apply Hadd | apply Hmove | apply Hdelete | apply Hrename].
  simpl. intros Hin. repeat (apply elem_of_cons in Hin as [Heq|Hin]; [discriminate|]).
  by apply elem_of_nil in Hin.
Defined.

(** ** Paste, drop and rename *)

Section HandlerFrames.
Context {FS : Type} `{FileSystem FS}.
Import JsString NodePath.

(** Whatever the loop of the paste handler does, the store keeps its
    length, and the type and the category at every position. *)
Lemma pasteLoop_frame (op : option ClipOp) (targetDir : string) (paths : list string)
    (d : FS) (its : list FavoriteEntry) :
  let its' := snd (fst (pasteLoop op targetDir paths d its)) in
  length its' = length its
  /\ type <$> its' = type <$> its
  /\ category <$> its' = category <$> its.
Proof.
  revert d its. induction paths as [|sourcePath rest IH]; intros d its; simpl; [done|].
  destruct (negb (existsSync d sourcePath)); [apply IH|].
  destruct op as [[|]|].
  - destruct (renameSync _ _ _) as [d'|d' msg]; [|done].
    destruct (IH d' (retarget sourcePath (join targetDir (basename sourcePath)) its))
      as (Hlen & Hty & Hcat).
    destruct (retarget_categories sourcePath (join targetDir (basename sourcePath)) its)
      as (Hcat' & Hty' & Hlen').
    split_and!; congruence.
  - destruct (copyNoOverwrite _ _ _); [apply IH | done].
  - destruct (copyNoOverwrite _ _ _); [apply IH | done].
Qed.

(** Only the cut branch writes to the store. *)
Lemma pasteLoop_copy_keeps_items (op : option ClipOp) (targetDir : string)
    (paths : list string) (d : FS) (its : list FavoriteEntry) :
  op <> Some Cut -> snd (fst (pasteLoop op targetDir paths d its)) = its.
Proof.
  intros Hop. revert d. induction paths as [|sourcePath rest IH]; intros d; simpl; [done|].
  destruct (negb (existsSync d sourcePath)); [apply IH|].
  destruct op as [[|]|]; [done|..]; destruct (copyNoOverwrite _ _ _); by try apply IH.
Qed.

Lemma paste_items (resource : option TreeNode) (w : World FS) :
  items (provider (fst (cmd_paste resource w))) = items (provider w)
  \/ exists targetDir,
       items (provider (fst (cmd_paste resource w)))
       = snd (fst (pasteLoop (clipboardOperation (clipboard w)) targetDir
                     (clipboardPaths (clipboard w)) (disk w) (items (provider w)))).
Proof.
  unfold cmd_paste. destruct (pasteTarget resource w) as [targetDir|]; [|by left].
  destruct (0 <? _)%nat; [|by left].
  right. exists targetDir.
  destruct (pasteLoop _ _ _ _ _) as [[d' its'] [msg|]]; [done|].
  by destruct (clipboardOperation (clipboard w)) as [[|]|].
Qed.

Lemma paste_rest (resource : option TreeNode) (w : World FS) :
  categoryList (provider (fst (cmd_paste resource w))) = categoryList (provider w)
  /\ sortOrder (provider (fst (cmd_paste resource w))) = sortOrder (provider w)
  /\ selection (fst (cmd_paste resource w)) = selection w.
Proof.
  unfold cmd_paste. destruct (pasteTarget resource w) as [targetDir|]; [|done].
  destruct (0 <? _)%nat; [|done].
  destruct (pasteLoop _ _ _ _ _) as [[d' its'] [msg|]]; [done|].
  by destruct (clipboardOperation (clipboard w)) as [[|]|].
Qed.

End HandlerFrames.

(** X9: whatever a paste does (cut or copy, run to its end or stopped by an
    exception), the store keeps the number of its entries and the type and
    category at every position, the category list, the sort order and the
    selection; no message is shown; and when the clipboard is not tagged Cut
    the entries are left exactly as they were. *)
Theorem paste_keeps_the_shape_of_the_store :
  forall (FS : Type) (fsys : FileSystem FS) (resource : option TreeNode) (w : World FS),
    let after := fst (cmd_paste resource w) in
    length (items (provider after)) = length (items (provider w))
    /\ type <$> items (provider after) = type <$> items (provider w)
    /\ category <$> items (provider after) = category <$> items (provider w)
    /\ categoryList (provider after) = categoryList (provider w)
    /\ sortOrder (provider after) = sortOrder (provider w)
    /\ selection after = selection w
    /\ messages after = messages w
    /\ (clipboardOperation (clipboard w) <> Some Cut ->
        items (provider after) = items (provider w)).
Proof.
  intros FS fsys resource w after. subst after.
  destruct (paste_rest resource w) as (Hcats & Hsort & Hsel).
  pose proof (paste_shows_nothing resource w) as Hmsg.
  destruct (paste_items resource w) as [Hsame|[targetDir Hloop]].
  - rewrite Hsame. by split_and!.
  - rewrite Hloop.
    destruct (pasteLoop_frame (clipboardOperation (clipboard w)) targetDir
                (clipboardPaths (clipboard w)) (disk w) (items (provider w)))
      as (Hlen & Hty & Hcat).
    split_and!; try done.
    intros Hop. by apply pasteLoop_copy_keeps_items.
Qed.

Lemma paste_keeps_the_shape_of_the_store_witness :
  let w := ClipboardExample.afterCopy in
  clipboardOperation (clipboard w) <> Some Cut
  /\ items (provider (fst (cmd_paste (Some ClipboardExample.dest) w)))
     = ClipboardExample.favorites.
Proof.
  intros w.
  assert (Hop : clipboardOperation (clipboard w) <> Some Cut) by discriminate.
  split; [exact Hop|].
  destruct (paste_keeps_the_shape_of_the_store SimFS.t SimFS.fileSystem
              (Some ClipboardExample.dest) w) as (_ & _ & _ & _ & _ & _ & _ & Hitems).
  by apply Hitems.
Defined.

Section DropMoreFacts.
Context {FS : Type} `{FileSystem FS}.
Import JsString NodePath.

Lemma dropLoop_moves (targetFolder : string) (item : DragItem) (after : list DragItem)
    (d d' : FS) (shown : list Message) :
  let sourcePath := dragPath item in
  let destPath := join targetFolder (basename sourcePath) in
  sourcePath <> destPath ->
  startsWith destPath (sourcePath +:+ sep) = false ->
  renameSync d sourcePath destPath = Done d' ->
  dropLoop targetFolder (item :: after) d shown = dropLoop targetFolder after d' shown.
Proof.
  intros sourcePath destPath Hne Hsub Hrename. simpl.
  fold sourcePath destPath. apply String.eqb_neq in Hne.
  by rewrite Hne, Hsub, Hrename.
Qed.

Lemma dropLoop_reports (targetFolder : string) (item : DragItem) (after : list DragItem)
    (d d' : FS) (shown : list Message) (msg : string) :
  let sourcePath := dragPath item in
  let destPath := join targetFolder (basename sourcePath) in
  sourcePath <> destPath ->
  startsWith destPath (sourcePath +:+ sep) = false ->
  renameSync d sourcePath destPath = Failed d' msg ->
  dropLoop targetFolder (item :: after) d shown
  = dropLoop targetFolder after d'
      (shown ++ [ErrorMessage ("Failed to move " +:+ basename sourcePath +:+ ": " +:+ msg)]).
Proof.
  intros sourcePath destPath Hne Hsub Hrename. simpl.
  fold sourcePath destPath. apply String.eqb_neq in Hne.
  by rewrite Hne, Hsub, Hrename.
Qed.

(** The loop only adds messages. *)
Lemma dropLoop_keeps_messages (targetFolder : string) (sourceItems : list DragItem)
    (d : FS) (shown : list Message) :
  shown `prefix_of` snd (dropLoop targetFolder sourceItems d shown).
Proof.
  revert d shown.
  induction sourceItems as [|item rest IH]; intros d shown; simpl; [done|].
  destruct (String.eqb _ _); [apply IH|].
  destruct (startsWith _ _).
  { etrans; [|apply IH]. by apply prefix_app_r. }
  destruct (renameSync _ _ _); [apply IH|].
  etrans; [|apply IH]. by apply prefix_app_r.
Qed.

Lemma handleDrop_frame (target : option TreeNode) (dragged : option (list DragItem))
    (w : World FS) :
  provider (handleDrop target dragged w) = provider w
  /\ clipboard (handleDrop target dragged w) = clipboard w
  /\ selection (handleDrop target dragged w) = selection w
  /\ messages w `prefix_of` messages (handleDrop target dragged w).
Proof.
  unfold handleDrop.
  destruct dragged as [[|item rest]|]; [done| |done].
  destruct (resourcePath target) as [targetPath|].
  2:{ split_and!; try done. by apply prefix_app_r. }
  destruct (dropFolder (disk w) targetPath) as [targetFolder|].
  2:{ split_and!; try done. by apply prefix_app_r. }
  pose proof (dropLoop_keeps_messages targetFolder (item :: rest) (disk w) (messages w))
    as Hprefix.
  by destruct (dropLoop _ _ _ _) as [d' shown].
Qed.

End DropMoreFacts.

(** X10: in the loop of a drop, at whatever position of the batch, an item
    whose destination is neither its own path nor inside it is moved by one
    [renameSync]; when that call fails, the failure is shown with the base
    name of the item and the message of the error, and in both cases the
    items after it are processed. *)
Theorem drop_moves_or_reports_each_item :
  forall (FS : Type) (fsys : FileSystem FS) (targetFolder : string)
         (before : list DragItem) (item : DragItem) (after : list DragItem)
         (d d1 : FS) (shown shown1 : list Message),
    let sourcePath := dragPath item in
    let destPath := NodePath.join targetFolder (NodePath.basename sourcePath) in
    dropLoop targetFolder before d shown = (d1, shown1) ->
    sourcePath <> destPath ->
    JsString.startsWith destPath (sourcePath +:+ NodePath.sep) = false ->
    dropLoop targetFolder (before ++ item :: after) d shown
    = match renameSync d1 sourcePath destPath with
      | Done d' => dropLoop targetFolder after d' shown1
      | Failed d' msg =>
          dropLoop targetFolder after d'
            (shown1 ++ [ErrorMessage ("Failed to move " +:+ NodePath.basename sourcePath
                                      +:+ ": " +:+ msg)])
      end.
Proof.
  intros FS fsys targetFolder before item after d d1 shown shown1 sourcePath destPath
         Hbefore Hne Hsub.
  rewrite dropLoop_app, Hbefore.
  destruct (renameSync d1 sourcePath destPath) as [d'|d' msg] eqn:Hrename.
  - by apply dropLoop_moves.
  - by apply dropLoop_reports.
Qed.

Lemma drop_moves_or_reports_each_item_witness :
  dropLoop "/w/sub" ([] ++ DropMoreExample.missing :: [DropExample.other])
    DropExample.disk0 []
  = dropLoop "/w/sub" [DropExample.other] DropExample.disk0
      [ErrorMessage "Failed to move gone.txt: ENOENT: no such file or directory"].
Proof.
  apply (drop_moves_or_reports_each_item SimFS.t SimFS.fileSystem "/w/sub" []
           DropMoreExample.missing [DropExample.other] DropExample.disk0
           DropExample.disk0 [] []); [reflexivity | discriminate | reflexivity].
Defined.

(** X11: a drop never touches the store, the clipboard or the selection,
    and keeps the messages shown before it: the favorites keep their paths
    even when the files they name are moved by the drop. *)
Theorem drop_leaves_the_store_alone :
  forall (FS : Type) (fsys : FileSystem FS) (target : option TreeNode)
         (dragged : option (list DragItem)) (w : World FS),
    provider (handleDrop target dragged w) = provider w
    /\ clipboard (handleDrop target dragged w) = clipboard w
    /\ selection (handleDrop target dragged w) = selection w
    /\ messages w `prefix_of` messages (handleDrop target dragged w).
Proof. intros. apply handleDrop_frame. Qed.

(** X12: renaming a tracked file or folder to a new, non-empty name renames
    it on disk inside its own folder and, when that succeeds, rewrites the
    path of its entry in place: same position, same type, same category, all
    other entries as they were.  When the rename on disk fails, the store is
    not touched.  Neither outcome changes the clipboard. *)
Theorem rename_rewrites_tracked_entry_in_place :
  forall (FS : Type) (fsys : FileSystem FS) (resource : option TreeNode)
         (itemPath newName : string) (index : nat) (entry : FavoriteEntry) (w : World FS),
    let newPath := NodePath.join (NodePath.dirname itemPath) newName in
    resourcePath resource = Some itemPath ->
    JsString.truthy newName = true ->
    newName <> NodePath.basename itemPath ->
    Store.findByPath itemPath (items (provider w)) = Some (index, entry) ->
    cmd_rename resource (Some newName) w
    = match renameSync (disk w) itemPath newPath with
      | Done d' =>
          (withProvider (withDisk w d')
             (setItems (provider w)
                (<[index := {| path := newPath; type := type entry;
                               category := category entry |}]> (items (provider w)))),
           None)
      | Failed d' msg => (withDisk w d', Some msg)
      end.
Proof.
  intros FS fsys resource itemPath newName index entry w newPath Hpath Htruthy Hname Hfind.
  unfold cmd_rename. rewrite Hpath, Htruthy.
  apply String.eqb_neq in Hname. rewrite Hname. simpl. fold newPath.
  destruct (renameSync (disk w) itemPath newPath) as [d'|d' msg]; [|done].
  by rewrite (retarget_tracked _ _ _ _ _ Hfind).
Qed.

Lemma rename_rewrites_tracked_entry_in_place_witness :
  items (provider (fst (cmd_rename (Some RenameExample.y_txt) (Some "notes.txt")
                          RenameExample.w0)))
  = [{| path := "/root/x.txt"; type := File; category := None |};
     {| path := "/root/dir1"; type := Folder; category := Some "work" |};
     {| path := "/root/notes.txt"; type := File; category := Some "work" |}].
Proof.
  rewrite (rename_rewrites_tracked_entry_in_place SimFS.t SimFS.fileSystem
             (Some RenameExample.y_txt) "/root/y.txt" "notes.txt" 2
             {| path := "/root/y.txt"; type := File; category := Some "work" |}
             RenameExample.w0);
    [reflexivity | reflexivity | reflexivity | discriminate | reflexivity].
Defined.

(** ** Manual reordering, both ways *)

Section ReorderMoreFacts.
Import Store.

Local Abbreviation inCategory cat :=
  (fun item : FavoriteEntry => inPartition cat item = true).

Lemma insert_swaps_out {A : Type} (l : list A) (i : nat) (x y : A) :
  l !! i = Some y -> y :: <[i:=x]> l ≡ₚ x :: l.
Proof.
  revert i. induction l as [|a l IH]; intros [|i] Hi; try done; simpl in *.
  - injection Hi as ->. apply perm_swap.
  - rewrite (perm_swap a y), (IH _ Hi). apply perm_swap.
Qed.

Lemma swap_perm (a b : nat) (its : list FavoriteEntry) : swap a b its ≡ₚ its.
Proof.
  unfold swap.
  destruct (its !! a) as [ea|] eqn:Ha; [|done].
  destruct (its !! b) as [eb|] eqn:Hb; [|done].
  destruct (decide (a = b)) as [->|Hne].
  - assert (ea = eb) as -> by congruence.
    by rewrite (list_insert_id _ _ _ Hb), (list_insert_id _ _ _ Hb).
  - apply (Permutation_cons_inv (a := eb)).
    rewrite insert_swaps_out.
    + by apply insert_swaps_out.
    + by rewrite list_lookup_insert_ne.
Qed.

Lemma moveUpItems_perm (p : string) (cat : option string) (its its' : list FavoriteEntry) :
  moveUpItems p cat its = Some its' -> its' ≡ₚ its.
Proof.
  unfold moveUpItems. intros Hmove.
  destruct (findByPath p (filter _ its)) as [[[|prevIndex] e]|]; try done.
  destruct (findByPath p its) as [[currentFullIndex e1]|]; try done.
  destruct (filter _ its !! prevIndex) as [prevItem|]; try done.
  destruct (findByPath (path prevItem) its) as [[prevFullIndex e2]|]; try done.
  injection Hmove as <-. apply swap_perm.
Qed.

Lemma moveDownItems_perm (p : string) (cat : option string) (its its' : list FavoriteEntry) :
  moveDownItems p cat its = Some its' -> its' ≡ₚ its.
Proof.
  unfold moveDownItems. intros Hmove.
  destruct (findByPath p (filter _ its)) as [[currentIndex e]|]; try done.
  destruct (_ <=? _)%nat; try done.
  destruct (findByPath p its) as [[currentFullIndex e1]|]; try done.
  destruct (filter _ its !! (currentIndex + 1)%nat) as [nextItem|]; try done.
  destruct (findByPath (path nextItem) its) as [[nextFullIndex e2]|]; try done.
  injection Hmove as <-. apply swap_perm.
Qed.

Lemma reorder_perm {FS : Type}
    (step : string -> option string -> list FavoriteEntry -> option (list FavoriteEntry))
    (resource : option TreeNode) (w : World FS) :
  (forall p cat its its', step p cat its = Some its' -> its' ≡ₚ its) ->
  items (provider (reorder step resource w)) ≡ₚ items (provider w)
  /\ categoryList (provider (reorder step resource w)) = categoryList (provider w)
  /\ sortOrder (provider (reorder step resource w)) = sortOrder (provider w)
  /\ disk (reorder step resource w) = disk w
  /\ clipboard (reorder step resource w) = clipboard w
  /\ selection (reorder step resource w) = selection w
  /\ messages (reorder step resource w) = messages w.
Proof.
  intros Hstep. unfold reorder.
  destruct (resourcePath resource) as [itemPath|]; [|done].
  destruct (step itemPath _ _) as [its'|] eqn:Hmove; [|done].
  split_and!; try done. simpl. by apply (Hstep _ _ _ _ Hmove).
Qed.

(** A filtered list that reads [s1 ++ x :: s2] comes from a list that holds
    [x] between a part that filters to [s1] and one that filters to [s2]. *)
Lemma filter_split (P : FavoriteEntry -> bool) (l s1 s2 : list FavoriteEntry)
    (x : FavoriteEntry) :
  filter (fun item => P item = true) l = s1 ++ x :: s2 ->
  exists l1 l2, l = l1 ++ x :: l2
    /\ filter (fun item => P item = true) l1 = s1
    /\ filter (fun item => P item = true) l2 = s2
    /\ P x = true.
Proof.
  revert s1. induction l as [|a l IH]; intros s1 Hfilter.
  { by destruct s1. }
  destruct (P a) eqn:Ha.
  - rewrite filter_cons_True in Hfilter by done.
    destruct s1 as [|b s1]; simpl in Hfilter.
    + injection Hfilter as -> Hrest. by exists [], l.
    + injection Hfilter as -> Hrest.
      destruct (IH _ Hrest) as (l1 & l2 & -> & H1 & H2 & Hx).
      exists (b :: l1), l2. split_and!; try done.
      by rewrite filter_cons_True, H1.
  - rewrite filter_cons_False in Hfilter by (by rewrite Ha).
    destruct (IH _ Hfilter) as (l1 & l2 & -> & H1 & H2 & Hx).
    exists (a :: l1), l2. split_and!; try done.
    by rewrite filter_cons_False by (by rewrite Ha).
Qed.

Lemma filter_nil_outside (cat : option string) (l : list FavoriteEntry) :
  filter (inCategory cat) l = [] -> outside cat l.
Proof.
  intros Hnil. apply Forall_forall. intros x Hx.
  destruct (inPartition cat x) eqn:Hin; [|done].
  assert (Hmem : x ∈ filter (inCategory cat) l) by (by apply list_elem_of_filter).
  rewrite Hnil in Hmem. by apply elem_of_nil in Hmem.
Qed.

(** Two neighbours of the partition, found in the full list. *)
Lemma neighbours_split (cat : option string) (its : list FavoriteEntry) (i : nat)
    (x y : FavoriteEntry) :
  filter (inCategory cat) its !! i = Some x ->
  filter (inCategory cat) its !! S i = Some y ->
  exists l1 l2 l3, its = l1 ++ x :: l2 ++ y :: l3
    /\ inPartition cat x = true /\ inPartition cat y = true /\ outside cat l2.
Proof.
  intros Hx Hy.
  pose proof (take_drop_middle _ _ _ Hx) as Hsplit.
  assert (Hdrop : drop (S i) (filter (inCategory cat) its)
                  = y :: drop (S (S i)) (filter (inCategory cat) its)).
  { by apply drop_S. }
  rewrite Hdrop in Hsplit. symmetry in Hsplit.
  destruct (filter_split (inPartition cat) _ _ _ _ Hsplit)
    as (l1 & r & -> & _ & Hr & Hinx).
  destruct (filter_split (inPartition cat) r [] _ _ Hr)
    as (l2 & l3 & -> & Hl2 & _ & Hiny).
  exists l1, l2, l3. split_and!; try done. by apply filter_nil_outside.
Qed.

Lemma findByPath_Some (p : string) (l : list FavoriteEntry) (i : nat) (e : FavoriteEntry) :
  findByPath p l = Some (i, e) -> l !! i = Some e /\ path e = p.
Proof.
  unfold findByPath. intros Hfind. apply list_find_Some in Hfind.
  by destruct Hfind as (? & ? & _).
Qed.

Lemma uniquePaths_perm (l l' : list FavoriteEntry) :
  l ≡ₚ l' -> uniquePaths l -> uniquePaths l'.
Proof. unfold uniquePaths. intros Hperm. by rewrite Hperm. Qed.

Lemma swapped_perm (l1 l2 l3 : list FavoriteEntry) (e e' : FavoriteEntry) :
  l1 ++ e :: l2 ++ e' :: l3 ≡ₚ l1 ++ e' :: l2 ++ e :: l3.
Proof.
  apply Permutation_app_head. rewrite <- !Permutation_middle. apply perm_swap.
Qed.

Lemma moveDown_then_moveUp (p : string) (cat : option string)
    (its its' : list FavoriteEntry) :
  uniquePaths its ->
  moveDownItems p cat its = Some its' ->
  moveUpItems p cat its' = Some its.
Proof.
  intros Huniq Hmove.
  assert (Hshape : exists l1 l2 l3 e e', its = l1 ++ e :: l2 ++ e' :: l3
            /\ path e = p /\ inPartition cat e = true /\ inPartition cat e' = true
            /\ outside cat l2).
  { unfold moveDownItems in Hmove.
    destruct (findByPath p (filter _ its)) as [[currentIndex e]|] eqn:Hcur; [|done].
    destruct (_ <=? _)%nat; [done|].
    destruct (findByPath p its) as [[currentFullIndex e1]|]; [|done].
    destruct (filter _ its !! (currentIndex + 1)%nat) as [nextItem|] eqn:Hnext; [|done].
    apply findByPath_Some in Hcur as [Hcur Hpath].
    rewrite Nat.add_1_r in Hnext.
    destruct (neighbours_split _ _ _ _ _ Hcur Hnext) as (l1 & l2 & l3 & ? & ? & ? & ?).
    by exists l1, l2, l3, e, nextItem. }
  destruct Hshape as (l1 & l2 & l3 & e & e' & -> & <- & He & He' & Hl2).
  rewrite (moveDown_swaps _ _ _ _ _ _ He He' Hl2 Huniq) in Hmove.
  injection Hmove as <-.
  apply moveUp_swaps; try done.
  by apply (uniquePaths_perm _ _ (swapped_perm l1 l2 l3 e e')).
Qed.

Lemma moveUp_then_moveDown (p : string) (cat : option string)
    (its its' : list FavoriteEntry) :
  uniquePaths its ->
  moveUpItems p cat its = Some its' ->
  moveDownItems p cat its' = Some its.
Proof.
  intros Huniq Hmove.
  assert (Hshape : exists l1 l2 l3 e e', its = l1 ++ e' :: l2 ++ e :: l3
            /\ path e = p /\ inPartition cat e = true /\ inPartition cat e' = true
            /\ outside cat l2).
  { unfold moveUpItems in Hmove.
    destruct (findByPath p (filter _ its)) as [[[|prevIndex] e]|] eqn:Hcur; try done.
    destruct (findByPath p its) as [[currentFullIndex e1]|]; [|done].
    destruct (filter _ its !! prevIndex) as [prevItem|] eqn:Hprev; [|done].
    apply findByPath_Some in Hcur as [Hcur Hpath].
    destruct (neighbours_split _ _ _ _ _ Hprev Hcur) as (l1 & l2 & l3 & ? & ? & ? & ?).
    by exists l1, l2, l3, e, prevItem. }
  destruct Hshape as (l1 & l2 & l3 & e & e' & -> & <- & He & He' & Hl2).
  rewrite (moveUp_swaps _ _ _ _ _ _ He He' Hl2 Huniq) in Hmove.
  injection Hmove as <-.
  apply moveDown_swaps; try done.
  by apply (uniquePaths_perm _ _ (swapped_perm l1 l2 l3 e' e)).
Qed.

End ReorderMoreFacts.

(** X13: [moveUp] and [moveDown] only ever rearrange the entries: whatever
    the store holds (duplicate paths included) and whatever item they are
    invoked on, the entries after the command are a permutation of the
    entries before it, and the category list, the sort order, the disk, the
    clipboard, the selection and the messages are as they were. *)
Theorem reorder_only_permutes_the_entries :
  forall (FS : Type) (resource : option TreeNode) (w : World FS),
    (items (provider (cmd_moveUp resource w)) ≡ₚ items (provider w)
     /\ categoryList (provider (cmd_moveUp resource w)) = categoryList (provider w)
     /\ sortOrder (provider (cmd_moveUp resource w)) = sortOrder (provider w)
     /\ disk (cmd_moveUp resource w) = disk w
     /\ clipboard (cmd_moveUp resource w) = clipboard w
     /\ selection (cmd_moveUp resource w) = selection w
     /\ messages (cmd_moveUp resource w) = messages w)
    /\ (items (provider (cmd_moveDown resource w)) ≡ₚ items (provider w)
        /\ categoryList (provider (cmd_moveDown resource w)) = categoryList (provider w)
        /\ sortOrder (provider (cmd_moveDown resource w)) = sortOrder (provider w)
        /\ disk (cmd_moveDown resource w) = disk w
        /\ clipboard (cmd_moveDown resource w) = clipboard w
        /\ selection (cmd_moveDown resource w) = selection w
        /\ messages (cmd_moveDown resource w) = messages w).
Proof.
  intros FS resource w. split.
  - apply reorder_perm, moveUpItems_perm.
  - apply reorder_perm, moveDownItems_perm.
Qed.

(** X14: on a store whose paths are pairwise distinct, [moveUp] undoes a
    [moveDown] that moved the item, and [moveDown] undoes a [moveUp] that
    moved it: the world is back to what it was. *)
Theorem moveUp_and_moveDown_undo_each_other :
  forall (FS : Type) (resource : option TreeNode) (itemPath : string) (w : World FS),
    resourcePath resource = Some itemPath ->
    uniquePaths (items (provider w)) ->
    (is_Some (moveDownItems itemPath (nodeCategory resource) (items (provider w))) ->
     cmd_moveUp resource (cmd_moveDown resource w) = w)
    /\ (is_Some (moveUpItems itemPath (nodeCategory resource) (items (provider w))) ->
        cmd_moveDown resource (cmd_moveUp resource w) = w).
Proof.
  intros FS resource itemPath w Hpath Huniq.
  destruct w as [d [its cs order] c sel shown]. simpl in *.
  split; intros [its' Hmove].
  - pose proof (moveDown_then_moveUp _ _ _ _ Huniq Hmove) as Hback.
    unfold cmd_moveUp, cmd_moveDown, reorder. rewrite Hpath. simpl.
    rewrite Hmove. simpl. by rewrite Hback.
  - pose proof (moveUp_then_moveDown _ _ _ _ Huniq Hmove) as Hback.
    unfold cmd_moveUp, cmd_moveDown, reorder. rewrite Hpath. simpl.
    rewrite Hmove. simpl. by rewrite Hback.
Qed.

Lemma moveUp_and_moveDown_undo_each_other_witness :
  let A := ReorderExample.A in
  let B := ReorderExample.B in
  let K := ReorderExample.K in
  let nodeA := Some ReorderExample.nodeA in
  let stored := ReorderExample.stored in
  cmd_moveDown nodeA (stored [A; K; B]) = stored [B; K; A]
  /\ cmd_moveUp nodeA (cmd_moveDown nodeA (stored [A; K; B])) = stored [A; K; B].
Proof.
  intros A B K nodeA stored.
  split; [reflexivity|].
  apply (moveUp_and_moveDown_undo_each_other SimFS.t nodeA "/w/a.txt" (stored [A; K; B])).
  - reflexivity.
  - by apply unique_three.
  - by eexists.
Defined.

(** ** The sort policy: order and stability *)

Section StableSort.
Context {A : Type} (cmp : A -> A -> Z) (P : A -> bool).
Hypothesis same_class : forall x y, P x = true -> P y = true -> (cmp x y <= 0)%Z.

(** An insertion never moves an element past one of its own class. *)
Lemma insertSorted_filter (x : A) (l : list A) :
  filter (fun y => P y = true) (insertSorted cmp x l)
  = filter (fun y => P y = true) (x :: l).
Proof.
  induction l as [|y l IH]; simpl; [done|].
  destruct (cmp x y <=? 0)%Z eqn:Hxy; [done|].
  apply Z.leb_gt in Hxy.
  destruct (P y) eqn:Hy.
  - rewrite (filter_cons_True _ y) by done. rewrite IH.
    destruct (P x) eqn:Hx.
    + pose proof (same_class x y Hx Hy). lia.
    + rewrite !(filter_cons_False _ x) by (by rewrite Hx).
      by rewrite filter_cons_True.
  - rewrite (filter_cons_False _ y) by (by rewrite Hy). rewrite IH.
    destruct (P x) eqn:Hx.
    + rewrite !(filter_cons_True _ x) by done.
      by rewrite (filter_cons_False _ y) by (by rewrite Hy).
    + rewrite !(filter_cons_False _ x) by (by rewrite Hx).
      by rewrite (filter_cons_False _ y) by (by rewrite Hy).
Qed.

Lemma jsSort_filter (l : list A) :
  filter (fun y => P y = true) (jsSort cmp l) = filter (fun y => P y = true) l.
Proof.
  induction l as [|x l IH]; simpl; [done|].
  rewrite insertSorted_filter.
  destruct (P x) eqn:Hx.
  - by rewrite !(filter_cons_True _ x), IH by done.
  - by rewrite !(filter_cons_False _ x), IH by (by rewrite Hx).
Qed.

End StableSort.

Lemma StronglySorted_weaken {A : Type} (R R' : relation A) (l : list A) :
  (forall a b, R a b -> R' a b) -> StronglySorted R l -> StronglySorted R' l.
Proof.
  intros Himpl. induction 1 as [|x l Hsorted IH Hx]; constructor; [done|].
  eapply Forall_impl; [exact Hx|]. intros b. apply Himpl.
Qed.

Section SortItemsFacts.
Context {FS : Type} `{FileSystem FS}.
Variable localeCompare : string -> string -> Z.
Variable toLowerCase : string -> string.

Lemma _sortItems_jsSort (d : FS) (order : SortOrder) (its : list FavoriteEntry) :
  _sortItems localeCompare toLowerCase d order its
  = match order with
    | MANUAL => its
    | MODIFIED => jsSort (newestFirst d) its
    | ASC => jsSort (ascending localeCompare toLowerCase) its
    | DESC => jsSort (descending localeCompare toLowerCase) its
    end.
Proof. by destruct order, its. Qed.

Lemma _sortItems_perm (d : FS) (order : SortOrder) (its : list FavoriteEntry) :
  _sortItems localeCompare toLowerCase d order its ≡ₚ its.
Proof. rewrite _sortItems_jsSort. destruct order; try done; apply jsSort_perm. Qed.

Lemma _sortItems_newest_first (d : FS) (its : list FavoriteEntry) :
  StronglySorted (rankedBefore localeCompare toLowerCase d MODIFIED)
    (_sortItems localeCompare toLowerCase d MODIFIED its).
Proof.
  rewrite _sortItems_jsSort.
  apply (StronglySorted_weaken (before (newestFirst d))).
  - intros a b. unfold before, newestFirst, rankedBefore. lia.
  - apply jsSort_sorted; unfold newestFirst; intros; lia.
Qed.

Lemma _sortItems_by_name (d : FS) (order : SortOrder) (its : list FavoriteEntry) :
  Consistent localeCompare ->
  StronglySorted (rankedBefore localeCompare toLowerCase d order)
    (_sortItems localeCompare toLowerCase d order its).
Proof.
  intros consistent. destruct order.
  - rewrite _sortItems_jsSort.
    apply (jsSort_sorted (ascending localeCompare toLowerCase)).
    + apply (byKey_total (sortName toLowerCase) localeCompare consistent).
    + apply (byKey_trans (sortName toLowerCase) localeCompare consistent).
  - rewrite _sortItems_jsSort.
    apply (jsSort_sorted (descending localeCompare toLowerCase)).
    + apply (byKeyReversed_total (sortName toLowerCase) localeCompare consistent).
    + apply (byKeyReversed_trans (sortName toLowerCase) localeCompare consistent).
  - apply _sortItems_newest_first.
  - rewrite _sortItems_jsSort.
    induction its as [|e its IH]; constructor; [done|].
    by apply Forall_forall.
Qed.

Lemma _sortItems_stable (d : FS) (order : SortOrder) (e : FavoriteEntry)
    (its : list FavoriteEntry) :
  (forall s, localeCompare s s = 0%Z) ->
  filter (fun x => sameRank toLowerCase d order e x = true)
    (_sortItems localeCompare toLowerCase d order its)
  = filter (fun x => sameRank toLowerCase d order e x = true) its.
Proof.
  intros Hrefl. rewrite _sortItems_jsSort.
  destruct order; [| | |done]; apply jsSort_filter; intros x y Hx Hy; simpl in Hx, Hy.
  - apply String.eqb_eq in Hx, Hy. unfold ascending. rewrite <- Hx, <- Hy, Hrefl. lia.
  - apply String.eqb_eq in Hx, Hy. unfold descending. rewrite <- Hx, <- Hy, Hrefl. lia.
  - apply Z.eqb_eq in Hx, Hy. unfold newestFirst. lia.
Qed.

End SortItemsFacts.

Lemma consistent_refl (localeCompare : string -> string -> Z) (s : string) :
  Consistent localeCompare -> localeCompare s s = 0%Z.
Proof.
  intros consistent. pose proof (consistent_flip _ consistent s s). lia.
Qed.

(** X15: [_sortItems] returns the entries it was given, each exactly once,
    in every sort order; in [MODIFIED] order no entry stands before one
    modified later (a path that is missing counts as time 0); and when
    [localeCompare] is a consistent comparator (a total preorder, which may
    be zero on different strings), in [ASC] and [DESC] order the lower-cased
    base names are in non-decreasing, resp. non-increasing, order under
    [localeCompare] all along the result. *)
Theorem sortItems_orders_the_entries :
  forall (FS : Type) (fsys : FileSystem FS) (localeCompare : string -> string -> Z)
         (toLowerCase : string -> string)
         (d : FS) (order : SortOrder) (its : list FavoriteEntry),
    _sortItems localeCompare toLowerCase d order its ≡ₚ its
    /\ StronglySorted (rankedBefore localeCompare toLowerCase d MODIFIED)
         (_sortItems localeCompare toLowerCase d MODIFIED its)
    /\ (Consistent localeCompare ->
        StronglySorted (rankedBefore localeCompare toLowerCase d order)
          (_sortItems localeCompare toLowerCase d order its)).
Proof.
  intros FS fsys lc lower d order its. split_and!.
  - apply _sortItems_perm.
  - apply _sortItems_newest_first.
  - apply _sortItems_by_name.
Qed.

Lemma sortItems_orders_the_entries_witness :
  StronglySorted (rankedBefore codePointCompare asciiLowerCase ([] : SimFS.t) DESC)
    (_sortItems codePointCompare asciiLowerCase ([] : SimFS.t) DESC SortExample.favorites).
Proof.
  destruct (sortItems_orders_the_entries SimFS.t SimFS.fileSystem codePointCompare
              asciiLowerCase [] DESC SortExample.favorites) as (_ & _ & Hsorted).
  exact (Hsorted codePointCompare_consistent).
Defined.

(** X16: the sort is stable in every sort order: entries the comparator
    cannot tell apart (the same lower-cased base name under [ASC] and
    [DESC], the same modification time under [MODIFIED]) come out in the
    order they are stored in; in particular [DESC] does not reverse them. *)
Theorem sortItems_keeps_ties_in_stored_order :
  forall (FS : Type) (fsys : FileSystem FS) (localeCompare : string -> string -> Z)
         (toLowerCase : string -> string)
         (d : FS) (order : SortOrder) (e : FavoriteEntry) (its : list FavoriteEntry),
    (forall s, localeCompare s s = 0%Z) ->
    filter (fun x => sameRank toLowerCase d order e x = true)
      (_sortItems localeCompare toLowerCase d order its)
    = filter (fun x => sameRank toLowerCase d order e x = true) its.
Proof. intros. by apply _sortItems_stable. Qed.

Lemma sortItems_keeps_ties_in_stored_order_witness :
  let first := {| path := "/w/b/notes.txt"; type := File; category := None |} in
  let third := {| path := "/w/a/Notes.txt"; type := File; category := None |} in
  filter (fun x => sameRank asciiLowerCase TieExample.disk0 DESC first x = true)
    (_sortItems codePointCompare asciiLowerCase TieExample.disk0 DESC TieExample.favorites)
  = [first; third]
  /\ filter (fun x => sameRank asciiLowerCase TieExample.disk0 MODIFIED first x = true)
       (_sortItems codePointCompare asciiLowerCase TieExample.disk0 MODIFIED
          TieExample.favorites)
     = [first; third].
Proof.
  intros first third.
  split.
  - rewrite (sortItems_keeps_ties_in_stored_order SimFS.t SimFS.fileSystem
               codePointCompare asciiLowerCase TieExample.disk0 DESC first
               TieExample.favorites).
    + reflexivity.
    + intros s. apply consistent_refl, codePointCompare_consistent.
  - rewrite (sortItems_keeps_ties_in_stored_order SimFS.t SimFS.fileSystem
               codePointCompare asciiLowerCase TieExample.disk0 MODIFIED first
               TieExample.favorites).
    + reflexivity.
    + intros s. apply consistent_refl, codePointCompare_consistent.
Defined.

(** ** The folder listing: directories first *)

Section DirectoriesFirst.
Context {FS : Type} `{FileSystem FS}.
Variable localeCompare : string -> string -> Z.
Variable toLowerCase : string -> string.

(** No file stands before a directory. *)
Local Abbreviation kindBefore d dirPath :=
  (fun a b : string =>
     listedAsDirectory d dirPath b = true -> listedAsDirectory d dirPath a = true).

Lemma childOrder_kind (d : FS) (order : SortOrder) (dirPath a b : string) :
  ((childOrder localeCompare toLowerCase d order dirPath a b <= 0)%Z -> kindBefore d dirPath a b)
  /\ ((0 < childOrder localeCompare toLowerCase d order dirPath a b)%Z -> kindBefore d dirPath b a).
Proof.
  unfold childOrder, listedAsDirectory.
  destruct (itemStat d dirPath a) as [[dirA mtimeA] fullA],
           (itemStat d dirPath b) as [[dirB mtimeB] fullB]. simpl.
  destruct dirA, dirB; simpl; split; intros; try done; lia.
Qed.

Lemma insertSorted_kind (d : FS) (order : SortOrder) (dirPath x : string)
    (l : list string) :
  StronglySorted (kindBefore d dirPath) l ->
  StronglySorted (kindBefore d dirPath)
    (insertSorted (childOrder localeCompare toLowerCase d order dirPath) x l).
Proof.
  induction 1 as [|y l Hsorted IH Hy]; simpl.
  - repeat constructor.
  - destruct (childOrder_kind d order dirPath x y) as [Hle Hgt].
    destruct (childOrder localeCompare toLowerCase d order dirPath x y <=? 0)%Z eqn:Hxy.
    + apply Z.leb_le in Hxy. specialize (Hle Hxy).
      constructor; [by constructor|].
      constructor; [exact Hle|]. eapply Forall_impl; [exact Hy|].
      intros z Hyz Hz. exact (Hle (Hyz Hz)).
    + apply Z.leb_gt in Hxy. specialize (Hgt Hxy).
      constructor; [done|].
      rewrite insertSorted_perm. by constructor.
Qed.

Lemma jsSort_kind (d : FS) (order : SortOrder) (dirPath : string) (l : list string) :
  StronglySorted (kindBefore d dirPath)
    (jsSort (childOrder localeCompare toLowerCase d order dirPath) l).
Proof.
  induction l as [|x l IH]; simpl; [constructor|]. by apply insertSorted_kind.
Qed.

Lemma toResource_kind (d : FS) (dirPath item : string) :
  isDirectoryNode (toResource d dirPath item) = listedAsDirectory d dirPath item
  /\ isFileNode (toResource d dirPath item) = negb (listedAsDirectory d dirPath item).
Proof.
  unfold toResource, listedAsDirectory.
  destruct (itemStat d dirPath item) as [[isDir mtime] fullPath]. by destruct isDir.
Qed.

Lemma directories_then_files (d : FS) (dirPath : string) (l : list string) :
  StronglySorted (kindBefore d dirPath) l ->
  let shown := map (toResource d dirPath) l in
  shown = filter (fun r => isDirectoryNode r = true) shown
          ++ filter (fun r => isFileNode r = true) shown.
Proof.
  induction 1 as [|x l Hsorted IH Hx]; simpl in *; [done|].
  destruct (toResource_kind d dirPath x) as [Hdir Hfile].
  destruct (listedAsDirectory d dirPath x) eqn:Hkind.
  - rewrite filter_cons_True by done.
    rewrite (filter_cons_False (fun r => isFileNode r = true))
      by (by rewrite Hfile).
    simpl. by rewrite <- IH.
  - assert (Hall : Forall (fun y => listedAsDirectory d dirPath y = false) l).
    { eapply Forall_impl; [exact Hx|]. intros y Hy. simpl in Hy.
      destruct (listedAsDirectory d dirPath y); [by specialize (Hy eq_refl)|done]. }
    rewrite filter_cons_False by (by rewrite Hdir).
    rewrite filter_cons_True by (by rewrite Hfile).
    clear IH Hsorted Hx.
    assert (Hnodirs : filter (fun r => isDirectoryNode r = true)
                        (map (toResource d dirPath) l) = []).
    { induction Hall as [|y l Hy _ IH]; simpl; [done|].
      rewrite filter_cons_False; [done|].
      destruct (toResource_kind d dirPath y) as [-> _]. by rewrite Hy. }
    assert (Hfiles : filter (fun r => isFileNode r = true)
                       (map (toResource d dirPath) l) = map (toResource d dirPath) l).
    { apply filter_all. apply Forall_forall. intros r Hr.
      apply list_elem_of_fmap in Hr as (y & -> & Hy).
      rewrite Forall_forall in Hall.
      destruct (toResource_kind d dirPath y) as [_ ->]. by rewrite (Hall y Hy). }
    by rewrite Hnodirs, Hfiles.
Qed.

End DirectoriesFirst.

(** X17: in every sort order, and whatever [localeCompare] answers, the
    children listed for a folder are its directories followed by its files:
    the listing is the list of its directory nodes (collapsible, context
    [resource.dir]) followed by the list of its file nodes (context
    [resource]). *)
Theorem listing_puts_directories_first :
  forall (FS : Type) (fsys : FileSystem FS) (localeCompare : string -> string -> Z)
         (toLowerCase : string -> string)
         (d : FS) (order : SortOrder) (dirPath : string),
    let children := _getFilesystemChildren localeCompare toLowerCase d order dirPath in
    children = filter (fun r => isDirectoryNode r = true) children
               ++ filter (fun r => isFileNode r = true) children.
Proof.
  intros FS fsys lc lower d order dirPath. unfold _getFilesystemChildren.
  destruct (readdirSync d dirPath) as [names|]; [|done].
  apply directories_then_files, jsSort_kind.
Qed.

(** ** Categories and the tree *)

Section CategorySets.
Import JsString.

Lemma setAdd_elem (seen : list string) (x c : string) :
  c ∈ setAdd seen x <-> c ∈ seen \/ c = x.
Proof.
  unfold setAdd. destruct (existsb (String.eqb x) seen) eqn:Hseen.
  - apply existsb_name in Hseen. split; [by left|]. by intros [?| ->].
  - rewrite elem_of_app, list_elem_of_singleton. done.
Qed.

Lemma setAdd_NoDup (seen : list string) (x : string) :
  NoDup seen -> NoDup (setAdd seen x).
Proof.
  intros Huniq. unfold setAdd. destruct (existsb (String.eqb x) seen) eqn:Hseen; [done|].
  apply NoDup_snoc; [done|]. intros Hin. apply existsb_name in Hin. congruence.
Qed.

Lemma setAddAll_elem (seen xs : list string) (c : string) :
  c ∈ setAddAll seen xs <-> c ∈ seen \/ c ∈ xs.
Proof.
  unfold setAddAll. revert seen.
  induction xs as [|x xs IH]; intros seen; simpl.
  - rewrite elem_of_nil. tauto.
  - rewrite IH, setAdd_elem, elem_of_cons. tauto.
Qed.

Lemma setAddAll_NoDup (seen xs : list string) :
  NoDup seen -> NoDup (setAddAll seen xs).
Proof.
  unfold setAddAll. revert seen.
  induction xs as [|x xs IH]; intros seen Huniq; simpl; [done|].
  by apply IH, setAdd_NoDup.
Qed.

(** Adding names that the set holds changes nothing. *)
Lemma setAddAll_known (seen xs : list string) :
  (forall x, x ∈ xs -> x ∈ seen) -> setAddAll seen xs = seen.
Proof.
  unfold setAddAll. induction xs as [|x xs IH]; intros Hknown; simpl; [done|].
  assert (Hx : setAdd seen x = seen).
  { unfold setAdd. destruct (existsb (String.eqb x) seen) eqn:Hseen; [done|].
    assert (Hin : x ∈ seen) by (apply Hknown; by left).
    apply existsb_name in Hin. congruence. }
  rewrite Hx. apply IH. intros y Hy. apply Hknown. by right.
Qed.

(** A set made of distinct names is the array of those names. *)
Lemma setAddAll_distinct (seen xs : list string) :
  NoDup (seen ++ xs) -> setAddAll seen xs = seen ++ xs.
Proof.
  unfold setAddAll. revert seen.
  induction xs as [|x xs IH]; intros seen Huniq; simpl; [by rewrite app_nil_r|].
  assert (Hx : setAdd seen x = seen ++ [x]).
  { unfold setAdd. destruct (existsb (String.eqb x) seen) eqn:Hseen; [|done].
    apply existsb_name in Hseen. apply NoDup_app in Huniq as (_ & Hdisjoint & _).
    exfalso. apply (Hdisjoint x Hseen). by left. }
  rewrite Hx, IH; rewrite <- app_assoc; done.
Qed.

Lemma itemCategories_elem (its : list FavoriteEntry) (c : string) :
  c ∈ itemCategories its
  <-> truthy c = true /\ exists item, item ∈ its /\ category item = Some c.
Proof.
  unfold itemCategories. rewrite list_elem_of_omap. split.
  - intros (item & Hin & Hcat).
    destruct (category item) as [c'|] eqn:Hc; simpl in Hcat; [|done].
    destruct (truthy c') eqn:Htruthy; [|done].
    injection Hcat as ->. split; [done|]. by exists item.
  - intros (Htruthy & item & Hin & Hcat). exists item. split; [done|].
    rewrite Hcat. simpl. by rewrite Htruthy.
Qed.

Lemma getAllCategories_elem (p : Provider) (c : string) :
  c ∈ getAllCategories p
  <-> c ∈ categoryList p
      \/ (truthy c = true /\ exists item, item ∈ items p /\ category item = Some c).
Proof.
  unfold getAllCategories.
  rewrite !setAddAll_elem, itemCategories_elem, elem_of_nil. tauto.
Qed.

Lemma getAllCategories_NoDup (p : Provider) : NoDup (getAllCategories p).
Proof. unfold getAllCategories. apply setAddAll_NoDup, setAddAll_NoDup, NoDup_nil_2. Qed.

Lemma getAllCategories_listed (p : Provider) :
  NoDup (categoryList p) -> categoriesListed p ->
  getAllCategories p = categoryList p.
Proof.
  intros Huniq Hlisted. unfold getAllCategories.
  rewrite (setAddAll_distinct [] (categoryList p)) by done. simpl.
  apply setAddAll_known. intros c Hc.
  apply itemCategories_elem in Hc as (_ & item & Hin & Hcat).
  by apply (Hlisted item).
Qed.

End CategorySets.

(** X18: [getAllCategories] returns each name once; its names are those of
    the category list together with the non-empty categories of the entries;
    [getCategories] returns, each once, the non-empty categories of the
    entries; and when the names of the category list are pairwise distinct
    and every category of an entry is listed, [getAllCategories] is the
    category list itself, in its order. *)
Theorem getAllCategories_is_the_union :
  forall (p : Provider),
    NoDup (getAllCategories p)
    /\ (forall c, c ∈ getAllCategories p
                  <-> c ∈ categoryList p
                      \/ (JsString.truthy c = true
                          /\ exists item, item ∈ items p /\ category item = Some c))
    /\ NoDup (getCategories p)
    /\ (forall c, c ∈ getCategories p
                  <-> JsString.truthy c = true
                      /\ exists item, item ∈ items p /\ category item = Some c)
    /\ (NoDup (categoryList p) -> categoriesListed p ->
        getAllCategories p = categoryList p).
Proof.
  intros p. split_and!.
  - apply getAllCategories_NoDup.
  - apply getAllCategories_elem.
  - unfold getCategories. apply setAddAll_NoDup, NoDup_nil_2.
  - intros c. unfold getCategories.
    rewrite setAddAll_elem, itemCategories_elem, elem_of_nil. tauto.
  - apply getAllCategories_listed.
Qed.

Lemma getAllCategories_is_the_union_witness :
  getAllCategories StoreExample.p0 = ["work"; "docs"].
Proof.
  destruct (getAllCategories_is_the_union StoreExample.p0) as (_ & _ & _ & _ & Hlist).
  apply Hlist.
  - simpl. apply NoDup_cons. split; [|apply NoDup_singleton].
    intros Hin. apply list_elem_of_singleton in Hin. discriminate.
  - apply p0_categories_listed.
Defined.

Section TreeFacts.
Context {FS : Type} `{FileSystem FS}.
Variable localeCompare : string -> string -> Z.
Variable toLowerCase : string -> string.
Import JsString.

Local Abbreviation atRoot :=
  (fun item : FavoriteEntry => negb (truthyOpt (category item)) = true).
Local Abbreviation inCategoryNamed name :=
  (fun item : FavoriteEntry => category item = Some name).

Lemma shownPath_favorites (d : FS) (cat : FavoriteEntry -> option string)
    (l : list FavoriteEntry) :
  omap shownPath (map (fun item => renderFavorite d (cat item) item) l) = path <$> l.
Proof.
  induction l as [|item l IH]; [done|].
  simpl. unfold renderFavorite, shownPath.
  destruct (existsSync d (path item)); simpl; f_equal; exact IH.
Qed.

Lemma shownPath_categories (cs : list string) :
  omap shownPath (map renderCategory cs) = [].
Proof. by induction cs. Qed.

Lemma omap_flat_map {A B C : Type} (f : B -> option C) (g : A -> list B) (l : list A) :
  omap f (flat_map g l) = flat_map (fun x => omap f (g x)) l.
Proof.
  induction l as [|x l IH]; simpl; [done|]. by rewrite omap_app, IH.
Qed.

Lemma flat_map_nil {A B : Type} (g : A -> list B) (l : list A) :
  (forall x, x ∈ l -> g x = []) -> flat_map g l = [].
Proof.
  induction l as [|x l IH]; intros Hnil; simpl; [done|].
  rewrite (Hnil x) by (by left). apply IH. intros y Hy. apply Hnil. by right.
Qed.

(** The paths the two levels show: the root entries, then the entries of
    each category of [getAllCategories]. *)
Lemma topLevels_paths (d : FS) (p : Provider) :
  omap shownPath (topLevels localeCompare toLowerCase d p)
  = path <$> (filter atRoot (items p)
              ++ flat_map (fun name => filter (inCategoryNamed name) (items p))
                   (getAllCategories p)).
Proof.
  unfold topLevels. cbn [getChildren].
  rewrite omap_app, omap_app, flat_map_app.
  rewrite (shownPath_favorites d (fun _ => None)), shownPath_categories, app_nil_r.
  rewrite fmap_app. f_equal.
  rewrite (flat_map_nil _ (map _ (filter atRoot (items p)))).
  2:{ intros r Hr. apply list_elem_of_fmap in Hr as (item & -> & _).
      unfold renderFavorite. by destruct (existsSync d (path item)). }
  simpl. generalize (getAllCategories p) as cs.
  induction cs as [|name cs IH]; simpl; [done|].
  rewrite omap_app, IH, fmap_app. f_equal.
  apply (shownPath_favorites d category).
Qed.

Lemma category_filter_skip (name : string) (x : FavoriteEntry) (its : list FavoriteEntry) :
  category x <> Some name ->
  filter (inCategoryNamed name) (x :: its) = filter (inCategoryNamed name) its.
Proof. intros Hne. by rewrite filter_cons_False. Qed.

Lemma categories_skip (cs : list string) (x : FavoriteEntry) (its : list FavoriteEntry) :
  (forall name, name ∈ cs -> category x <> Some name) ->
  flat_map (fun name => filter (inCategoryNamed name) (x :: its)) cs
  = flat_map (fun name => filter (inCategoryNamed name) its) cs.
Proof.
  induction cs as [|name cs IH]; intros Hskip; simpl; [done|].
  rewrite category_filter_skip by (apply Hskip; by left).
  f_equal. apply IH. intros c Hc. apply Hskip. by right.
Qed.

Lemma categories_take (cs : list string) (name : string) (x : FavoriteEntry)
    (its : list FavoriteEntry) :
  NoDup cs -> name ∈ cs -> category x = Some name ->
  flat_map (fun c => filter (inCategoryNamed c) (x :: its)) cs
  ≡ₚ x :: flat_map (fun c => filter (inCategoryNamed c) its) cs.
Proof.
  induction cs as [|c cs IH]; intros Huniq Hin Hcat; [by apply elem_of_nil in Hin|].
  apply NoDup_cons in Huniq as [Hfresh Huniq]. simpl.
  destruct (decide (c = name)) as [->|Hne].
  - rewrite filter_cons_True by done.
    rewrite categories_skip; [done|].
    intros c Hc Heq. rewrite Hcat in Heq. injection Heq as ->. done.
  - rewrite category_filter_skip by (rewrite Hcat; congruence).
    apply elem_of_cons in Hin as [->|Hin]; [done|].
    rewrite (IH Huniq Hin Hcat). by rewrite Permutation_middle.
Qed.

Lemma shown_once (cs : list string) (its : list FavoriteEntry) :
  NoDup cs ->
  "" ∉ cs ->
  (forall item name, item ∈ its -> category item = Some name -> truthy name = true ->
                     name ∈ cs) ->
  filter atRoot its ++ flat_map (fun name => filter (inCategoryNamed name) its) cs ≡ₚ its.
Proof.
  intros Huniq Hempty.
  induction its as [|x its IH]; intros Hcover.
  { simpl. rewrite flat_map_nil; done. }
  assert (IH' : filter atRoot its
                ++ flat_map (fun name => filter (inCategoryNamed name) its) cs ≡ₚ its).
  { apply IH. intros item name Hin. apply Hcover. by right. }
  destruct (truthyOpt (category x)) eqn:Htruthy.
  - destruct (category x) as [name|] eqn:Hcat; [|done]. simpl in Htruthy.
    rewrite filter_cons_False by (by rewrite Hcat; simpl; rewrite Htruthy).
    assert (Hin : name ∈ cs) by (apply (Hcover x); [by left|done..]).
    rewrite (categories_take cs name x its Huniq Hin Hcat).
    by rewrite <- Permutation_middle, IH'.
  - rewrite filter_cons_True by (by rewrite Htruthy).
    rewrite categories_skip; [simpl; by rewrite IH'|].
    intros name Hin Hcat. rewrite Hcat in Htruthy. simpl in Htruthy.
    unfold truthy in Htruthy. apply negb_false_iff, String.eqb_eq in Htruthy.
    by subst name.
Qed.

Lemma tree_paths (d : FS) (p : Provider) :
  "" ∉ categoryList p ->
  omap shownPath (topLevels localeCompare toLowerCase d p) ≡ₚ path <$> items p.
Proof.
  intros Hempty. rewrite topLevels_paths. apply fmap_Permutation.
  apply shown_once.
  - apply getAllCategories_NoDup.
  - intros Hin. apply getAllCategories_elem in Hin as [Hin|(Htruthy & _)]; [done|].
    discriminate.
  - intros item name Hin Hcat Htruthy. apply getAllCategories_elem. right.
    split; [done|]. by exists item.
Qed.

End TreeFacts.

(** X19: when the empty string is not a name of the category list, the root
    of the tree together with the children of its category nodes shows every
    stored path exactly as often as the store holds it: no favorite is left
    out, none is shown twice. *)
Theorem tree_shows_every_favorite_once :
  forall (FS : Type) (fsys : FileSystem FS) (localeCompare : string -> string -> Z)
         (toLowerCase : string -> string)
         (d : FS) (p : Provider),
    "" ∉ categoryList p ->
    omap shownPath (topLevels localeCompare toLowerCase d p) ≡ₚ path <$> items p.
Proof. intros. by apply tree_paths. Qed.

Lemma tree_shows_every_favorite_once_witness :
  omap shownPath (topLevels codePointCompare asciiLowerCase TreeExample.disk0 TreeExample.p0)
  ≡ₚ ["/w/a.txt"; "/w/b"; "/w/gone.txt"].
Proof.
  apply (tree_shows_every_favorite_once SimFS.t SimFS.fileSystem codePointCompare asciiLowerCase
           TreeExample.disk0 TreeExample.p0).
  simpl. intros Hin.
  repeat (apply elem_of_cons in Hin as [Heq|Hin]; [discriminate|]).
  by apply elem_of_nil in Hin.
Defined.

(** X20: the sort order and [localeCompare] reach the folder listings only:
    at the root and under a category node [getChildren] returns the same
    items whatever the sort order is, the favorites in the order the store
    holds them (at the root those without a category, followed by the
    category nodes in the order of [getAllCategories]; under a category node
    those of that category); a favorite that is a file has no children. *)
Theorem stored_order_is_shown_in_every_sort_order :
  forall (FS : Type) (fsys : FileSystem FS) (lc lc' : string -> string -> Z)
         (lower lower' : string -> string)
         (d : FS) (p : Provider) (order : SortOrder) (name : string),
    getChildren lc lower d (setSortOrder order p) None = getChildren lc' lower' d p None
    /\ getChildren lc lower d (setSortOrder order p) (Some (Category name))
       = getChildren lc' lower' d p (Some (Category name))
    /\ omap shownPath (getChildren lc lower d p None)
       = path <$> filter (fun item => negb (JsString.truthyOpt (category item)) = true)
                    (items p)
    /\ omap (fun r => match shown r with Category c => Some c | _ => None end)
         (getChildren lc lower d p None)
       = getAllCategories p
    /\ omap shownPath (getChildren lc lower d p (Some (Category name)))
       = path <$> filter (fun item => category item = Some name) (items p)
    /\ (forall label state itemPath cat,
           getChildren lc lower d p (Some (FavoriteItem label state itemPath File cat)) = []).
Proof.
  intros FS fsys lc lc' lower lower' d p order name. split_and!; try done.
  - cbn [getChildren]. rewrite omap_app.
    by rewrite (shownPath_favorites d (fun _ => None)), shownPath_categories, app_nil_r.
  - cbn [getChildren]. rewrite omap_app.
    assert (Hnone : forall l, omap (fun r => match shown r with
                                             | Category c => Some c
                                             | _ => None
                                             end)
                                (map (renderFavorite d None) l) = []).
    { induction l as [|item l IH]; [done|].
      simpl. unfold renderFavorite.
      destruct (existsSync d (path item)); simpl; exact IH. }
    rewrite Hnone. simpl. generalize (getAllCategories p) as cs.
    induction cs as [|c cs IH]; [done|]. simpl. f_equal. exact IH.
  - cbn [getChildren]. apply (shownPath_favorites d category).
Qed.

(** ** Persistence of the whole store *)

Section GeneralRoundTrip.
Import JsString NodePath Persist.
Local Arguments String.append : simpl nomatch.

Lemma plain_solid (s : string) : plain s = true -> solid s = true.
Proof.
  unfold plain, solid.
  intros [[[H1 _]%andb_true_iff _]%andb_true_iff H4]%andb_true_iff.
  by rewrite H1, H4.
Qed.

Lemma solid_segments (u dn : list string) :
  Forall (fun s => plain s = true) dn ->
  Forall (fun s => solid s = true) (map (fun _ : string => "..") u ++ dn).
Proof.
  intros Hdn. apply Forall_app. split.
  - apply Forall_forall. intros s Hs. apply list_elem_of_fmap in Hs as (? & -> & _). done.
  - eapply Forall_impl; [exact Hdn|]. apply plain_solid.
Qed.

Lemma solid_slashFree (s : string) : solid s = true -> slashFree s = true.
Proof. unfold solid. by intros [_ ?]%andb_true_iff. Qed.

Lemma splitSlash_joinSlash_solid (seg : string) (segs : list string) :
  Forall (fun s => solid s = true) (seg :: segs) ->
  splitSlash (joinSlash (seg :: segs)) = seg :: segs.
Proof.
  revert seg. induction segs as [|seg' segs IH]; intros seg Hsolid.
  - apply splitSlash_slashFree, solid_slashFree. by inversion Hsolid.
  - inversion Hsolid as [|? ? Hseg Hrest]; subst.
    change (joinSlash (seg :: seg' :: segs))
      with (seg +:+ String "/" (joinSlash (seg' :: segs))).
    rewrite splitSlash_app_slash, (IH _ Hrest).
    by rewrite (splitSlash_slashFree _ (solid_slashFree _ Hseg)).
Qed.

Lemma joinSlash_solid_head (seg : string) (segs : list string) :
  solid seg = true ->
  truthy (joinSlash (seg :: segs)) = true /\ isAbsolute (joinSlash (seg :: segs)) = false.
Proof.
  unfold solid. intros [Hne Hfree]%andb_true_iff.
  destruct seg as [|c seg]; [done|]. simpl in Hfree.
  apply andb_true_iff in Hfree as [Hc _]. apply negb_true_iff in Hc.
  by destruct segs.
Qed.

Lemma lastIsSlash_joinSlash_solid (seg : string) (segs : list string) :
  Forall (fun s => solid s = true) (seg :: segs) ->
  lastIsSlash (joinSlash (seg :: segs)) = false.
Proof.
  revert seg. induction segs as [|seg' segs IH]; intros seg Hsolid.
  - apply lastIsSlash_slashFree, solid_slashFree. by inversion Hsolid.
  - inversion Hsolid as [|? ? _ Hrest]; subst.
    change (joinSlash (seg :: seg' :: segs))
      with (seg +:+ String "/" (joinSlash (seg' :: segs))).
    rewrite lastIsSlash_app.
    specialize (IH _ Hrest).
    destruct (joinSlash (seg' :: segs)) eqn:Hjoin; [|done].
    inversion Hrest as [|? ? Hseg' _]; subst.
    destruct (joinSlash_solid_head seg' segs Hseg') as [Htruthy _].
    by rewrite Hjoin in Htruthy.
Qed.

Lemma dropCommon_split (rs qs u dn : list string) :
  dropCommon rs qs = (u, dn) -> exists c, rs = c ++ u /\ qs = c ++ dn.
Proof.
  revert qs. induction rs as [|r rs IH]; intros qs Hdrop.
  { simpl in Hdrop. injection Hdrop as <- <-. by exists []. }
  destruct qs as [|q qs].
  { simpl in Hdrop. injection Hdrop as <- <-. by exists []. }
  simpl in Hdrop. destruct (String.eqb r q) eqn:Hrq.
  - apply String.eqb_eq in Hrq as ->.
    destruct (IH _ Hdrop) as (c & -> & ->). by exists (q :: c).
  - injection Hdrop as <- <-. by exists [].
Qed.

(** As many [..] segments as the stack has plain segments on top pop them
    all. *)
Lemma pop_segments (l top stack : list string) :
  length l = length top ->
  Forall (fun s => plain s = true) top ->
  fold_left (pushSegment false) (map (fun _ : string => "..") l) (top ++ stack) = stack.
Proof.
  revert top. induction l as [|x l IH]; intros top Hlen Htop.
  { by destruct top. }
  destruct top as [|t top]; [done|]. simpl in Hlen.
  inversion Htop as [|? ? Ht Hrest]; subst.
  simpl. unfold pushSegment at 2. simpl.
  assert (Hnot : String.eqb t ".." = false).
  { unfold plain in Ht.
    apply andb_true_iff in Ht as [[_ Ht]%andb_true_iff _].
    by apply negb_true_iff in Ht. }
  rewrite Hnot. apply IH; [lia|done].
Qed.

Lemma absPath_inj (rs qs : list string) :
  Forall (fun s => plain s = true) rs ->
  Forall (fun s => plain s = true) qs ->
  absPath rs = absPath qs -> rs = qs.
Proof.
  intros Hrs Hqs Heq. apply (f_equal (normalizeSegs false)) in Heq.
  by rewrite !normalizeSegs_absPath in Heq.
Qed.

Lemma relative_normal (cwd : string) (rs qs u dn : list string) :
  Forall (fun s => plain s = true) rs ->
  Forall (fun s => plain s = true) qs ->
  rs <> qs ->
  dropCommon rs qs = (u, dn) ->
  relative cwd (absPath rs) (absPath qs) = joinSlash (map (fun _ => "..") u ++ dn).
Proof.
  intros Hrs Hqs Hne Hdrop. unfold relative, resolveSegs.
  assert (Hdiff : String.eqb (absPath rs) (absPath qs) = false).
  { apply String.eqb_neq. intros Heq. by apply Hne, absPath_inj. }
  rewrite Hdiff.
  change (isAbsolute (absPath rs)) with true.
  change (isAbsolute (absPath qs)) with true.
  rewrite !normalizeSegs_absPath by done.
  by rewrite Hdrop.
Qed.

Lemma join_root_relative (c u dn : list string) :
  Forall (fun s => plain s = true) (c ++ u) ->
  Forall (fun s => plain s = true) dn ->
  u ++ dn <> [] ->
  join (absPath (c ++ u)) (joinSlash (map (fun _ => "..") u ++ dn)) = absPath (c ++ dn).
Proof.
  intros Hrs Hdn Hne.
  pose proof (solid_segments u dn Hdn) as Hsolid.
  destruct (map (fun _ : string => "..") u ++ dn) as [|seg segs] eqn:Hsegs.
  { apply app_eq_nil in Hsegs as [Hu ->]. destruct u; done. }
  assert (Hseg : solid seg = true) by (by inversion Hsolid).
  destruct (joinSlash_solid_head seg segs Hseg) as [Htruthy _].
  unfold truthy in Htruthy. apply negb_true_iff in Htruthy.
  unfold join. rewrite Htruthy.
  change (String.eqb (absPath (c ++ u)) "") with false. cbn iota.
  change (absPath (c ++ u) +:+ "/" +:+ joinSlash (seg :: segs))
    with (String "/" (joinSlash (c ++ u) +:+ String "/" (joinSlash (seg :: segs)))).
  apply Forall_app in Hrs as Hcu. destruct Hcu as [Hc Hu].
  apply normalize_absolute; [| |by apply Forall_app].
  - change (String "/" (joinSlash (c ++ u) +:+ String "/" (joinSlash (seg :: segs))))
      with (String "/" (joinSlash (c ++ u)) +:+ String "/" (joinSlash (seg :: segs))).
    rewrite lastIsSlash_app.
    pose proof (lastIsSlash_joinSlash_solid seg segs Hsolid) as Hlast.
    apply String.eqb_neq in Htruthy.
    by destruct (joinSlash (seg :: segs)).
  - unfold normalizeSegs.
    change (String "/" (joinSlash (c ++ u) +:+ String "/" (joinSlash (seg :: segs))))
      with (absPath (c ++ u) +:+ String "/" (joinSlash (seg :: segs))).
    rewrite stackOf_below, stackOf_absPath, splitSlash_joinSlash_solid by done.
    rewrite <- Hsegs, fold_left_app, rev_app_distr.
    rewrite pop_segments.
    + rewrite push_plain_segments by done.
      by rewrite rev_app_distr, !rev_involutive.
    + by rewrite length_rev.
    + by apply Forall_rev.
Qed.

(** Storing a normal path against a normal root and loading it again gives
    the path back, wherever the path lies. *)
Lemma round_trip_anywhere (cwd : string) (rs qs : list string) :
  Forall (fun s => plain s = true) rs ->
  Forall (fun s => plain s = true) qs ->
  toAbsolutePath (Some (absPath rs)) (toRelativePath (Some (absPath rs)) cwd (absPath qs))
  = absPath qs.
Proof.
  intros Hrs Hqs.
  destruct (startsWith (absPath qs) (absPath rs)) eqn:Hprefix.
  2:{ by apply outside_prefix_unchanged. }
  destruct (decide (rs = qs)) as [->|Hne].
  { rewrite root_sentinel by done. unfold toAbsolutePath.
    change (negb (truthy (absPath qs))) with false.
    change (isAbsolute ".") with false. cbn iota.
    by apply join_root_dot. }
  destruct (dropCommon rs qs) as [u dn] eqn:Hdrop.
  destruct (dropCommon_split _ _ _ _ Hdrop) as (c & -> & ->).
  assert (Hdn : Forall (fun s => plain s = true) dn).
  { by apply Forall_app in Hqs as [_ ?]. }
  assert (Hnonempty : u ++ dn <> []).
  { intros [-> ->]%app_eq_nil. done. }
  pose proof (solid_segments u dn Hdn) as Hsolid.
  unfold toRelativePath.
  change (negb (truthy (absPath (c ++ u)))) with false. cbn iota.
  rewrite Hprefix, (relative_normal cwd _ _ u dn Hrs Hqs Hne Hdrop).
  destruct (map (fun _ : string => "..") u ++ dn) as [|seg segs] eqn:Hsegs.
  { apply app_eq_nil in Hsegs as [Hu ->]. destruct u; done. }
  assert (Hseg : solid seg = true) by (by inversion Hsolid).
  destruct (joinSlash_solid_head seg segs Hseg) as [Htruthy Hrel].
  rewrite Htruthy. unfold toAbsolutePath.
  change (negb (truthy (absPath (c ++ u)))) with false. cbn iota.
  rewrite Hrel, <- Hsegs.
  by apply join_root_relative.
Qed.

End GeneralRoundTrip.

Section StorePersistence.
Import Persist.

Lemma restore_items (root : option string) (c : Config) :
  items (restore root c)
  = map (fun item => setPath item (toAbsolutePath root (path item)))
      (default [] (cfgItems c)).
Proof. unfold restore. by destruct (default [] (cfgItems c)). Qed.

Lemma restore_rest (root : option string) (c : Config) :
  categoryList (restore root c) = default [] (cfgCategories c)
  /\ sortOrder (restore root c) = default MANUAL (cfgSortOrder c).
Proof. unfold restore. by destruct (default [] (cfgItems c)). Qed.

Lemma saved_items_restored (root : option string) (cwd : string)
    (its : list FavoriteEntry) :
  Forall (fun e => toAbsolutePath root (toRelativePath root cwd (path e)) = path e) its ->
  map (fun item => setPath item (toAbsolutePath root (path item)))
    (map (fun item => setPath item (toRelativePath root cwd (path item))) its)
  = its.
Proof.
  induction 1 as [|e its He _ IH]; simpl; [done|].
  rewrite IH. f_equal. unfold setPath. simpl. rewrite He. by destruct e.
Qed.

Lemma round_trip_normal (root : option string) (cwd p : string) :
  (forall r, root = Some r -> normalPath r /\ normalPath p) ->
  toAbsolutePath root (toRelativePath root cwd p) = p.
Proof.
  intros Hnormal. destruct root as [r|]; [|done].
  destruct (Hnormal r eq_refl) as [(rs & Hrs & ->) (qs & Hqs & ->)].
  by apply round_trip_anywhere.
Qed.

End StorePersistence.

(** X21: what [saveConfig] and [saveCategories] write is what [activate]
    restores: with no workspace folder open, or with a workspace root and
    entry paths that are absolute paths in normal form (inside the root,
    next to it or anywhere else), a provider restored from the saved
    configuration holds the same entries, in the same order and with their
    types and categories, and the same category list; its sort order is the
    one the configuration holds, [MANUAL] when it holds none, and after
    [yasinFavorites.sort] the one that was picked. *)
Theorem saved_store_is_restored :
  forall (FS : Type) (root : option string) (cwd : string) (p : Provider) (c : Config)
         (order : SortOrder) (w : World FS),
    (forall r, root = Some r ->
               normalPath r /\ Forall (fun e => normalPath (path e)) (items p)) ->
    restore root (saveCategories p (saveConfig root cwd p c))
    = {| items := items p; categoryList := categoryList p;
         sortOrder := default MANUAL (cfgSortOrder c) |}
    /\ sortOrder (restore root (fst (cmd_sort (Some order) c w))) = order
    /\ sortOrder (provider (snd (cmd_sort (Some order) c w))) = order.
Proof.
  intros FS root cwd p c order w Hnormal. split_and!.
  - pose proof (restore_items root (saveCategories p (saveConfig root cwd p c))) as Hitems.
    destruct (restore_rest root (saveCategories p (saveConfig root cwd p c)))
      as [Hcategories Horder].
    destruct (restore root (saveCategories p (saveConfig root cwd p c)))
      as [its cs o]. simpl in *. subst its cs o.
    f_equal. unfold savedItems. apply saved_items_restored.
    apply Forall_forall. intros e He. apply round_trip_normal.
    intros r Hr. destruct (Hnormal r Hr) as [Hroot Hpaths].
    split; [done|]. rewrite Forall_forall in Hpaths. by apply Hpaths.
  - by destruct (restore_rest root (fst (cmd_sort (Some order) c w))) as [_ ->].
  - done.
Qed.

Lemma saved_store_is_restored_witness :
  restore (Some "/home/u/proj")
    (saveCategories PersistExample.p0
       (saveConfig (Some "/home/u/proj") "/tmp" PersistExample.p0
          PersistExample.emptyConfig))
  = PersistExample.p0.
Proof.
  destruct (saved_store_is_restored SimFS.t (Some "/home/u/proj") "/tmp"
              PersistExample.p0 PersistExample.emptyConfig MANUAL
              (SimFS.world [] [] emptyClipboard [])) as (Hrestored & _).
  - intros r [= <-]. split.
    + exists ["home"; "u"; "proj"]. split; [by repeat constructor|reflexivity].
    + constructor; [|constructor; [|constructor; [|constructor]]].
      * exists ["home"; "u"; "proj"; "src"; "a.txt"].
        split; [by repeat constructor|reflexivity].
      * exists ["home"; "u"; "project2"; "b"].
        split; [by repeat constructor|reflexivity].
      * exists ["etc"; "hosts"]. split; [by repeat constructor|reflexivity].
  - exact Hrestored.
Defined.

(** ** Relative paths on the clipboard *)

Section RelativeText.
Context {FS : Type} `{FileSystem FS}.
Import JsString NodePath Persist.
Local Arguments String.append : simpl nomatch.

Lemma removeFirst_unfold (pattern s : string) :
  removeFirst pattern s
  = if String.prefix pattern s
    then String.substring (String.length pattern)
           (String.length s - String.length pattern) s
    else match s with
         | EmptyString => EmptyString
         | String c s' => String c (removeFirst pattern s')
         end.
Proof. by destruct s. Qed.

Lemma substring_all (s : string) : String.substring 0 (String.length s) s = s.
Proof. induction s as [|c s IH]; simpl; [done|]. by rewrite IH. Qed.

Lemma substring_after (a b : string) :
  String.substring (String.length a) (String.length (a +:+ b) - String.length a) (a +:+ b)
  = b.
Proof.
  induction a as [|c a IH]; simpl.
  - rewrite Nat.sub_0_r. apply substring_all.
  - exact IH.
Qed.

Lemma removeFirst_prefix (pattern rest : string) :
  removeFirst pattern (pattern +:+ rest) = rest.
Proof. by rewrite removeFirst_unfold, prefix_app, substring_after. Qed.

Lemma prefix_length (a b : string) :
  String.prefix a b = true -> String.length a <= String.length b.
Proof.
  revert b. induction a as [|c a IH]; intros b Hprefix; simpl; [lia|].
  destruct b as [|c' b]; [done|]. simpl in Hprefix.
  destruct (ascii_dec c c'); [|done]. specialize (IH _ Hprefix). simpl. lia.
Qed.

(** A string shorter than the pattern does not hold it. *)
Lemma removeFirst_short (pattern s : string) :
  String.length s < String.length pattern -> removeFirst pattern s = s.
Proof.
  induction s as [|c s IH]; intros Hshort; rewrite removeFirst_unfold.
  - destruct (String.prefix pattern "") eqn:Hprefix; [|done].
    apply prefix_length in Hprefix. simpl in *. lia.
  - destruct (String.prefix pattern (String c s)) eqn:Hprefix.
    + apply prefix_length in Hprefix. lia.
    + rewrite IH; [done|]. simpl in Hshort. lia.
Qed.

Lemma length_append (a b : string) :
  String.length (a +:+ b) = String.length a + String.length b.
Proof. induction a as [|c a IH]; simpl; [done|]. by rewrite IH. Qed.

Lemma relativeText_below (root rest : string) :
  truthy root = true -> relativeText (Some root) (root +:+ "/" +:+ rest) = rest.
Proof.
  intros Htruthy. unfold relativeText, startsWith.
  rewrite Htruthy, prefix_app. cbn [andb].
  by rewrite <- append_assoc, removeFirst_prefix.
Qed.

Lemma relativeText_root (root : string) : relativeText (Some root) root = root.
Proof.
  unfold relativeText. destruct (truthy root && startsWith root root); [|done].
  apply removeFirst_short. rewrite length_append. simpl. lia.
Qed.

Lemma relativeText_outside (root p : string) :
  startsWith p root = false -> relativeText (Some root) p = p.
Proof. intros Hout. unfold relativeText. by rewrite Hout, andb_false_r. Qed.

End RelativeText.

(** X22: the text [copyRelativePath] makes of a path, for a non-empty
    workspace root: a path that is the root, a separator and a rest is
    copied as the rest (and the command shows its status message); this is
    what [saveConfig] stores for a normal path below a normal root other than
    [/]; the root itself is copied as it is, where [saveConfig] stores a
    dot; and a path that does not begin with the characters of the root is
    copied as it is. *)
Theorem copyRelativePath_strips_the_root :
  forall (FS : Type) (fsys : FileSystem FS) (root : string),
    JsString.truthy root = true ->
    (forall rest, relativeText (Some root) (root +:+ "/" +:+ rest) = rest)
    /\ (forall label state ctx rest (w : World FS),
           JsString.truthy (root +:+ "/" +:+ rest) = true ->
           cmd_copyRelativePath (Some root)
             (Some (Resource label state (root +:+ "/" +:+ rest) ctx)) None w
           = (notify w (StatusBar "✅ Relative path copied"), Some rest))
    /\ (forall cwd r rs seg ps,
           Forall (fun s => plain s = true) (r :: rs) ->
           Forall (fun s => plain s = true) (seg :: ps) ->
           root = absPath (r :: rs) ->
           relativeText (Some root) (absPath ((r :: rs) ++ seg :: ps))
           = Persist.toRelativePath (Some root) cwd (absPath ((r :: rs) ++ seg :: ps)))
    /\ relativeText (Some root) root = root
    /\ (forall p, JsString.startsWith p root = false -> relativeText (Some root) p = p).
Proof.
  intros FS fsys root Htruthy. split_and!.
  - intros rest. by apply relativeText_below.
  - intros label state ctx rest w Hpath.
    unfold cmd_copyRelativePath, copyPathItems.
    cbn [selection omap list_omap nodePath]. rewrite Hpath.
    cbn [map]. by rewrite relativeText_below.
  - intros cwd r rs seg ps Hrs Hps ->.
    destruct (round_trip_under_root cwd (r :: rs) (seg :: ps) Hrs Hps) as [_ ->].
    rewrite absPath_app. apply (relativeText_below (absPath (r :: rs))). done.
  - apply relativeText_root.
  - intros p. apply relativeText_outside.
Qed.

Lemma copyRelativePath_strips_the_root_witness :
  relativeText (Some "/home/u/proj") "/home/u/proj/src/a.txt" = "src/a.txt"
  /\ relativeText (Some "/home/u/proj") "/home/u/proj" = "/home/u/proj".
Proof.
  destruct (copyRelativePath_strips_the_root SimFS.t SimFS.fileSystem "/home/u/proj"
              eq_refl) as (Hbelow & _ & _ & Hroot & _).
  split; [apply (Hbelow "src/a.txt") | exact Hroot].
Defined.

(** ** Delete *)

Section DeleteFacts.
Context {FS : Type}.
Variable moveToTrash : FS -> string -> FsResult FS.
Import Store.

(** However the loop of the delete handler ends, the store has lost the
    entries of the paths whose delete call returned, and only those: the
    paths before the call that failed, or all of them. *)
Lemma deleteLoop_outcome (paths : list string) (d d' : FS) (p p' : Provider)
    (thrown : option string) :
  uniquePaths (items p) ->
  deleteLoop moveToTrash paths d p = (d', p', thrown) ->
  exists gone d1,
    trashed moveToTrash d gone d1
    /\ items p' = filter (fun e => path e ∉ gone) (items p)
    /\ categoryList p' = categoryList p
    /\ sortOrder p' = sortOrder p
    /\ match thrown with
       | None => paths = gone /\ d' = d1
       | Some msg =>
           exists failing rest,
             paths = gone ++ failing :: rest
             /\ moveToTrash d1 failing = Failed d' msg
       end.
Proof.
  revert d p. induction paths as [|itemPath rest IH]; intros d p Huniq Hloop.
  { simpl in Hloop. injection Hloop as <- <- <-.
    exists [], d. split_and!; try done; [constructor|].
    symmetry. apply filter_all. apply Forall_forall. intros e _. apply not_elem_of_nil. }
  simpl in Hloop. destruct (moveToTrash d itemPath) as [d0|d0 msg] eqn:Hcall.
  - destruct (IH d0 (removeFavorite itemPath p))
      as (gone & d1 & Hrun & Hitems & Hcs & Hso & Hend);
      [by apply removeFavorite_unique | done |].
    exists (itemPath :: gone), d1. split_and!.
    + by econstructor.
    + rewrite Hitems, removeFavorite_filter by done.
      rewrite list_filter_filter. apply list_filter_iff. intros e.
      rewrite not_elem_of_cons. tauto.
    + rewrite Hcs. unfold removeFavorite. by destruct (findByPath _ _) as [[? ?]|].
    + rewrite Hso. unfold removeFavorite. by destruct (findByPath _ _) as [[? ?]|].
    + destruct thrown as [msg|].
      * destruct Hend as (failing & after & -> & Hfailed). by exists failing, after.
      * by destruct Hend as [-> ->].
  - injection Hloop as <- <- <-.
    exists [], d. split_and!; try done; [constructor| |by exists itemPath, rest].
    symmetry. apply filter_all. apply Forall_forall. intros e _. apply not_elem_of_nil.
Qed.

End DeleteFacts.

(** X23: [yasinFavorites.delete], once confirmed, on a store with unique
    paths.  The delete calls are made for the targets in order; let [gone]
    be the targets whose call returned: all of them when the handler ends
    without an exception, and otherwise those before the target whose call
    threw the exception the handler ends with.  The store has lost exactly
    the entries whose path is in [gone] (the entry of the target whose call
    threw is kept, and so are those of the targets after it); the entries
    left keep their order; the category list, the sort order, the clipboard,
    the selection and the messages are as they were (a deleted path stays on
    the clipboard).  Without the confirmation nothing changes. *)
Theorem delete_untracks_what_it_trashes :
  forall (FS : Type) (moveToTrash : FS -> string -> FsResult FS)
         (resource : option TreeNode) (w : World FS),
    uniquePaths (items (provider w)) ->
    let targets := omap nodePath (clipItems resource (selection w)) in
    let after := fst (cmd_delete moveToTrash resource true w) in
    (exists gone d1,
        trashed moveToTrash (disk w) gone d1
        /\ items (provider after)
           = filter (fun e => path e ∉ gone) (items (provider w))
        /\ match snd (cmd_delete moveToTrash resource true w) with
           | None => targets = gone /\ disk after = d1
           | Some msg =>
               exists failing rest,
                 targets = gone ++ failing :: rest
                 /\ moveToTrash d1 failing = Failed (disk after) msg
           end)
    /\ categoryList (provider after) = categoryList (provider w)
    /\ sortOrder (provider after) = sortOrder (provider w)
    /\ clipboard after = clipboard w
    /\ selection after = selection w
    /\ messages after = messages w
    /\ cmd_delete moveToTrash resource false w = (w, None).
Proof.
  intros FS moveToTrash resource w Huniq targets after.
  assert (Hunconfirmed : cmd_delete moveToTrash resource false w = (w, None)).
  { unfold cmd_delete. by rewrite andb_false_r. }
  subst after. unfold cmd_delete. fold targets.
  destruct (0 <? length targets)%nat eqn:Hsome; simpl.
  - destruct (deleteLoop moveToTrash targets (disk w) (provider w))
      as [[d' p'] thrown] eqn:Hloop.
    destruct (deleteLoop_outcome moveToTrash targets (disk w) d' (provider w) p' thrown
                Huniq Hloop) as (gone & d1 & Hrun & Hitems & Hcs & Hso & Hend).
    simpl. split_and!; try done. by exists gone, d1.
  - split_and!; try done. exists [], (disk w). split_and!.
    + constructor.
    + symmetry. apply filter_all. apply Forall_forall. intros e _. apply not_elem_of_nil.
    + clearbody targets. by destruct targets.
    + reflexivity.
Qed.

Module DeleteChecks.
Import SimFS UniquenessExample.

(** [/w/a.txt] and [/w/b.txt] are selected; the second is not on disk.  The
    first is moved to the trash and untracked, the call for the second
    throws, and its entry stays. *)
Example delete_stops_at_the_missing_file :
  let w := world disk0 favorites emptyClipboard
             [a_txt; FavoriteItem "b.txt" CollapsibleNone "/w/b.txt" File None] in
  cmd_delete DeleteExample.moveToTrash None true w
  = (world [dir "/"; dir "/w"]
       [{| path := "/w/b.txt"; type := File; category := None |}]
       emptyClipboard
       [a_txt; FavoriteItem "b.txt" CollapsibleNone "/w/b.txt" File None],
     Some "EntryNotFound (FileSystemError)").
Proof. reflexivity. Qed.

End DeleteChecks.

Lemma delete_untracks_what_it_trashes_witness :
  items (provider (fst (cmd_delete DeleteExample.moveToTrash
                          (Some UniquenessExample.a_txt) true UniquenessExample.w0)))
  = [{| path := "/w/b.txt"; type := File; category := None |}].
Proof.
  destruct (delete_untracks_what_it_trashes SimFS.t DeleteExample.moveToTrash
              (Some UniquenessExample.a_txt) UniquenessExample.w0)
    as ((gone & d1 & _ & Hitems & Hend) & _).
  - unfold uniquePaths. simpl. apply NoDup_cons. split; [|apply NoDup_singleton].
    intros Hin. apply list_elem_of_singleton in Hin. discriminate.
  - change (snd (cmd_delete DeleteExample.moveToTrash (Some UniquenessExample.a_txt) true
                   UniquenessExample.w0)) with (@None string) in Hend.
    destruct Hend as [<- _]. rewrite Hitems. reflexivity.
Defined.

(** ** Drag *)

Section DragFacts.

Lemma handleDrag_payload (source : list TreeNode) :
  default [] (handleDrag source)
  = omap (fun item => match item with
                      | Resource _ _ v ctx =>
                          Some {| dragPath := v;
                                  dragType := if String.eqb ctx "resource.dir"
                                              then Folder else File |}
                      | _ => None
                      end) source.
Proof. unfold handleDrag. by destruct (omap _ source). Qed.

Lemma handleDrag_none (source : list TreeNode) :
  handleDrag source = None <-> Forall (fun r => isResource r = false) source.
Proof.
  unfold handleDrag. split.
  - intros Hnone. apply Forall_forall. intros r Hr.
    destruct r as [| |label state v ctx]; try done.
    destruct (omap _ source) as [|x xs] eqn:Hdata; [|done].
    assert (Hin : {| dragPath := v;
                     dragType := if String.eqb ctx "resource.dir" then Folder else File |}
                  ∈ omap (fun item => match item with
                                      | Resource _ _ v ctx =>
                                          Some {| dragPath := v;
                                                  dragType := if String.eqb ctx "resource.dir"
                                                              then Folder else File |}
                                      | _ => None
                                      end) source).
    { apply list_elem_of_omap. by exists (Resource label state v ctx). }
    rewrite Hdata in Hin. by apply elem_of_nil in Hin.
  - intros Hnone.
    assert (Hdata : omap (fun item => match item with
                                      | Resource _ _ v ctx =>
                                          Some {| dragPath := v;
                                                  dragType := if String.eqb ctx "resource.dir"
                                                              then Folder else File |}
                                      | _ => None
                                      end) source = []).
    { induction Hnone as [|r source Hr _ IH]; [done|].
      destruct r; try done; simpl; exact IH. }
    by rewrite Hdata.
Qed.

End DragFacts.

(** X24: only the items of folder listings can be dragged: the payload of a
    drag holds the paths of the [Resource] items of the source, in order; no
    payload is set exactly when the source holds favorites and category
    nodes only, and a drop that follows then changes nothing and shows
    nothing. *)
Theorem only_resources_are_dragged :
  forall (FS : Type) (fsys : FileSystem FS) (source : list TreeNode),
    dragPath <$> default [] (handleDrag source)
    = omap (fun item => match item with
                        | Resource _ _ v _ => Some v
                        | _ => None
                        end) source
    /\ (handleDrag source = None <-> Forall (fun r => isResource r = false) source)
    /\ (Forall (fun r => isResource r = false) source ->
        forall (target : option TreeNode) (w : World FS),
          handleDrop target (handleDrag source) w = w).
Proof.
  intros FS fsys source. split_and!.
  - rewrite handleDrag_payload.
    induction source as [|r source IH]; [done|].
    destruct r; simpl; try exact IH. f_equal. exact IH.
  - apply handleDrag_none.
  - intros Hnone target w. apply handleDrag_none in Hnone. by rewrite Hnone.
Qed.

Lemma only_resources_are_dragged_witness :
  handleDrop (Some DropExample.subNode)
    (handleDrag [ClipboardExample.X; Category "work"]) ClipboardExample.w0
  = ClipboardExample.w0.
Proof.
  destruct (only_resources_are_dragged SimFS.t SimFS.fileSystem
              [ClipboardExample.X; Category "work"]) as (_ & _ & Hdrop).
  apply Hdrop. by repeat constructor.
Defined.

(** ** The well-formed store *)

Section WellFormedStore.
Context {FS : Type} `{FileSystem FS}.
Import JsString Store.

Lemma truthy_named (name : string) : truthy name = true -> name <> "".
Proof. unfold truthy. intros Hname ->. done. Qed.

Lemma addCategory_named (name : string) (p : Provider) :
  truthy name = true -> "" ∉ categoryList p -> "" ∉ categoryList (addCategory name p).
Proof.
  intros Hname Hnamed. unfold addCategory. destruct (existsb _ _); [done|].
  simpl. rewrite elem_of_app, list_elem_of_singleton.
  intros [?|Heq]; [done|]. by apply (truthy_named name).
Qed.

Lemma moveToCategory_named (itemPath name : string) (p : Provider) :
  truthy name = true -> "" ∉ categoryList p ->
  "" ∉ categoryList (moveToCategory itemPath name p).
Proof.
  intros Hname Hnamed. unfold moveToCategory.
  destruct (findByPath _ _) as [[index e]|]; [|done]. simpl.
  destruct (existsb _ _); [done|].
  rewrite elem_of_app, list_elem_of_singleton.
  intros [?|Heq]; [done|]. by apply (truthy_named name).
Qed.

Lemma renameCategory_named (oldName newName : string) (p : Provider) :
  truthy newName = true -> "" ∉ categoryList p ->
  "" ∉ categoryList (renameCategory oldName newName p).
Proof.
  intros Hname Hnamed. unfold renameCategory. simpl.
  destruct (indexOf _ _) as [index|]; [|done].
  intros [Heq|Hin]%elem_of_insert_cases; [|done].
  by apply (truthy_named newName).
Qed.

Lemma deleteCategory_named (name : string) (p : Provider) :
  "" ∉ categoryList p -> "" ∉ categoryList (deleteCategory name p).
Proof.
  intros Hnamed. unfold deleteCategory. simpl.
  destruct (indexOf _ _) as [index|]; [|done].
  intros Hin. apply Hnamed. by eapply list_elem_of_delete_inv.
Qed.

Lemma addFavorite_categories (itemPath : string) (ty : ItemType) (p : Provider) :
  categoryList (fst (fst (addFavorite itemPath ty p))) = categoryList p.
Proof. unfold addFavorite. by destruct (existsb _ _). Qed.

Lemma removeFavorite_categories (itemPath : string) (p : Provider) :
  categoryList (removeFavorite itemPath p) = categoryList p.
Proof. unfold removeFavorite. by destruct (findByPath _ _) as [[? ?]|]. Qed.

Lemma moveToRoot_categories (itemPath : string) (p : Provider) :
  categoryList (moveToRoot itemPath p) = categoryList p.
Proof. unfold moveToRoot. by destruct (findByPath _ _) as [[? ?]|]. Qed.

Lemma addCategory_items (name : string) (p : Provider) :
  items (addCategory name p) = items p.
Proof. unfold addCategory. by destruct (existsb _ _). Qed.

Lemma wellFormed_addFavorite (itemPath : string) (ty : ItemType) (p : Provider) :
  wellFormed p -> wellFormed (fst (fst (addFavorite itemPath ty p))).
Proof.
  intros (Huniq & Hlisted & Hnamed). split_and!.
  - by apply addFavorite_unique.
  - by apply addFavorite_listed.
  - by rewrite addFavorite_categories.
Qed.

Lemma wellFormed_removeFavorite (itemPath : string) (p : Provider) :
  wellFormed p -> wellFormed (removeFavorite itemPath p).
Proof.
  intros (Huniq & Hlisted & Hnamed). split_and!.
  - by apply removeFavorite_unique.
  - by apply removeFavorite_listed.
  - by rewrite removeFavorite_categories.
Qed.

Lemma wellFormed_addCategory (name : string) (p : Provider) :
  truthy name = true -> wellFormed p -> wellFormed (addCategory name p).
Proof.
  intros Hname (Huniq & Hlisted & Hnamed). split_and!.
  - by rewrite addCategory_items.
  - by apply addCategory_listed.
  - by apply addCategory_named.
Qed.

Lemma wellFormed_moveToCategory (itemPath name : string) (p : Provider) :
  truthy name = true -> wellFormed p -> wellFormed (moveToCategory itemPath name p).
Proof.
  intros Hname (Huniq & Hlisted & Hnamed). split_and!.
  - by apply moveToCategory_unique.
  - by apply moveToCategory_listed.
  - by apply moveToCategory_named.
Qed.

Lemma wellFormed_moveToRoot (itemPath : string) (p : Provider) :
  wellFormed p -> wellFormed (moveToRoot itemPath p).
Proof.
  intros (Huniq & Hlisted & Hnamed). split_and!.
  - by apply moveToRoot_unique.
  - by apply moveToRoot_listed.
  - by rewrite moveToRoot_categories.
Qed.

Lemma wellFormed_renameCategory (oldName newName : string) (p : Provider) :
  truthy newName = true -> wellFormed p -> wellFormed (renameCategory oldName newName p).
Proof.
  intros Hname (Huniq & Hlisted & Hnamed). split_and!.
  - by apply renameCategory_unique.
  - by apply renameCategory_listed.
  - by apply renameCategory_named.
Qed.

Lemma wellFormed_deleteCategory (name : string) (p : Provider) :
  wellFormed p -> wellFormed (deleteCategory name p).
Proof.
  intros (Huniq & Hlisted & Hnamed). split_and!.
  - by apply deleteCategory_unique.
  - by apply deleteCategory_listed.
  - by apply deleteCategory_named.
Qed.

Lemma wellFormed_reorder
    (step : string -> option string -> list FavoriteEntry -> option (list FavoriteEntry))
    (resource : option TreeNode) (w : World FS) :
  (forall p cat its its', step p cat its = Some its' -> its' ≡ₚ its) ->
  wellFormed (provider w) -> wellFormed (provider (reorder step resource w)).
Proof.
  intros Hstep (Huniq & Hlisted & Hnamed).
  destruct (reorder_perm step resource w Hstep) as (Hperm & Hcs & _).
  split_and!.
  - eapply uniquePaths_perm; [symmetry; exact Hperm|done].
  - intros item c Hin Hc. rewrite Hcs. rewrite Hperm in Hin. by apply (Hlisted item).
  - by rewrite Hcs.
Qed.

Lemma wellFormed_deleteLoop (moveToTrash : FS -> string -> FsResult FS)
    (paths : list string) (d : FS) (p : Provider) :
  wellFormed p -> wellFormed (snd (fst (deleteLoop moveToTrash paths d p))).
Proof.
  revert d p. induction paths as [|itemPath rest IH]; intros d p Hwf; simpl; [done|].
  destruct (moveToTrash d itemPath) as [d'|d' msg]; [|done].
  by apply IH, wellFormed_removeFavorite.
Qed.

End WellFormedStore.

(** X25: the commands that edit the favorites and the categories keep the
    store well formed (no path tracked twice, every category of an entry
    listed, no category with the empty name), whatever they are invoked on
    and whatever is typed or picked: [addToFavorites], [remove],
    [newCategory], [renameCategory], [deleteCategory], [moveToCategory],
    [moveToRoot], [moveUp], [moveDown], [delete], [sort] and a drop. *)
Theorem commands_keep_the_store_well_formed :
  forall (FS : Type) (fsys : FileSystem FS) (moveToTrash : FS -> string -> FsResult FS)
         (w : World FS),
    wellFormed (provider w) ->
    (forall source, wellFormed (provider (cmd_addToFavorites source w)))
    /\ (forall resource, wellFormed (provider (cmd_remove resource w)))
    /\ (forall input, wellFormed (provider (cmd_newCategory input w)))
    /\ (forall category input,
           wellFormed (provider (cmd_renameCategory category input w)))
    /\ (forall category confirmed,
           wellFormed (provider (cmd_deleteCategory category confirmed w)))
    /\ (forall resource selected typed,
           wellFormed (provider (cmd_moveToCategory resource selected typed w)))
    /\ (forall resource, wellFormed (provider (cmd_moveToRoot resource w)))
    /\ (forall resource, wellFormed (provider (cmd_moveUp resource w)))
    /\ (forall resource, wellFormed (provider (cmd_moveDown resource w)))
    /\ (forall resource confirmed,
           wellFormed (provider (fst (cmd_delete moveToTrash resource confirmed w))))
    /\ (forall selected c, wellFormed (provider (snd (cmd_sort selected c w))))
    /\ (forall target dragged, wellFormed (provider (handleDrop target dragged w))).
Proof.
  intros FS fsys moveToTrash w Hwf. split_and!.
  - intros source. unfold cmd_addToFavorites.
    destruct (addSourcePath source) as [itemPath|]; [|done].
    set (ty := match statSync (disk w) itemPath with
               | Some st => if isDirectory st then Folder else File
               | None => File
               end).
    pose proof (wellFormed_addFavorite itemPath ty (provider w) Hwf) as Hadded.
    by destruct (Store.addFavorite itemPath ty (provider w)) as [[p' shownNow] added].
  - intros resource. unfold cmd_remove.
    destruct (resourcePath resource) as [itemPath|]; [|done].
    by apply wellFormed_removeFavorite.
  - intros input. unfold cmd_newCategory.
    destruct input as [name|]; [|done].
    destruct (JsString.truthy name) eqn:Hname; [|done].
    by apply wellFormed_addCategory.
  - intros category input. unfold cmd_renameCategory.
    destruct (categoryName category) as [name|]; [|done].
    destruct input as [newName|]; [|done].
    destruct (JsString.truthy newName) eqn:Hname; [|done].
    destruct (negb (String.eqb newName name)); [|done].
    by apply wellFormed_renameCategory.
  - intros category confirmed. unfold cmd_deleteCategory.
    destruct (categoryName category) as [name|]; [|done].
    destruct confirmed; [|done].
    by apply wellFormed_deleteCategory.
  - intros resource selected typed. unfold cmd_moveToCategory.
    destruct (resourcePath resource) as [itemPath|]; [|done].
    destruct selected as [label|]; [|done].
    destruct (String.eqb label "+ Create New Folder").
    + destruct typed as [newName|]; [|done].
      destruct (JsString.truthy newName) eqn:Hname; [|done].
      by apply wellFormed_moveToCategory, wellFormed_addCategory.
    + destruct (JsString.truthy label) eqn:Hname; [|done].
      by apply wellFormed_moveToCategory.
  - intros resource. unfold cmd_moveToRoot.
    destruct (resourcePath resource) as [itemPath|]; [|done].
    by apply wellFormed_moveToRoot.
  - intros resource. by apply wellFormed_reorder; [apply moveUpItems_perm|].
  - intros resource. by apply wellFormed_reorder; [apply moveDownItems_perm|].
  - intros resource confirmed. unfold cmd_delete.
    destruct (_ && _); [|done].
    pose proof (wellFormed_deleteLoop moveToTrash
                  (omap nodePath (clipItems resource (selection w)))
                  (disk w) (provider w) Hwf) as Hloop.
    by destruct (deleteLoop _ _ _ _) as [[d' p'] thrown].
  - intros selected c. unfold cmd_sort. by destruct selected.
  - intros target dragged. by destruct (handleDrop_frame target dragged w) as [-> _].
Qed.

Lemma commands_keep_the_store_well_formed_witness :
  wellFormed (provider (cmd_moveToCategory (Some RenameExample.y_txt)
                          (Some "+ Create New Folder") (Some "notes") RenameExample.w1)).
Proof.
  destruct (commands_keep_the_store_well_formed SimFS.t SimFS.fileSystem
              DeleteExample.moveToTrash RenameExample.w1)
    as (_ & _ & _ & _ & _ & Hmove & _).
  - split_and!.
    + unfold uniquePaths. simpl. by apply unique_three.
    + intros item c Hin Hc. simpl in *.
      repeat (apply elem_of_cons in Hin as [->|Hin];
              [simpl in Hc; try discriminate; injection Hc as <-; by left|]).
      by apply elem_of_nil in Hin.
    + simpl. intros Hin. apply list_elem_of_singleton in Hin. discriminate.
  - apply (Hmove (Some RenameExample.y_txt) (Some "+ Create New Folder") (Some "notes")).
Defined.

(** ** Cut and paste: the entry of a path the loop reaches *)

(** X26: in a paste of a clipboard tagged Cut, for a clipboard path at
    whatever position of the batch that the loop reaches (the paths before
    it ran without an exception), that exists on disk then, whose rename
    into the destination directory succeeds and that the store tracks at
    position [index]: the entry at [index] gets the destination directory
    joined with the source's base name as its path and keeps its type and
    category, the sequence keeps its length and every other position holds
    what it held; and the handler ends with the disk, the store and the
    exception that the paths after it give from there, the clipboard cleared
    exactly when none of them throws. *)
Theorem paste_cut_rewrites_reached_path_in_place :
  forall (FS : Type) (fsys : FileSystem FS) (resource : option TreeNode) (w : World FS)
         (targetDir : string) (before : list string) (sourcePath : string)
         (after : list string) (d d' : FS) (its : list FavoriteEntry)
         (index : nat) (entry : FavoriteEntry),
    let destPath := NodePath.join targetDir (NodePath.basename sourcePath) in
    let its' := <[index := setPath entry destPath]> its in
    let rest := pasteLoop (Some Cut) targetDir after d' its' in
    pasteTarget resource w = Some targetDir ->
    clipboardOperation (clipboard w) = Some Cut ->
    clipboardPaths (clipboard w) = before ++ sourcePath :: after ->
    pasteLoop (Some Cut) targetDir before (disk w) (items (provider w)) = (d, its, None) ->
    existsSync d sourcePath = true ->
    renameSync d sourcePath destPath = Done d' ->
    Store.findByPath sourcePath its = Some (index, entry) ->
    (its' !! index
     = Some {| path := destPath; type := type entry; category := category entry |}
     /\ length its' = length its
     /\ (forall j, j <> index -> its' !! j = its !! j))
    /\ disk (fst (cmd_paste resource w)) = fst (fst rest)
    /\ items (provider (fst (cmd_paste resource w))) = snd (fst rest)
    /\ snd (cmd_paste resource w) = snd rest
    /\ clipboard (fst (cmd_paste resource w))
       = match snd rest with
         | None => emptyClipboard
         | Some _ => clipboard w
         end.
Proof.
  intros FS fsys resource w targetDir before sourcePath after d d' its index entry
         destPath its' rest Htarget Hcut Hpaths Hbefore Hexists Hrename Hfind.
  assert (Hloop : pasteLoop (Some Cut) targetDir (clipboardPaths (clipboard w)) (disk w)
                    (items (provider w)) = rest).
  { rewrite Hpaths, pasteLoop_app, Hbefore.
    rewrite (pasteLoop_cut_step _ _ _ _ _ _ Hexists Hrename).
    by rewrite (retarget_tracked _ _ _ _ _ Hfind). }
  assert (Hsome : clipboardPaths (clipboard w) <> []).
  { rewrite Hpaths. by destruct before. }
  destruct (cmd_paste_cut resource w targetDir Htarget Hcut Hsome)
    as (Hdisk & Hitems & Hthrown & Hclip).
  rewrite Hloop in Hdisk, Hitems, Hthrown, Hclip.
  split_and!; try done.
  - apply list_find_Some in Hfind as (Hlookup & _ & _).
    apply list_lookup_insert_eq. by eapply lookup_lt_Some.
  - apply length_insert.
  - intros j Hne. by apply list_lookup_insert_ne.
Qed.

Lemma paste_cut_rewrites_reached_path_in_place_witness :
  items (provider (fst (cmd_paste (Some PasteExample.dir2) PasteExample.w0)))
  = [{| path := "/root/x.txt"; type := File; category := None |};
     {| path := "/root/dir2/dir1"; type := Folder; category := Some "work" |};
     {| path := "/root/y.txt"; type := File; category := Some "work" |}]
  /\ clipboard (fst (cmd_paste (Some PasteExample.dir2) PasteExample.w0)) = emptyClipboard.
Proof.
  destruct (paste_cut_rewrites_reached_path_in_place SimFS.t SimFS.fileSystem
              (Some PasteExample.dir2) PasteExample.w0 "/root/dir2"
              ["/root/gone.txt"] "/root/dir1" [] PasteExample.disk0
              [SimFS.dir "/"; SimFS.dir "/root"; SimFS.dir "/root/dir2/dir1";
               SimFS.file "/root/dir2/dir1/a.txt" 5; SimFS.dir "/root/dir2";
               SimFS.file "/root/x.txt" 1; SimFS.file "/root/y.txt" 1]
              PasteExample.favorites 1%nat
              {| path := "/root/dir1"; type := Folder; category := Some "work" |})
    as (_ & _ & Hitems & _ & Hclip); try reflexivity.
  split; [exact Hitems | exact Hclip].
Defined.
